(** * humanfriendly: formatting and parsing of sizes, lengths and timespans

    A shallow embedding of [humanfriendly/text.py] ([concatenate],
    [pluralize], [tokenize]) and of [humanfriendly/__init__.py] (the unit
    tables, [round_number], [format_size], [parse_size], [parse_length],
    [format_timespan], [parse_timespan]) with the properties of these
    functions; then the further functions of the package: [compact],
    [trim_empty_lines], [is_empty_line], [split_paragraphs], [join_lines] and
    [split] of [text.py]; [coerce_boolean], [format_length], [format_number],
    [parse_date] and [prompt_for_choice] of [__init__.py]; [ansi_strip],
    [ansi_style], [ansi_width] and [ansi_wrap] of [humanfriendly/terminal.py].

    Conventions of the embedding.
    - Python 3 semantics ([/] is true division, [math.floor] returns an
      integer).
    - A [str] is a [string]; the text is read as ASCII: digits are [0-9],
      white space is what [str.strip] removes in the ASCII range, and
      [str.lower] maps [A-Z] to [a-z].
    - An [int] is a [Z].  A [float] is an IEEE 754 binary64 number, held by
      its exact rational value (or an infinity or NaN); every float operation
      computes the exact result and rounds it to the nearest binary64 number,
      ties to even ([binary64]).  The sign of a zero is not recorded: a
      zero stands for [0.0], and no property is stated of the text of a
      float zero, where ['%.2f'] would print the sign of [-0.0].
    - An exception is an outcome [Raise e] of the [outcome] monad.
    - [str.splitlines] ends a line at the ASCII characters 10 to 13 and 28 to
      30; [int] skips the characters 9 to 13 and 32 around a number; in a
      regular expression the point matches every character but the line
      feed.
    - Python's shortest representation of a float is not modelled:
      [format_number] and [format_length] are given for an [int] (below
      [2 ** 53] in magnitude, where [str(float(n))] is the integer followed
      by [".0"]), and the loop of [format_length] for every number; a
      [float] count of [pluralize] comes with the text Python prints for
      it.
    - [format] is called without arguments to interpolate.
    - [prompt_for_choice] is given the lines that the user types, one for
      each call of [input]; it returns what it prints with its result. *)

From Stdlib Require Import ZArith QArith Qround Qabs Qpower Qreduction.
From Stdlib Require Qcanon.
From Stdlib Require Import Lia Lqa List Sorted Bool Ascii String.
From Stdlib Require Import DecimalString DecimalZ DecimalPos DecimalN.
Import ListNotations.

#[local] Open Scope string_scope.
#[local] Open Scope Z_scope.

(** ** Python values and exceptions *)

Inductive pyfloat : Type :=
| Fin (q : Q)
| PInf
| NInf
| NaN.

Inductive number : Type :=
| Int (n : Z)
| Float (x : pyfloat).

(** What [tokenize] yields: numbers and strings. *)
Inductive token : Type :=
| TNum (n : number)
| TStr (s : string).

(** The exceptions of the modelled code.  The three [Invalid...] exceptions
    are raised with the message
    ["Failed to parse ...! (input %r was tokenized as %r)" % (text, tokens)];
    the constructor keeps the two values the message is built from. *)
Inductive exn : Type :=
| ValueError
| OverflowError
| ZeroDivisionError
| KeyError
| InvalidSize (size : string) (tokens : list token)
| InvalidLength (length : string) (tokens : list token)
| InvalidTimespan (timespan : string) (tokens : list token).

Inductive outcome (A : Type) : Type :=
| Ok (a : A)
| Raise (e : exn).

Arguments Ok {A} a.
Arguments Raise {A} e.

Definition bind {A B : Type} (m : outcome A) (k : A -> outcome B) : outcome B :=
  match m with
  | Ok a => k a
  | Raise e => Raise e
  end.

Notation "x <- m ;; k" := (bind m (fun x => k))
  (at level 61, m at next level, right associativity).

(** ** Binary64 arithmetic *)

Module Float.

#[local] Open Scope Q_scope.

Definition Qltb (a b : Q) : bool := negb (Qle_bool b a).

(** Nearest integer, ties to the even one. *)
Definition round_half_even (q : Q) : Z :=
  let f := Qfloor q in
  match Qcompare (q - inject_Z f) (1 # 2) with
  | Lt => f
  | Gt => (f + 1)%Z
  | Eq => if Z.even f then f else (f + 1)%Z
  end.

(** The integer [e] with [2 ^ e <= q < 2 ^ (e + 1)], for [0 < q]. *)
Definition ilog2 (q : Q) : Z :=
  let e0 := (Z.log2 (Qnum q) - Z.log2 (Zpos (Qden q)))%Z in
  if Qle_bool (2 ^ e0) q then e0 else (e0 - 1)%Z.

(** Exponent of the unit in the last place of the binary64 numbers around
    [q]: 53 bits of precision, gradual underflow from [2 ^ -1074]. *)
Definition ulp_exp (q : Q) : Z := Z.max (ilog2 (Qabs q) - 52) (-1074).

(** Rounding of a rational to binary64, overflowing to an infinity. *)
Definition binary64 (q : Q) : pyfloat :=
  match Qcompare q 0 with
  | Eq => Fin 0
  | c =>
      let e := ulp_exp q in
      let r := inject_Z (round_half_even (Qabs q / 2 ^ e)) * 2 ^ e in
      if Qle_bool (2 ^ 1024) r
      then match c with Gt => PInf | _ => NInf end
      else Fin (Qred match c with Gt => r | _ => - r end)
  end.

Definition is_neg (x : pyfloat) : bool :=
  match x with
  | Fin q => Qltb q 0
  | NInf => true
  | _ => false
  end.

Definition is_zero (x : pyfloat) : bool :=
  match x with
  | Fin q => Qeq_bool q 0
  | _ => false
  end.

Definition inf (negative : bool) : pyfloat := if negative then NInf else PInf.

Definition mul (x y : pyfloat) : pyfloat :=
  match x, y with
  | NaN, _ | _, NaN => NaN
  | Fin a, Fin b => binary64 (a * b)
  | _, _ =>
      if is_zero x || is_zero y then NaN
      else inf (xorb (is_neg x) (is_neg y))
  end.

(** [x / y] for [y] other than zero (Python raises on a zero divisor before
    dividing, see [num_div]). *)
Definition div (x y : pyfloat) : pyfloat :=
  match x, y with
  | NaN, _ | _, NaN => NaN
  | Fin a, Fin b => binary64 (a / b)
  | Fin _, _ => Fin 0
  | _, Fin _ => inf (xorb (is_neg x) (is_neg y))
  | _, _ => NaN
  end.

(** Python's [x % y] on floats, [y] other than zero: the remainder has the
    sign of the divisor. *)
Definition mod_ (x y : pyfloat) : pyfloat :=
  match x, y with
  | Fin a, Fin b => binary64 (a - b * inject_Z (Qfloor (a / b)))
  | Fin a, PInf => if Qltb a 0 then PInf else Fin a
  | Fin a, NInf => if Qltb 0 a then NInf else Fin a
  | _, _ => NaN
  end.

Definition ltb (x y : pyfloat) : bool :=
  match x, y with
  | Fin a, Fin b => Qltb a b
  | Fin _, PInf | NInf, Fin _ | NInf, PInf => true
  | _, _ => false
  end.

Definition leb (x y : pyfloat) : bool :=
  match x, y with
  | Fin a, Fin b => Qle_bool a b
  | Fin _, PInf | NInf, Fin _ | NInf, PInf | PInf, PInf | NInf, NInf => true
  | _, _ => false
  end.

(** [float(n)] of an [int]. *)
Definition of_int (n : Z) : outcome pyfloat :=
  match binary64 (inject_Z n) with
  | Fin q => Ok (Fin q)
  | _ => Raise OverflowError
  end.

(** [a / b] of two [int]s, [b] other than zero: the quotient rounded once. *)
Definition int_true_div (a b : Z) : outcome pyfloat :=
  match binary64 (inject_Z a / inject_Z b) with
  | Fin q => Ok (Fin q)
  | _ => Raise OverflowError
  end.

Definition truncate (q : Q) : Z :=
  if Qltb q 0 then Qceiling q else Qfloor q.

(** [int(x)] of a [float]. *)
Definition to_int (x : pyfloat) : outcome Z :=
  match x with
  | Fin q => Ok (truncate q)
  | NaN => Raise ValueError
  | _ => Raise OverflowError
  end.

(** [math.floor(x)]. *)
Definition floor (x : pyfloat) : outcome Z :=
  match x with
  | Fin q => Ok (Qfloor q)
  | NaN => Raise ValueError
  | _ => Raise OverflowError
  end.

End Float.

(** ** Arithmetic on numbers: [int] is converted to [float] in mixed mode *)

(** The exact value, for comparisons: Python compares an [int] with a
    [float] without rounding. *)
Definition exact (n : number) : pyfloat :=
  match n with
  | Int z => Fin (inject_Z z)
  | Float x => x
  end.

Definition num_lt (a b : number) : bool := Float.ltb (exact a) (exact b).
Definition num_ge (a b : number) : bool := Float.leb (exact b) (exact a).

Definition float_of_number (n : number) : outcome pyfloat :=
  match n with
  | Int z => Float.of_int z
  | Float x => Ok x
  end.

Definition int_of_number (n : number) : outcome Z :=
  match n with
  | Int z => Ok z
  | Float x => Float.to_int x
  end.

Definition num_is_zero (n : number) : bool :=
  match n with
  | Int z => z =? 0
  | Float x => Float.is_zero x
  end.

Definition num_mul (a b : number) : outcome number :=
  match a, b with
  | Int x, Int y => Ok (Int (x * y))
  | _, _ =>
      x <- float_of_number a ;;
      y <- float_of_number b ;;
      Ok (Float (Float.mul x y))
  end.

Definition num_div (a b : number) : outcome number :=
  if num_is_zero b then Raise ZeroDivisionError
  else
    match a, b with
    | Int x, Int y => r <- Float.int_true_div x y ;; Ok (Float r)
    | _, _ =>
        x <- float_of_number a ;;
        y <- float_of_number b ;;
        Ok (Float (Float.div x y))
    end.

Definition num_mod (a b : number) : outcome number :=
  if num_is_zero b then Raise ZeroDivisionError
  else
    match a, b with
    | Int x, Int y => Ok (Int (x mod y))
    | _, _ =>
        x <- float_of_number a ;;
        y <- float_of_number b ;;
        Ok (Float (Float.mod_ x y))
    end.

(** ** Strings *)

Definition is_digit (c : ascii) : bool :=
  let n := N_of_ascii c in ((48 <=? n) && (n <=? 57))%N.

(** The ASCII characters that [str.strip] removes. *)
Definition is_space (c : ascii) : bool :=
  let n := N_of_ascii c in
  (((9 <=? n) && (n <=? 13)) || ((28 <=? n) && (n <=? 32)))%N.

Definition lower_char (c : ascii) : ascii :=
  let n := N_of_ascii c in
  if ((65 <=? n) && (n <=? 90))%N then ascii_of_N (n + 32) else c.

Fixpoint lower (s : string) : string :=
  match s with
  | "" => ""
  | String c s' => String (lower_char c) (lower s')
  end.

Definition is_empty (s : string) : bool :=
  match s with
  | "" => true
  | _ => false
  end.

Fixpoint lstrip (s : string) : string :=
  match s with
  | "" => ""
  | String c s' => if is_space c then lstrip s' else s
  end.

Fixpoint rstrip (s : string) : string :=
  match s with
  | "" => ""
  | String c s' =>
      let r := rstrip s' in
      if is_space c && is_empty r then "" else String c r
  end.

Definition strip (s : string) : string := rstrip (lstrip s).

Definition startswith (s p : string) : bool := String.prefix p s.

Fixpoint all_digits (s : string) : bool :=
  match s with
  | "" => true
  | String c s' => is_digit c && all_digits s'
  end.

(** [s.isdigit()]: at least one character, all of them digits. *)
Definition isdigit (s : string) : bool := negb (is_empty s) && all_digits s.

Definition digit_value (c : ascii) : Z := Z.of_N (N_of_ascii c) - 48.

Fixpoint digits_value (acc : Z) (s : string) : Z :=
  match s with
  | "" => acc
  | String c s' => digits_value (10 * acc + digit_value c) s'
  end.

(** [int(s)], on the strings of digits that reach it. *)
Definition int_of_str (s : string) : outcome Z :=
  if isdigit s then Ok (digits_value 0 s) else Raise ValueError.

(** [str(n)] of an [int]. *)
Definition str_of_int (n : Z) : string := NilZero.string_of_int (Z.to_int n).

(** The longest prefix of digits, and what follows it. *)
Fixpoint span_digits (s : string) : string * string :=
  match s with
  | "" => ("", "")
  | String c s' =>
      if is_digit c
      then let (d, r) := span_digits s' in (String c d, r)
      else ("", s)
  end.

Definition decimal_value (int_part frac_part : string) : Q :=
  inject_Z (digits_value 0 (int_part ++ frac_part))
  / inject_Z (10 ^ Z.of_nat (String.length frac_part)).

(** [float(s)] of a string, for the plain notations: an optional sign, then
    digits with an optional point, or [inf] or [nan].  The decimal value is
    rounded once, as Python's correctly rounded conversion does.  Exponents
    and surrounding white space, which Python also accepts, never reach this
    function from the modelled code; they are rejected here. *)
Definition float_of_unsigned (s : string) : outcome pyfloat :=
  if String.eqb s "inf" then Ok PInf
  else if String.eqb s "nan" then Ok NaN
  else
    let (ip, rest) := span_digits s in
    match rest with
    | "" => if is_empty ip then Raise ValueError
            else Ok (Float.binary64 (decimal_value ip ""))
    | String "." fp =>
        if all_digits fp && negb (is_empty ip && is_empty fp)
        then Ok (Float.binary64 (decimal_value ip fp))
        else Raise ValueError
    | _ => Raise ValueError
    end.

Definition float_neg (x : pyfloat) : pyfloat :=
  match x with
  | Fin q => Fin (Qred (- q))
  | PInf => NInf
  | NInf => PInf
  | NaN => NaN
  end.

Definition float_of_str (s : string) : outcome pyfloat :=
  match s with
  | String "-" s' => x <- float_of_unsigned s' ;; Ok (float_neg x)
  | String "+" s' => float_of_unsigned s'
  | _ => float_of_unsigned s
  end.

Definition digit_char (d : Z) : ascii := ascii_of_N (48 + Z.to_N d).

(** ['%.2f' % x]: the exact value rounded to two decimals, ties to even.
    (Of the two zeros this is the text of [0.0]; Python prints [-0.0] with
    its sign.) *)
Definition format_2f (x : pyfloat) : string :=
  match x with
  | Fin q =>
      let k := Float.round_half_even (Qabs q * 100) in
      (if Float.Qltb q 0 then "-" else "")
      ++ str_of_int (k / 100) ++ "."
      ++ String (digit_char (k mod 100 / 10)) (String (digit_char (k mod 10)) "")
  | PInf => "inf"
  | NInf => "-inf"
  | NaN => "nan"
  end.

(** [re.sub('0+$', '', text)] *)
Fixpoint strip_trailing_zeros (s : string) : string :=
  match s with
  | "" => ""
  | String c s' =>
      let r := strip_trailing_zeros s' in
      if Ascii.eqb c "0" && is_empty r then "" else String c r
  end.

(** [re.sub('\.$', '', text)] *)
Fixpoint strip_trailing_dot (s : string) : string :=
  match s with
  | "" => ""
  | String c s' =>
      if Ascii.eqb c "." && is_empty s' then "" else String c (strip_trailing_dot s')
  end.

(** ** humanfriendly/text.py *)

Definition concatenate (items : list string) : string :=
  if (1 <? List.length items)%nat
  then String.concat ", " (removelast items) ++ " and " ++ last items ""
  else match items with
       | x :: _ => x
       | [] => ""
       end.

(** The count given to [pluralize]: an [int], the text of a number as
    [round_number] makes it, or a [float].  Python prints a [float] by its
    shortest representation, a built-in that is not modelled: a [float]
    count comes with the text that ['%s'] prints for it. *)
Inductive count : Type :=
| CInt (n : Z)
| CStr (s : string)
| CFloat (x : pyfloat) (text : string).

Definition str_of_count (c : count) : string :=
  match c with
  | CInt n => str_of_int n
  | CStr s => s
  | CFloat _ text => text
  end.

Definition float_of_count (c : count) : outcome pyfloat :=
  match c with
  | CInt n => Float.of_int n
  | CStr s => float_of_str s
  | CFloat x _ => Ok x
  end.

Definition pluralize (count : count) (singular : string) (plural : option string)
  : outcome string :=
  let plural :=
    match plural with
    | Some p => if is_empty p then singular ++ "s" else p
    | None => singular ++ "s"
    end in
  x <- float_of_count count ;;
  f <- Float.floor x ;;
  Ok (str_of_count count ++ " " ++ (if f =? 1 then singular else plural)).

(** [re.split(r'(\d+(?:\.\d+)?)', text)]: the text cut at every number, the
    numbers kept; the fragments alternate separator, number, separator, ...
    The state says what the fragment being read is. *)
Inductive split_state : Type :=
| InSep
| InInt
| InFrac.

Definition cons_head (c : ascii) (fragments : list string) : list string :=
  match fragments with
  | [] => [String c ""]
  | h :: t => String c h :: t
  end.

Definition starts_with_digit (s : string) : bool :=
  match s with
  | String c _ => is_digit c
  | "" => false
  end.

Fixpoint re_split_from (st : split_state) (s : string) : list string :=
  match s with
  | "" => match st with
          | InSep => [""]
          | _ => [""; ""]
          end
  | String c s' =>
      match st with
      | InSep =>
          if is_digit c then "" :: cons_head c (re_split_from InInt s')
          else cons_head c (re_split_from InSep s')
      | InInt =>
          if is_digit c then cons_head c (re_split_from InInt s')
          else if Ascii.eqb c "." && starts_with_digit s'
               then cons_head c (re_split_from InFrac s')
               else "" :: cons_head c (re_split_from InSep s')
      | InFrac =>
          if is_digit c then cons_head c (re_split_from InFrac s')
          else "" :: cons_head c (re_split_from InSep s')
      end
  end.

Definition re_split (text : string) : list string := re_split_from InSep text.

(** [re.match(r'\d+\.\d+', token)]: the pattern matches a prefix. *)
Definition re_match_float (token : string) : bool :=
  let (d, r) := span_digits token in
  negb (is_empty d)
  && match r with
     | String "." r' => starts_with_digit r'
     | _ => false
     end.

Fixpoint tokenize_loop (fragments : list string) (tokenized_input : list token)
  : outcome (list token) :=
  match fragments with
  | [] => Ok tokenized_input
  | token :: rest =>
      let token := strip token in
      if re_match_float token then
        x <- float_of_str token ;;
        tokenize_loop rest (tokenized_input ++ [TNum (Float x)])%list
      else if isdigit token then
        n <- int_of_str token ;;
        tokenize_loop rest (tokenized_input ++ [TNum (Int n)])%list
      else if negb (is_empty token) then
        tokenize_loop rest (tokenized_input ++ [TStr token])%list
      else tokenize_loop rest tokenized_input
  end.

Definition tokenize (text : string) : outcome (list token) :=
  tokenize_loop (re_split text) [].

(** ** humanfriendly/__init__.py *)

(** An entry of a unit table.  The time units have no ['prefix'] key. *)
Record unit : Type := mk_unit {
  prefix : option string;
  divider : number;
  singular : string;
  plural : string
}.

Definition unit_prefix (u : unit) : outcome string :=
  match prefix u with
  | Some p => Ok p
  | None => Raise KeyError
  end.

Definition disk_size_units : list unit :=
  [ mk_unit (Some "b") (Int 1) "byte" "bytes";
    mk_unit (Some "k") (Int (1024 ^ 1)) "KB" "KB";
    mk_unit (Some "m") (Int (1024 ^ 2)) "MB" "MB";
    mk_unit (Some "g") (Int (1024 ^ 3)) "GB" "GB";
    mk_unit (Some "t") (Int (1024 ^ 4)) "TB" "TB";
    mk_unit (Some "p") (Int (1024 ^ 5)) "PB" "PB" ].

(** A float literal [1e-N]: the binary64 number nearest to [10 ^ -N]. *)
Definition float_literal (q : Q) : number := Float (Float.binary64 q).

Definition length_size_units : list unit :=
  [ mk_unit (Some "nm") (float_literal (1 # 1000000000)) "nm" "nm";
    mk_unit (Some "mm") (float_literal (1 # 1000)) "mm" "mm";
    mk_unit (Some "cm") (float_literal (1 # 100)) "cm" "cm";
    mk_unit (Some "m") (Int 1) "metre" "metres";
    mk_unit (Some "km") (Int 1000) "km" "km" ].

Definition time_units : list unit :=
  [ mk_unit None (Int 1) "second" "seconds";
    mk_unit None (Int 60) "minute" "minutes";
    mk_unit None (Int (60 * 60)) "hour" "hours";
    mk_unit None (Int (60 * 60 * 24)) "day" "days";
    mk_unit None (Int (60 * 60 * 24 * 7)) "week" "weeks";
    mk_unit None (Int (60 * 60 * 24 * 7 * 52)) "year" "years" ].

Definition round_number (count : number) (keep_width : bool) : outcome string :=
  x <- float_of_number count ;;
  let text := format_2f x in
  Ok (if keep_width then text
      else strip_trailing_dot (strip_trailing_zeros text)).

(** The loop of [format_size]: the first unit, in the order given, whose
    divider the size reaches; [otherwise] is what follows the loop. *)
Fixpoint format_size_loop (units : list unit) (num_bytes : Z) (keep_width : bool)
    (otherwise : outcome string) : outcome string :=
  match units with
  | [] => otherwise
  | unit :: rest =>
      if num_ge (Int num_bytes) (divider unit) then
        x <- Float.of_int num_bytes ;;
        y <- num_div (Float x) (divider unit) ;;
        number <- round_number y keep_width ;;
        pluralize (CStr number) (singular unit) (Some (plural unit))
      else format_size_loop rest num_bytes keep_width otherwise
  end.

Definition format_size (num_bytes : Z) (keep_width : bool) : outcome string :=
  format_size_loop (rev disk_size_units) num_bytes keep_width
    (pluralize (CInt num_bytes) "byte" None).

(** The loop of [parse_size] over the units, first match wins. *)
Fixpoint parse_size_loop (units : list unit) (normalized_unit : string)
    (value : number) (otherwise : outcome Z) : outcome Z :=
  match units with
  | [] => otherwise
  | unit :: rest =>
      p <- unit_prefix unit ;;
      if startswith normalized_unit p then
        v <- num_mul value (divider unit) ;;
        int_of_number v
      else parse_size_loop rest normalized_unit value otherwise
  end.

Definition parse_size (size : string) : outcome Z :=
  tokens <- tokenize size ;;
  let failed := Raise (InvalidSize size tokens) in
  match tokens with
  | TNum n :: rest =>
      match rest with
      | [] => int_of_number n
      | [TStr s] => parse_size_loop disk_size_units (lower s) n failed
      | _ => failed
      end
  | _ => failed
  end.

Fixpoint parse_length_loop (units : list unit) (normalized_unit : string)
    (value : number) (otherwise : outcome number) : outcome number :=
  match units with
  | [] => otherwise
  | unit :: rest =>
      p <- unit_prefix unit ;;
      if startswith normalized_unit p then num_mul value (divider unit)
      else parse_length_loop rest normalized_unit value otherwise
  end.

Definition parse_length (length : string) : outcome number :=
  tokens <- tokenize length ;;
  let failed := Raise (InvalidLength length tokens) in
  match tokens with
  | TNum n :: rest =>
      match rest with
      | [] => v <- int_of_number n ;; Ok (Int v)
      | [TStr s] => parse_length_loop length_size_units (lower s) n failed
      | _ => failed
      end
  | _ => failed
  end.

(** The slow path of [format_timespan]: one pass over the units, largest
    first; [result] collects the rendered terms. *)
Fixpoint format_timespan_loop (units : list unit) (num_seconds : number)
    (result : list string) : outcome (list string) :=
  match units with
  | [] => Ok result
  | unit :: rest =>
      if num_ge num_seconds (divider unit) then
        q <- num_div num_seconds (divider unit) ;;
        count <- int_of_number q ;;
        num_seconds <- num_mod num_seconds (divider unit) ;;
        term <- pluralize (CInt count) (singular unit) (Some (plural unit)) ;;
        format_timespan_loop rest num_seconds (result ++ [term])%list
      else format_timespan_loop rest num_seconds result
  end.

Definition format_timespan (num_seconds : number) : outcome string :=
  if num_lt num_seconds (Int 60) then
    text <- round_number num_seconds false ;;
    pluralize (CStr text) "second" None
  else
    result <- format_timespan_loop (rev time_units) num_seconds [] ;;
    match result with
    | [term] => Ok term
    | _ => Ok (concatenate (firstn 3 result))
    end.

(** [unit['singular'][0]]; an empty name would raise [IndexError], which no
    entry of the table has, so the first letter is total on the table. *)
Definition first_letter (s : string) : string :=
  match s with
  | String c _ => String c ""
  | "" => ""
  end.

Fixpoint parse_timespan_loop (units : list unit) (normalized_unit : string)
    (value : number) (otherwise : outcome number) : outcome number :=
  match units with
  | [] => otherwise
  | unit :: rest =>
      if startswith normalized_unit (first_letter (singular unit)) then
        x <- float_of_number value ;;
        num_mul (Float x) (divider unit)
      else parse_timespan_loop rest normalized_unit value otherwise
  end.

Definition parse_timespan (timespan : string) : outcome number :=
  tokens <- tokenize timespan ;;
  let failed := Raise (InvalidTimespan timespan tokens) in
  match tokens with
  | TNum n :: rest =>
      match rest with
      | [] => x <- float_of_number n ;; Ok (Float x)
      | [TStr s] => parse_timespan_loop time_units (lower s) n failed
      | _ => failed
      end
  | _ => failed
  end.

(** ** Vocabulary of the specifications *)

Fixpoint all_space (s : string) : bool :=
  match s with
  | "" => true
  | String c s' => is_space c && all_space s'
  end.

Fixpoint no_digit (s : string) : bool :=
  match s with
  | "" => true
  | String c s' => negb (is_digit c) && no_digit s'
  end.

Fixpoint flatten (fragments : list string) : string :=
  match fragments with
  | [] => ""
  | f :: rest => f ++ flatten rest
  end.

(** [reads src t]: the token [t] is what the piece of text [src] denotes. *)
Inductive reads : string -> token -> Prop :=
| reads_int ds :
    isdigit ds = true ->
    reads ds (TNum (Int (digits_value 0 ds)))
| reads_float ip fp :
    isdigit ip = true -> isdigit fp = true ->
    reads (ip ++ "." ++ fp)
          (TNum (Float (Float.binary64 (decimal_value ip fp))))
| reads_str s :
    is_empty s = false -> strip s = s -> no_digit s = true ->
    reads s (TStr s).

(** [lexes text tokens]: the text is the pieces the tokens are read from, in
    order, with nothing but white space between and around them. *)
Inductive lexes : string -> list token -> Prop :=
| lexes_nil ws :
    all_space ws = true -> lexes ws []
| lexes_cons ws src t rest ts :
    all_space ws = true -> reads src t -> lexes rest ts ->
    lexes (ws ++ src ++ rest) (t :: ts).

(** The text of a number: digits, or digits on both sides of a point. *)
Inductive numeral : string -> Prop :=
| numeral_int ds : isdigit ds = true -> numeral ds
| numeral_float ip fp :
    isdigit ip = true -> isdigit fp = true -> numeral (ip ++ "." ++ fp).

(** The fragments of [re_split]: separators without digits around numerals. *)
Inductive fragments_ok : list string -> Prop :=
| fragments_last sep :
    no_digit sep = true -> fragments_ok [sep]
| fragments_cons sep num rest :
    no_digit sep = true -> numeral num -> fragments_ok rest ->
    fragments_ok (sep :: num :: rest).

(** The text does not start with white space. *)
Definition starts_clean (s : string) : bool :=
  match s with
  | "" => true
  | String c _ => negb (is_space c)
  end.

(** The text has no white space at all. *)
Fixpoint no_space (s : string) : bool :=
  match s with
  | "" => true
  | String c s' => negb (is_space c) && no_space s'
  end.

(** What is left of a numeral after some of its first digits. *)
Inductive numeral_tail : string -> Prop :=
| tail_digits ds : all_digits ds = true -> numeral_tail ds
| tail_point ip fp :
    all_digits ip = true -> isdigit fp = true -> numeral_tail (ip ++ "." ++ fp).

(** The tokens of a separator: its text without the white space around it,
    if any is left. *)
Definition unit_tokens (sep : string) : list token :=
  if is_empty (strip sep) then [] else [TStr (strip sep)].



(** [first_match P units u]: [u] is the first entry of the table, in the
    order of the table, that satisfies [P]. *)
Definition first_match (P : unit -> bool) (units : list unit) (u : unit) : Prop :=
  exists before after,
    units = (before ++ u :: after)%list
    /\ P u = true
    /\ forall v, In v before -> P v = false.

(** The test of [parse_size] and [parse_length]: the prefix of the unit
    starts the normalized name. *)
Definition prefix_matches (normalized_unit : string) (u : unit) : bool :=
  match prefix u with
  | Some p => startswith normalized_unit p
  | None => false
  end.

(** The test of [parse_timespan]: the first letter of the singular name
    starts the normalized name. *)
Definition letter_matches (normalized_unit : string) (u : unit) : bool :=
  startswith normalized_unit (first_letter (singular u)).

(** Python's [a == b] on numbers. *)
Definition num_eq (a b : number) : Prop :=
  match exact a, exact b with
  | Fin x, Fin y => (x == y)%Q
  | PInf, PInf | NInf, NInf => True
  | _, _ => False
  end.


(** The entry has a ['prefix'] key. *)
Definition has_prefix (u : unit) : Prop := prefix u <> None.


(** The claim as written: the result is the number times the divider. *)
Definition parse_size_returns_product : Prop :=
  forall size n s u,
    tokenize size = Ok [TNum n; TStr s] ->
    first_match (prefix_matches (lower s)) disk_size_units u ->
    exists product r,
      num_mul n (divider u) = Ok product
      /\ parse_size size = Ok r
      /\ num_eq (Int r) product.

(** Entries of the tables, by name. *)
Definition byte_unit : unit := mk_unit (Some "b") (Int 1) "byte" "bytes".

Definition kilo_unit : unit := mk_unit (Some "k") (Int (1024 ^ 1)) "KB" "KB".

Definition giga_unit : unit := mk_unit (Some "g") (Int (1024 ^ 3)) "GB" "GB".

Definition minute_unit : unit := mk_unit None (Int 60) "minute" "minutes".

(** The claim as written: both return the value of the token. *)
Definition parse_returns_token_value : Prop :=
  forall text n,
    tokenize text = Ok [TNum n] ->
    (exists r, parse_size text = Ok r /\ num_eq (Int r) n)
    /\ (exists v, parse_length text = Ok v /\ num_eq v n).

(** The plural form [pluralize] uses: the one given, or the singular with an
    ["s"] when none (or an empty one) is given. *)
Definition plural_form (singular : string) (plural : option string) : string :=
  match plural with
  | Some p => if is_empty p then singular ++ "s" else p
  | None => singular ++ "s"
  end.

(** What [format_size] returns once it has selected the unit [u]. *)
Definition render_size (u : unit) (num_bytes : Z) (keep_width : bool)
  : outcome string :=
  x <- Float.of_int num_bytes ;;
  y <- num_div (Float x) (divider u) ;;
  number <- round_number y keep_width ;;
  pluralize (CStr number) (singular u) (Some (plural u)).

(** [u] is the largest unit of the table that the size reaches. *)
Definition largest_unit (units : list unit) (num_bytes : Z) (u : unit) : Prop :=
  In u units
  /\ num_ge (Int num_bytes) (divider u) = true
  /\ forall v, In v units -> num_ge (Int num_bytes) (divider v) = true ->
               num_ge (divider u) (divider v) = true.

(** [v] comes before [u] in a table read from the largest unit down: its
    divider is the larger one. *)
Definition larger_divider (v u : unit) : Prop :=
  num_ge (divider u) (divider v) = false.

(** The divider of a unit of [time_units], all of them integers. *)
Definition int_divider (u : unit) : Z :=
  match divider u with
  | Int d => d
  | Float _ => 0
  end.

(** The greedy decomposition in the words of the specification: for each
    unit, largest first, the integer count and the remainder that is kept. *)
Fixpoint greedy (units : list unit) (n : Z) : list (Z * unit) :=
  match units with
  | [] => []
  | u :: rest => (n / int_divider u, u) :: greedy rest (n mod int_divider u)
  end.

Definition nonzero_count (cu : Z * unit) : bool := negb (fst cu =? 0).

(** A count and its unit as [pluralize] renders them. *)
Definition render_term (cu : Z * unit) : string :=
  str_of_int (fst cu) ++ " "
  ++ (if fst cu =? 1 then singular (snd cu) else plural (snd cu)).

(** The terms of a timespan of [n] seconds: the units with a count other
    than zero, largest first. *)
Definition timespan_terms (n : Z) : list string :=
  map render_term (filter nonzero_count (greedy (rev time_units) n)).

(** What the loop of [format_timespan] needs of a unit: an integer divider
    that converts to a float exactly, and a plural. *)
Definition time_unit_ok (u : unit) : Prop :=
  exists d, divider u = Int d /\ 0 < d < 2 ^ 53 /\ is_empty (plural u) = false.

(** The fast path of [format_timespan] on the integer [i], checked by
    evaluation. *)
Definition fast_path_ok (i : nat) : bool :=
  let n := Z.of_nat i in
  match format_timespan (Int n) with
  | Ok s => String.eqb s (str_of_int n ++ " "
                          ++ (if n =? 1 then "second" else "seconds"))
  | Raise _ => false
  end.

(** The text [round_number] makes of a nonnegative number whose hundredths,
    rounded, are [k]: two decimals, trailing zeros and a trailing point
    removed. *)
Definition numeral_text (k : Z) : string :=
  let f := digit_char (k mod 100 / 10) in
  let g := digit_char (k mod 10) in
  if k mod 10 =? 0
  then if k mod 100 / 10 =? 0
       then str_of_int (k / 100)
       else str_of_int (k / 100) ++ "." ++ String f ""
  else str_of_int (k / 100) ++ "." ++ String f (String g "").

(** The number [tokenize] reads from [numeral_text k]. *)
Definition numeral_number (k : Z) : number :=
  if k mod 100 =? 0
  then Int (k / 100)
  else Float (Float.binary64 (inject_Z k / 100)).

(** What the code makes of a size [x] once the unit is fixed: the
    hundredths [k] of [x / d], rounded. *)
Definition hundredths (x d : Z) : Z :=
  Float.round_half_even (inject_Z x / inject_Z d * 100).

(** The conditions on a unit of the table: its names have no digit and
    select the unit again when parsed. *)
Definition name_ok (u : unit) (word : string) : Prop :=
  no_digit word = true /\ strip (" " ++ word) = word /\ is_empty word = false
  /\ find (prefix_matches (lower word)) disk_size_units = Some u.

(** The divider of the unit that [format_size] selects for a size, in the
    words of the claim: the largest divider of the table that the size
    reaches, the base unit when it reaches none. *)
Definition selected_divider (x : Z) : Z :=
  if 1024 ^ 5 <=? x then 1024 ^ 5
  else if 1024 ^ 4 <=? x then 1024 ^ 4
  else if 1024 ^ 3 <=? x then 1024 ^ 3
  else if 1024 ^ 2 <=? x then 1024 ^ 2
  else if 1024 ^ 1 <=? x then 1024 ^ 1
  else 1.

(** The claim as written: the value read back is within the rounding of
    the text, half a hundredth of the unit. *)
Definition round_trip_within_rounding : Prop :=
  forall x,
    0 <= x ->
    exists text r,
      format_size x false = Ok text
      /\ parse_size text = Ok r
      /\ (Qabs (inject_Z (r - x))
          <= (5 # 1000) * inject_Z (selected_divider x))%Q.

(** The value of a binary64 number: an integer of at most 53 bits times a
    power of two, from [2 ^ -1074] on. *)
Definition is_binary64 (q : Q) : Prop :=
  exists m e,
    (q == inject_Z m * 2 ^ e)%Q /\ Z.abs m < 2 ^ 53 /\ -1074 <= e.

(** The number is a float zero, whose sign the embedding does not record. *)
Definition float_zero (x : number) : bool :=
  match x with
  | Int _ => false
  | Float y => Float.is_zero y
  end.


(** The claim on [format_timespan], as written: from 60 seconds on the
    result is made of the greedy integer counts. *)
Definition timespan_is_greedy : Prop :=
  forall n,
    60 <= n ->
    format_timespan (Int n) = Ok (concatenate (firstn 3 (timespan_terms n))).


(** * Further functions of the package *)

(** ** humanfriendly/text.py: white space, lines and lists *)

(** The line feed, ["\n"]. *)
Definition LF : ascii := "010".

(** [s.isspace()]: at least one character, all of them white space. *)
Definition isspace (s : string) : bool := negb (is_empty s) && all_space s.

(** The next character belongs to a word: it is not white space. *)
Definition starts_word (s : string) : bool :=
  match s with
  | String c _ => negb (is_space c)
  | "" => false
  end.

(** [text.split()]: the runs of characters other than white space. *)
Fixpoint split_whitespace (s : string) : list string :=
  match s with
  | "" => []
  | String c s' =>
      if is_space c then split_whitespace s'
      else if starts_word s' then cons_head c (split_whitespace s')
           else String c "" :: split_whitespace s'
  end.

(** [format(text)] without positional or keyword arguments: both tests
    [if args] and [if kw] fail and the text is returned as it is. *)
Definition format (text : string) : string := text.

Definition compact (text : string) : string :=
  let non_whitespace_tokens := split_whitespace text in
  let compacted_text := String.concat " " non_whitespace_tokens in
  format compacted_text.

Definition is_empty_line (text : string) : bool :=
  (String.length text =? 0)%nat || isspace text.

(** The ASCII characters at which [str.splitlines] ends a line. *)
Definition is_line_break (c : ascii) : bool :=
  let n := N_of_ascii c in
  (((10 <=? n) && (n <=? 13)) || ((28 <=? n) && (n <=? 30)))%N.

Definition starts_with_char (c : ascii) (s : string) : bool :=
  match s with
  | String d _ => Ascii.eqb d c
  | "" => false
  end.

(** [text.splitlines(True)]: the lines with their line ends; a carriage
    return followed by a line feed is one line end. *)
Fixpoint splitlines (s : string) : list string :=
  match s with
  | "" => []
  | String c s' =>
      if is_line_break c && negb (Ascii.eqb c "013" && starts_with_char LF s')
      then String c "" :: splitlines s'
      else cons_head c (splitlines s')
  end.

(** [while lines and is_empty_line(lines[0]): lines.pop(0)] *)
Fixpoint pop_leading (lines : list string) : list string :=
  match lines with
  | [] => []
  | line :: rest => if is_empty_line line then pop_leading rest else lines
  end.

Definition is_nil {A : Type} (l : list A) : bool :=
  match l with
  | [] => true
  | _ => false
  end.

(** [while lines and is_empty_line(lines[-1]): lines.pop(-1)] *)
Fixpoint pop_trailing (lines : list string) : list string :=
  match lines with
  | [] => []
  | line :: rest =>
      let kept := pop_trailing rest in
      if is_empty_line line && is_nil kept then [] else line :: kept
  end.

Definition trim_empty_lines (text : string) : string :=
  let lines := splitlines text in
  let lines := pop_leading lines in
  let lines := pop_trailing lines in
  String.concat "" lines.

(** [text.split('\n\n')] *)
Fixpoint split_blank_line (s : string) : list string :=
  match s with
  | "" => [""]
  | String c s' =>
      match s' with
      | String d s'' =>
          if Ascii.eqb c LF && Ascii.eqb d LF
          then "" :: split_blank_line s''
          else cons_head c (split_blank_line s')
      | "" => cons_head c (split_blank_line s')
      end
  end.

Fixpoint split_paragraphs_loop (chunks : list string) (paragraphs : list string)
  : list string :=
  match chunks with
  | [] => paragraphs
  | chunk :: rest =>
      let chunk := trim_empty_lines chunk in
      if negb (is_empty chunk) && negb (isspace chunk)
      then split_paragraphs_loop rest (paragraphs ++ [chunk])%list
      else split_paragraphs_loop rest paragraphs
  end.

Definition split_paragraphs (text : string) : list string :=
  split_paragraphs_loop (split_blank_line text) [].

(** [re.sub(r'(\S)\n(\S)', r'\1 \2', text)]: the matches are found from left
    to right and do not overlap, so the search goes on after the second
    character of a match. *)
Fixpoint join_lines_sub (s : string) : string :=
  match s with
  | "" => ""
  | String a t =>
      match t with
      | String b (String c rest) =>
          if negb (is_space a) && Ascii.eqb b LF && negb (is_space c)
          then String a (String " " (String c (join_lines_sub rest)))
          else String a (join_lines_sub t)
      | _ => String a (join_lines_sub t)
      end
  end.

Definition join_lines (text : string) : string := strip (join_lines_sub text).

(** [text.split(sep)] for a separator of one character. *)
Fixpoint split_char (sep : ascii) (s : string) : list string :=
  match s with
  | "" => [""]
  | String c s' =>
      if Ascii.eqb c sep then "" :: split_char sep s'
      else cons_head c (split_char sep s')
  end.

(** [[token.strip() for token in text.split(',')
      if token and not token.isspace()]] *)
Definition split (text : string) : list string :=
  map strip
    (filter (fun token => negb (is_empty token) && negb (isspace token))
       (split_char "," text)).

(** ** humanfriendly/__init__.py: booleans, lengths, numbers and dates *)

(** The values given to [coerce_boolean]: [None], a [bool], an [int], a
    [float] or a [str]. *)
Inductive pyvalue : Type :=
| VNone
| VBool (b : bool)
| VInt (n : Z)
| VFloat (x : pyfloat)
| VStr (s : string).

(** [bool(value)] *)
Definition truth (value : pyvalue) : bool :=
  match value with
  | VNone => false
  | VBool b => b
  | VInt n => negb (n =? 0)
  | VFloat x => negb (Float.is_zero x)
  | VStr s => negb (is_empty s)
  end.

(** [s in (a, b, ...)] for strings. *)
Definition among (s : string) (l : list string) : bool :=
  existsb (String.eqb s) l.

Definition coerce_boolean (value : pyvalue) : outcome bool :=
  match value with
  | VStr s =>
      let normalized := lower (strip s) in
      if among normalized ["1"; "yes"; "true"; "on"] then Ok true
      else if among normalized ["0"; "no"; "false"; "off"; ""] then Ok false
      else Raise ValueError
  | _ => Ok (truth value)
  end.

(** The loop of [format_length]: the first unit, in the order given, whose
    divider the length reaches; [otherwise] is what follows the loop. *)
Fixpoint format_length_loop (units : list unit) (num_metres : number)
    (keep_width : bool) (otherwise : outcome string) : outcome string :=
  match units with
  | [] => otherwise
  | unit :: rest =>
      if num_ge num_metres (divider unit) then
        x <- float_of_number num_metres ;;
        y <- num_div (Float x) (divider unit) ;;
        number <- round_number y keep_width ;;
        pluralize (CStr number) (singular unit) (Some (plural unit))
      else format_length_loop rest num_metres keep_width otherwise
  end.

(** [format_length] of an [int].  (A [float] that reaches no unit is given
    to [pluralize] as it is and printed by Python's shortest representation,
    see [count]; the loop above covers the floats that reach a unit.) *)
Definition format_length (num_metres : Z) (keep_width : bool) : outcome string :=
  format_length_loop (rev length_size_units) (Int num_metres) keep_width
    (pluralize (CInt num_metres) "metre" None).

(** [str(float(number))] of an [int] with [abs(number) < 2 ** 53]: the float
    is exact and below [1e16], and Python prints it as the integer followed
    by [".0"]. *)
Definition str_of_float_of_int (number : Z) : string :=
  str_of_int number ++ ".0".

(** [text.partition('.')]: what is before the first point, and what is
    after it (both empty parts when there is no point). *)
Fixpoint partition_point (s : string) : string * string :=
  match s with
  | "" => ("", "")
  | String c s' =>
      if Ascii.eqb c "." then ("", s')
      else let (before, after) := partition_point s' in (String c before, after)
  end.

(** [''.join(reversed(text))] *)
Fixpoint reversed (s : string) : string :=
  match s with
  | "" => ""
  | String c s' => reversed s' ++ String c ""
  end.

(** The loop of [format_number]: the text cut into pieces of three
    characters, the last one shorter when the length asks for it. *)
Fixpoint format_number_loop (reversed_digits : string) : list string :=
  match reversed_digits with
  | "" => []
  | String a (String b (String c rest)) =>
      String a (String b (String c "")) :: format_number_loop rest
  | short => [short]
  end.

Fixpoint take (n : nat) (s : string) : string :=
  match n, s with
  | S n', String c s' => String c (take n' s')
  | _, _ => ""
  end.

(** [text[:stop]]: a negative [stop] counts from the end. *)
Definition slice_to (stop : Z) (s : string) : string :=
  if stop <? 0
  then take (Z.to_nat (Z.of_nat (String.length s) + stop)) s
  else take (Z.to_nat stop) s.

(** [format_number] of an [int] with [abs(number) < 2 ** 53]. *)
Definition format_number (number : Z) (num_decimals : Z) : string :=
  let (integer_part, decimal_part) :=
    partition_point (str_of_float_of_int number) in
  let reversed_digits := reversed integer_part in
  let parts := format_number_loop reversed_digits in
  let formatted_number := reversed (String.concat "," parts) in
  let decimals_to_add :=
    strip_trailing_zeros (slice_to num_decimals decimal_part) in
  if negb (is_empty decimals_to_add)
  then formatted_number ++ "." ++ decimals_to_add
  else formatted_number.

(** The characters that [int] skips around a number: the white space of C
    (in ASCII text, [int] leaves the separators 28 to 31 in place and then
    rejects them). *)
Definition is_c_space (c : ascii) : bool :=
  let n := N_of_ascii c in (((9 <=? n) && (n <=? 13)) || (n =? 32))%N.

Fixpoint lstrip_c (s : string) : string :=
  match s with
  | "" => ""
  | String c s' => if is_c_space c then lstrip_c s' else s
  end.

Fixpoint rstrip_c (s : string) : string :=
  match s with
  | "" => ""
  | String c s' =>
      let r := rstrip_c s' in
      if is_c_space c && is_empty r then "" else String c r
  end.

(** The digits of an integer literal: an underscore may stand between two
    digits. *)
Fixpoint int_digits (acc : Z) (after_digit : bool) (s : string) : outcome Z :=
  match s with
  | "" => if after_digit then Ok acc else Raise ValueError
  | String c s' =>
      if is_digit c then int_digits (10 * acc + digit_value c) true s'
      else if Ascii.eqb c "_" && after_digit then int_digits acc false s'
      else Raise ValueError
  end.

(** [int(s)] of a string, in base ten: white space around an optional sign
    and the digits. *)
Definition int_of_text (s : string) : outcome Z :=
  let text := rstrip_c (lstrip_c s) in
  match text with
  | String sign digits =>
      if Ascii.eqb sign "-" then n <- int_digits 0 false digits ;; Ok (- n)
      else if Ascii.eqb sign "+" then int_digits 0 false digits
      else int_digits 0 false text
  | "" => Raise ValueError
  end.

(** [list(map(int, parts))]: the first failure ends the conversion. *)
Fixpoint map_int (parts : list string) : outcome (list Z) :=
  match parts with
  | [] => Ok []
  | part :: rest =>
      n <- int_of_text part ;;
      ns <- map_int rest ;;
      Ok (n :: ns)
  end.

(** What [parse_date] gives: the tuple of six numbers, or the exception
    [InvalidDate], raised with the message
    ["Invalid date! (expected ... but got: %r)" % datestring]. *)
Inductive parsed_date : Type :=
| Date (fields : list Z)
| InvalidDate (datestring : string).

(** The body of the [try] statement of [parse_date]. *)
Definition parse_date_body (datestring : string) : outcome (list Z) :=
  let tokens := map strip (split_whitespace datestring) in
  if (2 <=? List.length tokens)%nat then
    d <- map_int (split_char "-" (nth 0 tokens "")) ;;
    let date_parts := (d ++ [1; 1])%list in
    t <- map_int (split_char ":" (nth 1 tokens "")) ;;
    let time_parts := (t ++ [0; 0; 0])%list in
    Ok (firstn 3 date_parts ++ firstn 3 time_parts)%list
  else
    d <- map_int (split_char "-" datestring) ;;
    match firstn 3 (d ++ [1; 1])%list with
    | [year; month; day] => Ok [year; month; day; 0; 0; 0]
    | _ => Raise ValueError
    end.

(** [except Exception]: whatever the body raises becomes [InvalidDate]. *)
Definition parse_date (datestring : string) : parsed_date :=
  match parse_date_body datestring with
  | Ok fields => Date fields
  | Raise _ => InvalidDate datestring
  end.

(** [needle in text]: the text holds the other string. *)
Fixpoint contains (text needle : string) : bool :=
  String.prefix needle text
  || match text with
     | "" => false
     | String _ rest => contains rest needle
     end.

(** How [prompt_for_choice] ends: it returns a choice, or the input ends
    and [input] raises [EOFError]. *)
Inductive prompt_end : Type :=
| Returned (choice : string)
| EndOfInput.

(** The lines that list the choices, numbered from [start]. *)
Fixpoint menu (start : Z) (choices : list string) (default : option string)
  : list string :=
  match choices with
  | [] => []
  | choice :: rest =>
      let text := " " ++ str_of_int start ++ ". " ++ choice in
      let text :=
        match default with
        | Some d => if String.eqb choice d then text ++ " (default choice)"
                    else text
        | None => text
        end in
      text :: menu (start + 1) rest default
  end.

(** The loop over the choices: an exact match is returned at once, the
    choices that hold the input are collected. *)
Fixpoint find_matches (choices : list string) (input : string)
    (matches : list string) : string + list string :=
  match choices with
  | [] => inr matches
  | choice :: rest =>
      let lower_input := lower input in
      let lower_choice := lower choice in
      if String.eqb lower_input lower_choice then inl choice
      else if contains lower_choice lower_input
           then find_matches rest input (matches ++ [choice])%list
           else find_matches rest input matches
  end.

(** [choices[index]] when [0 <= index < len(choices)]. *)
Definition choice_at (choices : list string) (index : Z) : option string :=
  if (0 <=? index) && (index <? Z.of_nat (List.length choices))
  then nth_error choices (Z.to_nat index)
  else None.

(** The three error messages of [prompt_for_choice]. *)
Definition error_ambiguous (input : string) (matches : list string) : string :=
  "Error: The string '" ++ input ++ "' matches more than one choice ("
  ++ concatenate matches ++ ").".

Definition error_number (input : string) : string :=
  "Error: The number " ++ str_of_int (digits_value 0 input)
  ++ " is not a valid choice.".

Definition error_unknown (input : string) : string :=
  "Error: The string '" ++ input ++ "' doesn't match any choices.".

(** The [while True] loop of [prompt_for_choice], over the lines that the
    user types; [printed] collects the lines given to [print]. *)
Fixpoint prompt_loop (choices : list string) (default : option string)
    (answers : list string) (printed : list string)
  : list string * prompt_end :=
  match answers with
  | [] => (printed, EndOfInput)
  | answer :: answers =>
      let input := strip answer in
      if is_empty input then
        match default with
        | Some d => (printed, Returned d)
        | None => prompt_loop choices default answers printed
        end
      else
        match (if isdigit input
               then choice_at choices (digits_value 0 input - 1)
               else None) with
        | Some choice => (printed, Returned choice)
        | None =>
            match find_matches choices input [] with
            | inl choice => (printed, Returned choice)
            | inr matches =>
                match matches with
                | [choice] => (printed, Returned choice)
                | _ :: _ =>
                    prompt_loop choices default answers
                      (printed ++ [error_ambiguous input matches])%list
                | [] =>
                    if isdigit input then
                      prompt_loop choices default answers
                        (printed ++ [error_number input])%list
                    else
                      prompt_loop choices default answers
                        (printed ++ [error_unknown input])%list
                end
            end
        end
  end.

(** [prompt_for_choice], given the lines that the user types. *)
Definition prompt_for_choice (choices : list string) (default : option string)
    (answers : list string) : list string * prompt_end :=
  prompt_loop choices default answers (menu 1 choices default).

(** ** humanfriendly/terminal.py: ANSI escape sequences *)

(** The escape character, ["\x1b"]. *)
Definition ESC : ascii := "027".

Definition ANSI_CSI : string := String ESC "[".

Definition ANSI_SGR : string := "m".

Definition ANSI_RESET : string := ANSI_CSI ++ "0" ++ ANSI_SGR.

Definition ANSI_COLOR_CODES : list (string * Z) :=
  [ ("black", 0); ("red", 1); ("green", 2); ("yellow", 3);
    ("blue", 4); ("magenta", 5); ("cyan", 6); ("white", 7) ].

Fixpoint lookup (key : string) (d : list (string * Z)) : option Z :=
  match d with
  | [] => None
  | (k, v) :: rest => if String.eqb k key then Some v else lookup key rest
  end.

(** An ["m"] comes before the end of the line: the pattern [.*?m] matches. *)
Fixpoint reaches_sgr (s : string) : bool :=
  match s with
  | "" => false
  | String c s' =>
      if Ascii.eqb c "m" then true
      else if Ascii.eqb c LF then false
      else reaches_sgr s'
  end.

(** [re.sub(pattern, '', text)] for the pattern [\x1b\[.*?m]: where the
    pattern matches, the text is skipped up to the first ["m"]. *)
Fixpoint ansi_strip_from (skipping : bool) (s : string) : string :=
  match s with
  | "" => ""
  | String c s' =>
      if skipping then
        if Ascii.eqb c "m" then ansi_strip_from false s'
        else ansi_strip_from true s'
      else
        match s' with
        | String d rest =>
            if Ascii.eqb c ESC && Ascii.eqb d "[" && reaches_sgr rest
            then ansi_strip_from true rest
            else String c (ansi_strip_from false s')
        | "" => String c ""
        end
  end.

Definition ansi_strip (text : string) : string := ansi_strip_from false text.

(** The arguments of [ansi_style]; a color is a name or [None]. *)
Record style : Type := mk_style {
  color : option string;
  bold : bool;
  faint : bool;
  underline : bool;
  inverse : bool;
  strike_through : bool
}.

Definition ansi_style (kw : style) : outcome string :=
  let sequences := [] in
  let sequences := if bold kw then (sequences ++ ["1"])%list else sequences in
  let sequences := if faint kw then (sequences ++ ["2"])%list else sequences in
  let sequences := if underline kw then (sequences ++ ["4"])%list else sequences in
  let sequences := if inverse kw then (sequences ++ ["7"])%list else sequences in
  let sequences :=
    if strike_through kw then (sequences ++ ["9"])%list else sequences in
  sequences <-
    match color kw with
    | Some name =>
        if is_empty name then Ok sequences
        else match lookup name ANSI_COLOR_CODES with
             | None => Raise ValueError
             | Some code => Ok (sequences ++ [("3" ++ str_of_int code)%string])%list
             end
    | None => Ok sequences
    end ;;
  if negb (is_nil sequences)
  then Ok (ANSI_CSI ++ String.concat ";" sequences ++ ANSI_SGR)
  else Ok "".

Definition ansi_width (text : string) : nat := String.length (ansi_strip text).

Definition ansi_wrap (text : string) (kw : style) : outcome string :=
  start_sequence <- ansi_style kw ;;
  if negb (is_empty start_sequence)
  then Ok (start_sequence ++ text ++ ANSI_RESET)
  else Ok text.

(** ** Vocabulary of the further properties *)

(** Every white space character of the text is one space, and a character
    other than white space follows it. *)
Fixpoint single_spaced (s : string) : bool :=
  match s with
  | "" => true
  | String c s' =>
      (if is_space c then Ascii.eqb c " " && starts_word s' else true)
      && single_spaced s'
  end.

(** A word: at least one character, none of them white space. *)
Definition is_word (w : string) : Prop :=
  is_empty w = false /\ no_space w = true.

(** The first line of a list of lines is not an empty line. *)
Definition starts_with_text (lines : list string) : bool :=
  match lines with
  | [] => true
  | line :: _ => negb (is_empty_line line)
  end.

(** [part] occurs in [text]. *)
Definition substring (part text : string) : Prop :=
  exists before after, text = before ++ part ++ after.

(** The text holds two line feeds in a row. *)
Fixpoint has_blank_line (s : string) : bool :=
  match s with
  | "" => false
  | String c s' =>
      (Ascii.eqb c LF && starts_with_char LF s') || has_blank_line s'
  end.

(** The second text is the first with some of its line feeds turned into
    spaces, and nothing else changed. *)
Fixpoint unwrapped (s r : string) : bool :=
  match s, r with
  | "", "" => true
  | String a s', String b r' =>
      (Ascii.eqb a b || (Ascii.eqb a LF && Ascii.eqb b " ")) && unwrapped s' r'
  | _, _ => false
  end.

(** The character does not occur in the text. *)
Fixpoint lacks (c : ascii) (s : string) : bool :=
  match s with
  | "" => true
  | String d s' => negb (Ascii.eqb d c) && lacks c s'
  end.

(** The last character of the text is not white space (and there is one). *)
Fixpoint ends_word (s : string) : bool :=
  match s with
  | "" => false
  | String c "" => negb (is_space c)
  | String _ s' => ends_word s'
  end.

(** An item of a comma-separated list as [split] returns it: not empty, no
    white space around it, no comma in it. *)
Definition is_item (s : string) : Prop :=
  is_empty s = false /\ strip s = s /\ lacks "," s = true.

(** What [format_length] returns once it has selected the unit [u]. *)
Definition render_length (u : unit) (num_metres : number) (keep_width : bool)
  : outcome string :=
  x <- float_of_number num_metres ;;
  y <- num_div (Float x) (divider u) ;;
  number <- round_number y keep_width ;;
  pluralize (CStr number) (singular u) (Some (plural u)).

(** [u] is the largest unit of the table that the number reaches. *)
Definition largest_reached (units : list unit) (x : number) (u : unit) : Prop :=
  In u units
  /\ num_ge x (divider u) = true
  /\ forall v, In v units -> num_ge x (divider v) = true ->
               num_ge (divider u) (divider v) = true.

Definition milli_unit : unit :=
  mk_unit (Some "mm") (float_literal (1 # 1000)) "mm" "mm".

Definition metre_unit : unit := mk_unit (Some "m") (Int 1) "metre" "metres".

Definition kilometre_unit : unit := mk_unit (Some "km") (Int 1000) "km" "km".

(** [format_length] on the integer [i], from 1 to 999 metres, checked by
    evaluation. *)
Definition metres_ok (i : nat) : bool :=
  let n := Z.of_nat (S i) in
  match format_length n false with
  | Ok s => String.eqb s (str_of_int n ++ " "
                          ++ (if n =? 1 then "metre" else "metres"))
  | Raise _ => false
  end.




(** The text does not go on with a digit or a decimal point. *)
Definition ends_number (s : string) : bool :=
  match s with
  | "" => true
  | String c _ => negb (is_digit c) && negb (Ascii.eqb c ".")
  end.

(** The seconds that the counts of a decomposition add up to. *)
Fixpoint total_seconds (l : list (Z * unit)) : Z :=
  match l with
  | [] => 0
  | cu :: rest => fst cu * int_divider (snd cu) + total_seconds rest
  end.

(** What the greedy decomposition leaves after the last unit. *)
Fixpoint remainder (units : list unit) (n : Z) : Z :=
  match units with
  | [] => n
  | u :: rest => remainder rest (n mod int_divider u)
  end.

(** Groups of thousands: one to three characters, then three at a time. *)
Definition grouped (groups : list string) : Prop :=
  match groups with
  | [] => False
  | first :: rest =>
      (1 <= String.length first <= 3)%nat
      /\ Forall (fun g => String.length g = 3%nat) rest
  end.

(** The pieces of [format_number_loop]: three characters each, the last one
    from one to three. *)
Fixpoint chunked (parts : list string) : Prop :=
  match parts with
  | [] => True
  | [p] => (1 <= String.length p <= 3)%nat
  | p :: rest => String.length p = 3%nat /\ chunked rest
  end.

(** The parameters of an escape sequence: digits and semicolons. *)
Fixpoint sgr_parameters (s : string) : bool :=
  match s with
  | "" => true
  | String c s' => (is_digit c || Ascii.eqb c ";") && sgr_parameters s'
  end.

(** No style is asked for: no flag is set, and the color is [None] or
    empty. *)
Definition plain (kw : style) : bool :=
  negb (bold kw) && negb (faint kw) && negb (underline kw)
  && negb (inverse kw) && negb (strike_through kw)
  && match color kw with
     | Some name => is_empty name
     | None => true
     end.

(** The color is a name that is not in [ANSI_COLOR_CODES]. *)
Definition unknown_color (kw : style) : bool :=
  match color kw with
  | Some name =>
      negb (is_empty name)
      && match lookup name ANSI_COLOR_CODES with
         | Some _ => false
         | None => true
         end
  | None => false
  end.

(** The last line of a list of lines is not an empty line. *)
Definition ends_with_text (lines : list string) : bool :=
  match lines with
  | [] => true
  | _ => negb (is_empty_line (last lines ""))
  end.

(** The choice that an answer selects by its number, if it is one. *)
Definition by_number (choices : list string) (input : string) : option string :=
  if isdigit input then choice_at choices (digits_value 0 input - 1) else None.

(** The choice is the input, whatever the case of the letters. *)
Definition same_name (input choice : string) : bool :=
  String.eqb (lower input) (lower choice).

(** The choice holds the input, whatever the case of the letters. *)
Definition holds_name (input choice : string) : bool :=
  contains (lower choice) (lower input).

(** The error that [prompt_for_choice] prints for an answer that selects
    nothing, given the choices that hold it. *)
Definition error_message (input : string) (matches : list string) : string :=
  match matches with
  | _ :: _ => error_ambiguous input matches
  | [] => if isdigit input then error_number input else error_unknown input
  end.

(** * Properties *)

(** ** Strings and characters *)

Lemma append_nil_r (s : string) : s ++ "" = s.
Proof. induction s; simpl; congruence. Qed.

Lemma append_assoc (s1 s2 s3 : string) : (s1 ++ s2) ++ s3 = s1 ++ s2 ++ s3.
Proof. induction s1; simpl; congruence. Qed.

Lemma digit_not_space (c : ascii) : is_digit c = true -> is_space c = false.
Proof.
  destruct c as [[] [] [] [] [] [] [] []]; vm_compute; congruence.
Qed.

Lemma digit_not_dot (c : ascii) : is_digit c = true -> Ascii.eqb c "." = false.
Proof.
  destruct c as [[] [] [] [] [] [] [] []]; vm_compute; congruence.
Qed.

Lemma is_empty_true (s : string) : is_empty s = true -> s = "".
Proof. destruct s; simpl; congruence. Qed.


Lemma all_space_app (s1 s2 : string) :
  all_space (s1 ++ s2) = all_space s1 && all_space s2.
Proof.
  induction s1 as [|c s1 IH]; simpl; [reflexivity|].
  rewrite IH. apply andb_assoc.
Qed.

Lemma isdigit_cons (c : ascii) (s : string) :
  isdigit (String c s) = is_digit c && all_digits s.
Proof. reflexivity. Qed.

Lemma isdigit_all_digits (s : string) : isdigit s = true -> all_digits s = true.
Proof. unfold isdigit. intros H. apply andb_prop in H. tauto. Qed.

Lemma isdigit_nonempty (s : string) : isdigit s = true -> is_empty s = false.
Proof. unfold isdigit. destruct s; simpl; congruence. Qed.

(** ** White space: [lstrip], [rstrip], [strip] *)

Lemma lstrip_split (s : string) :
  exists ws, s = ws ++ lstrip s /\ all_space ws = true.
Proof.
  induction s as [|c s [ws [E A]]]; simpl.
  - exists "". auto.
  - destruct (is_space c) eqn:Hc.
    + exists (String c ws). simpl. rewrite Hc, A.
      split; [f_equal; exact E | reflexivity].
    + exists "". auto.
Qed.

Lemma rstrip_split (s : string) :
  exists ws, s = rstrip s ++ ws /\ all_space ws = true.
Proof.
  induction s as [|c s [ws [E A]]]; simpl.
  - exists "". auto.
  - destruct (is_space c && is_empty (rstrip s)) eqn:Hc.
    + apply andb_prop in Hc. destruct Hc as [Hc He].
      apply is_empty_true in He. rewrite He in E. simpl in E.
      exists (String c ws). simpl. rewrite Hc, A.
      split; [f_equal; exact E | reflexivity].
    + exists ws. simpl. split; [f_equal; exact E | exact A].
Qed.

Lemma strip_split (s : string) :
  exists wl wr, s = wl ++ strip s ++ wr
                /\ all_space wl = true /\ all_space wr = true.
Proof.
  destruct (lstrip_split s) as [wl [El Al]].
  destruct (rstrip_split (lstrip s)) as [wr [Er Ar]].
  exists wl, wr. unfold strip. rewrite <- Er. auto.
Qed.

Lemma no_digit_lstrip (s : string) : no_digit s = true -> no_digit (lstrip s) = true.
Proof.
  induction s as [|c s IH]; simpl; [auto|].
  intros H. destruct (is_space c); [|exact H].
  apply andb_prop in H. tauto.
Qed.

Lemma no_digit_rstrip (s : string) : no_digit s = true -> no_digit (rstrip s) = true.
Proof.
  induction s as [|c s IH]; simpl; [auto|].
  intros H. apply andb_prop in H. destruct H as [Hc Hs].
  destruct (is_space c && is_empty (rstrip s)); simpl; [reflexivity|].
  rewrite Hc, IH; auto.
Qed.

Lemma no_digit_strip (s : string) : no_digit s = true -> no_digit (strip s) = true.
Proof. intros H. apply no_digit_rstrip, no_digit_lstrip, H. Qed.

Lemma rstrip_idem (s : string) : rstrip (rstrip s) = rstrip s.
Proof.
  induction s as [|c s IH]; simpl; [reflexivity|].
  destruct (is_space c && is_empty (rstrip s)) eqn:Hc; simpl; [reflexivity|].
  rewrite IH, Hc. reflexivity.
Qed.

Lemma lstrip_starts_clean (s : string) : starts_clean (lstrip s) = true.
Proof.
  induction s as [|c s IH]; simpl; [reflexivity|].
  destruct (is_space c) eqn:Hc; [exact IH|]. simpl. rewrite Hc. reflexivity.
Qed.

Lemma lstrip_clean (s : string) : starts_clean s = true -> lstrip s = s.
Proof.
  destruct s as [|c s]; simpl; [reflexivity|].
  destruct (is_space c); simpl; congruence.
Qed.

Lemma rstrip_starts_clean (s : string) :
  starts_clean s = true -> starts_clean (rstrip s) = true.
Proof.
  destruct s as [|c s]; simpl; [reflexivity|].
  intros H. apply negb_true_iff in H. rewrite H. simpl. rewrite H. reflexivity.
Qed.

Lemma strip_idem (s : string) : strip (strip s) = strip s.
Proof.
  unfold strip.
  rewrite (lstrip_clean (rstrip (lstrip s))).
  - apply rstrip_idem.
  - apply rstrip_starts_clean, lstrip_starts_clean.
Qed.

Lemma strip_all_space (s : string) : is_empty (strip s) = true -> all_space s = true.
Proof.
  intros H. apply is_empty_true in H.
  destruct (strip_split s) as [wl [wr [E [Al Ar]]]].
  rewrite H in E. simpl in E. rewrite E, all_space_app, Al, Ar. reflexivity.
Qed.

Lemma no_space_app (s1 s2 : string) :
  no_space (s1 ++ s2) = no_space s1 && no_space s2.
Proof.
  induction s1 as [|c s1 IH]; simpl; [reflexivity|].
  rewrite IH. apply andb_assoc.
Qed.

Lemma all_digits_no_space (s : string) : all_digits s = true -> no_space s = true.
Proof.
  induction s as [|c s IH]; simpl; [reflexivity|].
  intros H. apply andb_prop in H. destruct H as [Hc Hs].
  rewrite (digit_not_space c Hc), IH; auto.
Qed.

Lemma rstrip_no_space (s : string) : no_space s = true -> rstrip s = s.
Proof.
  induction s as [|c s IH]; simpl; [reflexivity|].
  intros H. apply andb_prop in H. destruct H as [Hc Hs].
  apply negb_true_iff in Hc. rewrite Hc, IH; auto.
Qed.

Lemma lstrip_no_space (s : string) : no_space s = true -> lstrip s = s.
Proof.
  destruct s as [|c s]; simpl; [reflexivity|].
  intros H. apply andb_prop in H. destruct H as [Hc Hs].
  apply negb_true_iff in Hc. rewrite Hc. reflexivity.
Qed.

Lemma strip_no_space (s : string) : no_space s = true -> strip s = s.
Proof.
  intros H. unfold strip. rewrite (lstrip_no_space s H). apply rstrip_no_space, H.
Qed.

Lemma numeral_no_space (s : string) : numeral s -> no_space s = true.
Proof.
  intros [ds H|ip fp Hi Hf].
  - apply all_digits_no_space, isdigit_all_digits, H.
  - rewrite !no_space_app.
    rewrite (all_digits_no_space ip), (all_digits_no_space fp);
      auto using isdigit_all_digits.
Qed.

(** ** The split at numbers *)

Lemma numeral_tail_cons (c : ascii) (h : string) :
  is_digit c = true -> numeral_tail h -> numeral_tail (String c h).
Proof.
  intros Hc [ds H|ip fp Hi Hf].
  - apply tail_digits. simpl. rewrite Hc, H. reflexivity.
  - apply (tail_point (String c ip) fp); [simpl; rewrite Hc, Hi|]; auto.
Qed.

Lemma numeral_cons (c : ascii) (h : string) :
  is_digit c = true -> numeral_tail h -> numeral (String c h).
Proof.
  intros Hc [ds H|ip fp Hi Hf].
  - apply numeral_int. rewrite isdigit_cons, Hc, H. reflexivity.
  - apply (numeral_float (String c ip) fp); [rewrite isdigit_cons, Hc, Hi|]; auto.
Qed.

Lemma flatten_cons_head (c : ascii) (l : list string) :
  flatten (cons_head c l) = String c (flatten l).
Proof. destruct l; reflexivity. Qed.

(** The split loses nothing: the fragments, put together, are the text. *)
Lemma re_split_from_flatten (s : string) :
  forall st, flatten (re_split_from st s) = s.
Proof.
  induction s as [|c s IH]; intros st.
  - destruct st; reflexivity.
  - destruct st; simpl;
      repeat match goal with
             | |- context [if ?b then _ else _] => destruct b
             end;
      simpl; rewrite ?flatten_cons_head, IH; reflexivity.
Qed.

Lemma fragments_cons_head (c : ascii) (l : list string) :
  is_digit c = false -> fragments_ok l -> fragments_ok (cons_head c l).
Proof.
  intros Hc [sep H|sep num rest H Hn Hr]; simpl.
  - apply fragments_last. simpl. rewrite Hc, H. reflexivity.
  - apply fragments_cons; auto. simpl. rewrite Hc, H. reflexivity.
Qed.

Lemma re_split_from_ok (s : string) :
  fragments_ok (re_split_from InSep s)
  /\ (exists h r, re_split_from InInt s = h :: r
                  /\ numeral_tail h /\ fragments_ok r)
  /\ (exists h r, re_split_from InFrac s = h :: r
                  /\ all_digits h = true
                  /\ (starts_with_digit s = true -> is_empty h = false)
                  /\ fragments_ok r).
Proof.
  induction s as [|c s [IHsep [[hi [ri [Ei [Ti Fi]]]] [hf [rf [Ef [Df [Nf Ff]]]]]]]].
  - simpl. repeat split.
    + apply fragments_last. reflexivity.
    + exists "", [""]. repeat split.
      * apply tail_digits. reflexivity.
      * apply fragments_last. reflexivity.
    + exists "", [""]. repeat split; try discriminate.
      apply fragments_last. reflexivity.
  - simpl. destruct (is_digit c) eqn:Hc.
    + repeat split.
      * rewrite Ei. simpl. apply fragments_cons; auto using numeral_cons.
      * rewrite Ei. simpl. exists (String c hi), ri.
        auto using numeral_tail_cons.
      * rewrite Ef. simpl. exists (String c hf), rf. simpl. rewrite Hc, Df.
        auto.
    + repeat split.
      * apply fragments_cons_head; assumption.
      * destruct (Ascii.eqb c "." && starts_with_digit s) eqn:Hp.
        -- apply andb_prop in Hp. destruct Hp as [Hp Hd].
           apply Ascii.eqb_eq in Hp. subst c.
           rewrite Ef. simpl. exists (String "." hf), rf. repeat split; auto.
           apply (tail_point "" hf); [reflexivity|].
           unfold isdigit. rewrite (Nf Hd), Df. reflexivity.
        -- exists "", (cons_head c (re_split_from InSep s)). repeat split.
           ++ apply tail_digits. reflexivity.
           ++ apply fragments_cons_head; assumption.
      * exists "", (cons_head c (re_split_from InSep s)). repeat split.
        -- intros H. discriminate H.
        -- apply fragments_cons_head; assumption.
Qed.

Lemma re_split_ok (text : string) : fragments_ok (re_split text).
Proof. apply re_split_from_ok. Qed.

(** ** One step of the loop of [tokenize] *)

Lemma span_digits_app (ds r : string) :
  all_digits ds = true ->
  span_digits (ds ++ r) = (ds ++ fst (span_digits r), snd (span_digits r)).
Proof.
  induction ds as [|c ds IH]; simpl; intros H.
  - destruct (span_digits r); reflexivity.
  - apply andb_prop in H. destruct H as [Hc Hd].
    rewrite Hc, (IH Hd). reflexivity.
Qed.

Lemma span_digits_all (ds : string) :
  all_digits ds = true -> span_digits ds = (ds, "").
Proof.
  intros H. rewrite <- (append_nil_r ds) at 1.
  rewrite (span_digits_app ds "" H). simpl. rewrite append_nil_r. reflexivity.
Qed.

Lemma span_digits_point (ip fp : string) :
  all_digits ip = true -> span_digits (ip ++ "." ++ fp) = (ip, "." ++ fp).
Proof.
  intros H. rewrite (span_digits_app ip _ H). simpl.
  rewrite append_nil_r. reflexivity.
Qed.

Lemma no_digit_not_number (s : string) :
  no_digit s = true -> re_match_float s = false /\ isdigit s = false.
Proof.
  destruct s as [|c s]; simpl; intros H; [split; reflexivity|].
  apply andb_prop in H. destruct H as [Hc _]. apply negb_true_iff in Hc.
  unfold re_match_float, isdigit. simpl. rewrite Hc. split; reflexivity.
Qed.

Lemma isdigit_not_float (ds : string) :
  isdigit ds = true -> re_match_float ds = false.
Proof.
  intros H. unfold re_match_float.
  rewrite (span_digits_all ds (isdigit_all_digits ds H)).
  apply andb_false_r.
Qed.

Lemma starts_with_digit_isdigit (s : string) :
  isdigit s = true -> starts_with_digit s = true.
Proof.
  destruct s as [|c s]; [discriminate|].
  rewrite isdigit_cons. intros H. apply andb_prop in H. simpl. tauto.
Qed.

Lemma point_is_float (ip fp : string) :
  isdigit ip = true -> isdigit fp = true ->
  re_match_float (ip ++ "." ++ fp) = true.
Proof.
  intros Hi Hf. unfold re_match_float.
  rewrite (span_digits_point ip fp (isdigit_all_digits ip Hi)).
  rewrite (isdigit_nonempty ip Hi). simpl.
  apply starts_with_digit_isdigit, Hf.
Qed.

Lemma float_of_str_digit (c : ascii) (s : string) :
  is_digit c = true ->
  float_of_str (String c s) = float_of_unsigned (String c s).
Proof.
  destruct c as [[] [] [] [] [] [] [] []]; intros H;
    solve [discriminate H | reflexivity].
Qed.

Lemma digit_not_word (c : ascii) (s w : string) :
  is_digit c = true -> no_digit w = true -> String.eqb (String c s) w = false.
Proof.
  intros Hc Hw. destruct w as [|d w]; [reflexivity|].
  simpl. destruct (Ascii.eqb_spec c d) as [->|]; [|reflexivity].
  simpl in Hw. rewrite Hc in Hw. discriminate Hw.
Qed.

Lemma float_of_str_point (ip fp : string) :
  isdigit ip = true -> isdigit fp = true ->
  float_of_str (ip ++ "." ++ fp)
  = Ok (Float.binary64 (decimal_value ip fp)).
Proof.
  intros Hi Hf. destruct ip as [|c ip]; [discriminate|].
  rewrite isdigit_cons in Hi. apply andb_prop in Hi. destruct Hi as [Hc Hi].
  change (String c ip ++ "." ++ fp) with (String c (ip ++ "." ++ fp)).
  rewrite (float_of_str_digit c _ Hc). unfold float_of_unsigned.
  rewrite !(digit_not_word c _ _ Hc) by reflexivity.
  change (String c (ip ++ "." ++ fp)) with (String c ip ++ "." ++ fp).
  rewrite span_digits_point by (simpl; rewrite Hc, Hi; reflexivity).
  simpl. rewrite (isdigit_all_digits fp Hf). reflexivity.
Qed.

Lemma tokenize_loop_sep (sep : string) (rest : list string) (acc : list token) :
  no_digit sep = true ->
  tokenize_loop (sep :: rest) acc
  = tokenize_loop rest
      (if is_empty (strip sep) then acc else (acc ++ [TStr (strip sep)])%list).
Proof.
  intros H. simpl.
  destruct (no_digit_not_number (strip sep) (no_digit_strip sep H)) as [-> ->].
  destruct (is_empty (strip sep)); reflexivity.
Qed.

Lemma tokenize_loop_int (ds : string) (rest : list string) (acc : list token) :
  isdigit ds = true ->
  tokenize_loop (ds :: rest) acc
  = tokenize_loop rest (acc ++ [TNum (Int (digits_value 0 ds))])%list.
Proof.
  intros H. simpl.
  rewrite (strip_no_space ds)
    by (apply all_digits_no_space, isdigit_all_digits, H).
  rewrite (isdigit_not_float ds H), H. unfold int_of_str. rewrite H.
  reflexivity.
Qed.

Lemma tokenize_loop_float (ip fp : string) (rest : list string) (acc : list token) :
  isdigit ip = true -> isdigit fp = true ->
  tokenize_loop ((ip ++ "." ++ fp) :: rest) acc
  = tokenize_loop rest
      (acc ++ [TNum (Float (Float.binary64 (decimal_value ip fp)))])%list.
Proof.
  intros Hi Hf. cbn [tokenize_loop].
  rewrite (strip_no_space (ip ++ "." ++ fp))
    by (apply numeral_no_space, numeral_float; assumption).
  rewrite (point_is_float ip fp Hi Hf), (float_of_str_point ip fp Hi Hf).
  reflexivity.
Qed.

Lemma tokenize_loop_acc (fragments : list string) :
  forall acc,
    tokenize_loop fragments acc
    = (ts <- tokenize_loop fragments [] ;; Ok (acc ++ ts)%list).
Proof.
  induction fragments as [|f rest IH]; intros acc.
  - simpl. rewrite app_nil_r. reflexivity.
  - simpl.
    destruct (re_match_float (strip f)).
    + destruct (float_of_str (strip f)) as [x|e]; simpl; [|reflexivity].
      rewrite (IH (acc ++ _)%list), (IH [_]).
      destruct (tokenize_loop rest []); simpl; [|reflexivity].
      rewrite <- app_assoc. reflexivity.
    + destruct (isdigit (strip f)).
      * destruct (int_of_str (strip f)) as [n|e]; simpl; [|reflexivity].
        rewrite (IH (acc ++ _)%list), (IH [_]).
        destruct (tokenize_loop rest []); simpl; [|reflexivity].
        rewrite <- app_assoc. reflexivity.
      * destruct (negb (is_empty (strip f))); [|apply IH].
        rewrite (IH (acc ++ _)%list), (IH [_]).
        destruct (tokenize_loop rest []); simpl; [|reflexivity].
        rewrite <- app_assoc. reflexivity.
Qed.

Lemma reads_numeral (num : string) :
  numeral num ->
  exists t, reads num t
            /\ forall rest acc,
                 tokenize_loop (num :: rest) acc
                 = tokenize_loop rest (acc ++ [t])%list.
Proof.
  intros [ds H|ip fp Hi Hf].
  - eexists. split; [apply reads_int, H|].
    intros. apply tokenize_loop_int, H.
  - eexists. split; [apply reads_float; assumption|].
    intros. apply tokenize_loop_float; assumption.
Qed.

Lemma lexes_sep (sep rest : string) (ts : list token) :
  no_digit sep = true -> lexes rest ts ->
  lexes (sep ++ rest)
        (if is_empty (strip sep) then ts else TStr (strip sep) :: ts).
Proof.
  intros H L. destruct (is_empty (strip sep)) eqn:He.
  - apply strip_all_space in He.
    inversion L as [ws A|ws src t rest' ts' A R L']; subst.
    + apply lexes_nil. rewrite all_space_app, He, A. reflexivity.
    + rewrite <- append_assoc. apply lexes_cons; auto.
      rewrite all_space_app, He, A. reflexivity.
  - destruct (strip_split sep) as [wl [wr [E [Al Ar]]]].
    rewrite E at 1. rewrite !append_assoc.
    apply lexes_cons; [exact Al| |].
    + apply reads_str; auto using strip_idem, no_digit_strip.
    + inversion L as [ws A|ws src t rest' ts' A R L']; subst.
      * apply lexes_nil. rewrite all_space_app, Ar, A. reflexivity.
      * rewrite <- append_assoc. apply lexes_cons; auto.
        rewrite all_space_app, Ar, A. reflexivity.
Qed.

Lemma tokenize_loop_ok (fragments : list string) :
  fragments_ok fragments ->
  exists ts, tokenize_loop fragments [] = Ok ts /\ lexes (flatten fragments) ts.
Proof.
  induction 1 as [sep H|sep num rest H Hn Hr [ts [E L]]].
  - rewrite (tokenize_loop_sep sep [] [] H). simpl.
    eexists. split; [reflexivity|].
    apply (lexes_sep sep "" [] H). apply lexes_nil. reflexivity.
  - destruct (reads_numeral num Hn) as [t [R Step]].
    rewrite (tokenize_loop_sep sep _ [] H), Step, tokenize_loop_acc, E.
    simpl. eexists. split; [reflexivity|].
    assert (Lr : lexes (num ++ flatten rest) (t :: ts))
      by (apply (lexes_cons "" num t); auto).
    pose proof (lexes_sep sep _ _ H Lr) as Ls.
    destruct (is_empty (strip sep)); exact Ls.
Qed.

(** [tokenize] never fails, and its tokens are the text without the white
    space around them. *)
Lemma tokenize_lexes (text : string) :
  exists tokens, tokenize text = Ok tokens /\ lexes text tokens.
Proof.
  destruct (tokenize_loop_ok (re_split text) (re_split_ok text)) as [ts [E L]].
  exists ts. split; [exact E|].
  unfold re_split in L. rewrite re_split_from_flatten in L. exact L.
Qed.

(** ** Rounding to binary64 *)

Module FloatFacts.

Import Float.
#[local] Open Scope Q_scope.

Lemma Qltb_lt (a b : Q) : Qltb a b = true <-> a < b.
Proof.
  unfold Qltb. rewrite negb_true_iff. split.
  - intros H. apply Qnot_le_lt. intros L. apply Qle_bool_iff in L. congruence.
  - intros H. destruct (Qle_bool b a) eqn:E; [|reflexivity].
    apply Qle_bool_iff in E. exfalso. exact (Qlt_not_le _ _ H E).
Qed.

Lemma Qltb_ge (a b : Q) : Qltb a b = false <-> b <= a.
Proof.
  unfold Qltb. rewrite negb_false_iff. apply Qle_bool_iff.
Qed.

Lemma Qle_bool_false (a b : Q) : Qle_bool a b = false <-> b < a.
Proof.
  rewrite <- Qltb_lt. unfold Qltb. rewrite negb_true_iff. reflexivity.
Qed.

Lemma round_half_even_spec (q : Q) :
  q - (1 # 2) <= inject_Z (round_half_even q)
  /\ inject_Z (round_half_even q) <= q + (1 # 2).
Proof.
  unfold round_half_even.
  pose proof (Qfloor_le q) as Hl. pose proof (Qlt_floor q) as Hu.
  rewrite inject_Z_plus in Hu. change (inject_Z 1) with 1 in Hu.
  destruct (Qcompare_spec (q - inject_Z (Qfloor q)) (1 # 2)) as [E|L|G];
    [destruct (Z.even (Qfloor q))|..];
    rewrite ?inject_Z_plus; change (inject_Z 1) with 1; lra.
Qed.

Lemma round_half_even_Z (z : Z) : round_half_even (inject_Z z) = z.
Proof.
  unfold round_half_even. rewrite Qfloor_Z.
  destruct (Qcompare_spec (inject_Z z - inject_Z z) (1 # 2)) as [E|L|G];
    [exfalso; lra|reflexivity|exfalso; lra].
Qed.

#[export] Instance round_half_even_comp : Proper (Qeq ==> eq) round_half_even.
Proof.
  intros q q' E. unfold round_half_even.
  rewrite (Qfloor_comp q q' E). 
  assert (E' : q - inject_Z (Qfloor q') == q' - inject_Z (Qfloor q'))
    by (rewrite E; reflexivity).
  rewrite (Qcompare_comp _ _ E' _ _ (Qeq_refl (1 # 2))). reflexivity.
Qed.

Lemma round_half_even_nonneg (q : Q) : 0 <= q -> (0 <= round_half_even q)%Z.
Proof.
  intros H. destruct (round_half_even_spec q) as [L _].
  assert (B : inject_Z (-1) < inject_Z (round_half_even q))
    by (change (inject_Z (-1)) with (-1); lra).
  rewrite <- Zlt_Qlt in B. lia.
Qed.

(** Powers of two. *)

Lemma pow2_pos (e : Z) : 0 < 2 ^ e.
Proof. apply Qpower_0_lt. reflexivity. Qed.

Lemma pow2_nonzero (e : Z) : ~ 2 ^ e == 0.
Proof. pose proof (pow2_pos e). lra. Qed.

Lemma pow2_plus (a b : Z) : 2 ^ (a + b) == 2 ^ a * 2 ^ b.
Proof. apply Qpower_plus. discriminate. Qed.

Lemma pow2_minus (a b : Z) : 2 ^ (a - b) == 2 ^ a / 2 ^ b.
Proof. apply Qpower_minus. discriminate. Qed.

Lemma pow2_le (a b : Z) : (a <= b)%Z -> 2 ^ a <= 2 ^ b.
Proof. intros H. apply Qpower_le_compat_l; [exact H|]. discriminate. Qed.

Lemma pow2_lt_inv (a b : Z) : 2 ^ a < 2 ^ b -> (a < b)%Z.
Proof. intros H. apply (Qpower_lt_compat_l_inv 2); [exact H|]. reflexivity. Qed.

Lemma pow2_Z (n : Z) : (0 <= n)%Z -> inject_Z (2 ^ n) == 2 ^ n.
Proof. intros H. apply (Zpower_Qpower 2 n H). Qed.

Lemma pow2_succ (a : Z) : 2 ^ (a + 1) == 2 * 2 ^ a.
Proof. rewrite pow2_plus. change (2 ^ 1) with 2. ring. Qed.

(** The binary logarithm of a positive rational. *)

Lemma ilog2_spec (q : Q) :
  0 < q -> 2 ^ ilog2 q <= q /\ q < 2 ^ (ilog2 q + 1).
Proof.
  intros Hq. destruct q as [a b].
  assert (Ha : (0 < a)%Z) by (unfold Qlt in Hq; simpl in Hq; lia).
  unfold ilog2. cbn [Qnum Qden].
  set (la := Z.log2 a). set (lb := Z.log2 (Zpos b)).
  destruct (Z.log2_spec a Ha) as [A1 A2]. fold la in A1, A2.
  destruct (Z.log2_spec (Zpos b) (Pos2Z.is_pos b)) as [B1 B2].
  fold lb in B1, B2.
  assert (Hla : (0 <= la)%Z) by apply Z.log2_nonneg.
  assert (Hlb : (0 <= lb)%Z) by apply Z.log2_nonneg.
  rewrite Zle_Qle, pow2_Z in A1, B1 by assumption.
  rewrite Zlt_Qlt in A2, B2.
  replace (Z.succ la) with (la + 1)%Z in A2 by lia.
  replace (Z.succ lb) with (lb + 1)%Z in B2 by lia.
  rewrite pow2_Z, pow2_succ in A2, B2 by lia.
  pose proof (pow2_pos la) as Pa. pose proof (pow2_pos lb) as Pb.
  assert (Hb : 0 < inject_Z (Zpos b)) by reflexivity.
  assert (Eq : a # b == inject_Z a / inject_Z (Zpos b)) by apply Qmake_Qdiv.
  assert (Lo : 2 ^ (la - lb - 1) <= a # b).
  { rewrite Eq. apply Qle_shift_div_l; [exact Hb|].
    assert (E1 : 2 ^ (la - lb - 1) * (2 * 2 ^ lb) == 2 ^ la).
    { rewrite <- pow2_succ, <- pow2_plus.
      replace (la - lb - 1 + (lb + 1))%Z with la by lia. reflexivity. }
    pose proof (pow2_pos (la - lb - 1)). nra. }
  assert (Hi : a # b < 2 ^ (la - lb + 1)).
  { rewrite Eq. apply Qlt_shift_div_r; [exact Hb|].
    assert (E1 : 2 ^ (la - lb + 1) * 2 ^ lb == 2 * 2 ^ la).
    { rewrite <- pow2_succ, <- pow2_plus.
      replace (la - lb + 1 + lb)%Z with (la + 1)%Z by lia. reflexivity. }
    pose proof (pow2_pos (la - lb + 1)). nra. }
  destruct (Qle_bool (2 ^ (la - lb)) (a # b)) eqn:T.
  - apply Qle_bool_iff in T. split; assumption.
  - apply Qle_bool_false in T.
    replace (la - lb - 1 + 1)%Z with (la - lb)%Z by lia.
    split; assumption.
Qed.

Lemma ilog2_unique (q : Q) (e : Z) :
  2 ^ e <= q -> q < 2 ^ (e + 1) -> ilog2 q = e.
Proof.
  intros L U.
  assert (Hq : 0 < q) by (pose proof (pow2_pos e); lra).
  destruct (ilog2_spec q Hq) as [L' U'].
  assert (H1 : 2 ^ e < 2 ^ (ilog2 q + 1)) by lra.
  assert (H2 : 2 ^ ilog2 q < 2 ^ (e + 1)) by lra.
  apply pow2_lt_inv in H1, H2. lia.
Qed.

Lemma ilog2_upper (q : Q) (b : Z) : 0 < q -> q < 2 ^ (b + 1) -> (ilog2 q <= b)%Z.
Proof.
  intros Hq U. destruct (ilog2_spec q Hq) as [L _].
  assert (H : 2 ^ ilog2 q < 2 ^ (b + 1)) by lra.
  apply pow2_lt_inv in H. lia.
Qed.

(** [binary64] on a positive rational: the nearest multiple of the unit in
    the last place, unless it overflows. *)

Lemma ulp_exp_pos (q : Q) :
  0 < q -> ulp_exp q = Z.max (ilog2 q - 52) (-1074).
Proof.
  intros Hq. destruct q as [a b].
  assert (Ha : (0 < a)%Z) by (unfold Qlt in Hq; simpl in Hq; lia).
  destruct a; try lia. reflexivity.
Qed.

Lemma binary64_pos (q : Q) :
  0 < q ->
  binary64 q
  = let r := inject_Z (round_half_even (q / 2 ^ ulp_exp q)) * 2 ^ ulp_exp q in
    if Qle_bool (2 ^ 1024) r then PInf else Fin (Qred r).
Proof.
  intros Hq. unfold binary64.
  rewrite (proj1 (Qgt_alt q 0) Hq).
  assert (E : Qabs q / 2 ^ ulp_exp q == q / 2 ^ ulp_exp q)
    by (rewrite (Qabs_pos q) by lra; reflexivity).
  rewrite (round_half_even_comp _ _ E). reflexivity.
Qed.

Lemma binary64_neg (q : Q) :
  q < 0 ->
  binary64 q
  = let r := inject_Z (round_half_even (- q / 2 ^ ulp_exp q)) * 2 ^ ulp_exp q in
    if Qle_bool (2 ^ 1024) r then NInf else Fin (Qred (- r)).
Proof.
  intros Hq. unfold binary64.
  rewrite (proj1 (Qlt_alt q 0) Hq).
  assert (E : Qabs q / 2 ^ ulp_exp q == - q / 2 ^ ulp_exp q)
    by (rewrite (Qabs_neg q) by lra; reflexivity).
  rewrite (round_half_even_comp _ _ E). reflexivity.
Qed.

Lemma ulp_exp_opp (q : Q) : ulp_exp (- q) = ulp_exp q.
Proof.
  destruct q as [a b]. unfold ulp_exp, Qabs, Qopp. cbn [Qnum Qden].
  rewrite Z.abs_opp. reflexivity.
Qed.

Lemma binary64_zero (q : Q) : q == 0 -> binary64 q = Fin 0.
Proof.
  intros E. unfold binary64. rewrite (proj1 (Qeq_alt q 0) E). reflexivity.
Qed.

Lemma ilog2_comp (q q' : Q) : 0 < q -> q == q' -> ilog2 q = ilog2 q'.
Proof.
  intros Hq E. destruct (ilog2_spec q Hq) as [L U].
  symmetry. apply ilog2_unique; rewrite <- E; assumption.
Qed.

Lemma ulp_exp_comp (q q' : Q) : ~ q == 0 -> q == q' -> ulp_exp q = ulp_exp q'.
Proof.
  intros Hq E. unfold ulp_exp. f_equal. f_equal.
  apply ilog2_comp; [|rewrite E; reflexivity].
  apply Qabs_case; intros; lra.
Qed.

(** [binary64] does not depend on how the rational is written. *)
#[export] Instance binary64_comp : Proper (Qeq ==> eq) binary64.
Proof.
  intros q q' E.
  destruct (Qcompare_spec q 0) as [Z0|N|P].
  - rewrite !binary64_zero; [reflexivity|rewrite <- E|]; exact Z0.
  - rewrite (binary64_neg q N), (binary64_neg q') by (rewrite <- E; exact N).
    cbv zeta. rewrite <- (ulp_exp_comp q q') by (try exact E; lra).
    generalize (ulp_exp q). intros u.
    assert (A : - q / 2 ^ u == - q' / 2 ^ u) by (rewrite E; reflexivity).
    rewrite (round_half_even_comp _ _ A). reflexivity.
  - rewrite (binary64_pos q P), (binary64_pos q') by (rewrite <- E; exact P).
    cbv zeta. rewrite <- (ulp_exp_comp q q') by (try exact E; lra).
    generalize (ulp_exp q). intros u.
    assert (A : q / 2 ^ u == q' / 2 ^ u) by (rewrite E; reflexivity).
    rewrite (round_half_even_comp _ _ A). reflexivity.
Qed.

(** A number of at most 53 bits above [2 ^ -1074] is a binary64 number:
    rounding leaves it as it is. *)
Lemma binary64_exact_pos (m e : Z) :
  (0 < m < 2 ^ 53)%Z -> (-1074 <= e)%Z -> inject_Z m * 2 ^ e < 2 ^ 1024 ->
  binary64 (inject_Z m * 2 ^ e) = Fin (Qred (inject_Z m * 2 ^ e)).
Proof.
  intros Hm He Hr. set (q := inject_Z m * 2 ^ e).
  assert (Hm0 : 0 < inject_Z m)
    by (change 0 with (inject_Z 0); rewrite <- Zlt_Qlt; lia).
  assert (Hm1 : inject_Z m < 2 ^ 53).
  { rewrite <- (pow2_Z 53) by lia. rewrite <- Zlt_Qlt. lia. }
  pose proof (pow2_pos e) as Pe.
  assert (Hq : 0 < q) by (unfold q; nra).
  assert (Hlog : (ilog2 q <= 52 + e)%Z).
  { apply ilog2_upper; [exact Hq|].
    replace (52 + e + 1)%Z with (53 + e)%Z by lia.
    rewrite pow2_plus. unfold q. nra. }
  rewrite (binary64_pos q Hq). cbv zeta.
  rewrite (ulp_exp_pos q Hq). set (u := Z.max (ilog2 q - 52) (-1074)).
  assert (Hu : (u <= e)%Z) by (unfold u; lia).
  assert (E : q / 2 ^ u == inject_Z (m * 2 ^ (e - u))).
  { rewrite inject_Z_mult, pow2_Z by lia. rewrite pow2_minus.
    unfold q. field. apply pow2_nonzero. }
  rewrite (round_half_even_comp _ _ E), round_half_even_Z.
  assert (R : inject_Z (m * 2 ^ (e - u)) * 2 ^ u == q).
  { rewrite <- E. field. apply pow2_nonzero. }
  rewrite (Qleb_comp _ _ (Qeq_refl (2 ^ 1024)) _ _ R).
  rewrite (proj2 (Qle_bool_false (2 ^ 1024) q) Hr).
  f_equal. apply Qred_complete, R.
Qed.

Lemma binary64_opp (q : Q) :
  0 < q ->
  binary64 (- q) = match binary64 q with
                   | Fin r => Fin (Qred (- r))
                   | PInf => NInf
                   | other => other
                   end.
Proof.
  intros Hq. rewrite (binary64_pos q Hq), (binary64_neg (- q)) by lra.
  cbv zeta. rewrite ulp_exp_opp.
  assert (E : - - q / 2 ^ ulp_exp q == q / 2 ^ ulp_exp q)
    by (field; apply pow2_nonzero).
  rewrite (round_half_even_comp _ _ E).
  destruct (Qle_bool (2 ^ 1024) _); [reflexivity|].
  f_equal. apply Qred_complete. rewrite Qred_correct. reflexivity.
Qed.

Lemma binary64_exact (m e : Z) :
  (Z.abs m < 2 ^ 53)%Z -> (-1074 <= e)%Z ->
  inject_Z (Z.abs m) * 2 ^ e < 2 ^ 1024 ->
  binary64 (inject_Z m * 2 ^ e) = Fin (Qred (inject_Z m * 2 ^ e)).
Proof.
  intros Hm He Hr. destruct (Z.lt_trichotomy m 0) as [N|[Z0|P]].
  - assert (E : inject_Z m * 2 ^ e == - (inject_Z (- m) * 2 ^ e))
      by (rewrite inject_Z_opp; ring).
    assert (Pq : 0 < inject_Z (- m) * 2 ^ e).
    { pose proof (pow2_pos e).
      assert (0 < inject_Z (- m))
        by (change 0 with (inject_Z 0); rewrite <- Zlt_Qlt; lia).
      nra. }
    rewrite (binary64_comp _ _ E), (binary64_opp _ Pq).
    replace (Z.abs m) with (- m)%Z in Hm, Hr by lia.
    rewrite binary64_exact_pos by (try lia; exact Hr).
    f_equal. apply Qred_complete. rewrite Qred_correct, E. reflexivity.
  - subst m. rewrite binary64_zero by ring.
    f_equal.
  - replace (Z.abs m) with m in Hm, Hr by lia.
    apply binary64_exact_pos; [lia|exact He|exact Hr].
Qed.

(** Known values: the float nearest to one tenth; a tie goes to the even
    mantissa; the largest integer that does not overflow. *)
Example binary64_tenth :
  binary64 (1 # 10) = Fin (3602879701896397 # 36028797018963968).
Proof. vm_compute. reflexivity. Qed.

Example binary64_tie :
  binary64 (inject_Z (2 ^ 53 + 1)) = Fin (inject_Z (2 ^ 53))
  /\ binary64 (inject_Z (2 ^ 53 + 3)) = Fin (inject_Z (2 ^ 53 + 4)).
Proof. split; vm_compute; reflexivity. Qed.

Example binary64_overflow :
  binary64 (inject_Z (2 ^ 1024 - 2 ^ 970)) = PInf
  /\ binary64 (inject_Z (2 ^ 1024 - 2 ^ 970 - 1))
     = Fin (inject_Z (2 ^ 1024 - 2 ^ 971)).
Proof. split; vm_compute; reflexivity. Qed.

(** In particular integers below [2 ^ 53] convert exactly. *)
Lemma binary64_int (n : Z) :
  (Z.abs n < 2 ^ 53)%Z -> binary64 (inject_Z n) = Fin (inject_Z n).
Proof.
  intros Hn.
  assert (E : inject_Z n == inject_Z n * 2 ^ 0)
    by (change (2 ^ 0) with 1; ring).
  rewrite (binary64_comp _ _ E), binary64_exact; try lia.
  - f_equal. transitivity (Qred (inject_Z n)).
    + apply Qred_complete. symmetry. exact E.
    + apply Qcanon.Qred_identity. simpl. apply Z.gcd_1_r.
  - change (2 ^ 0) with 1.
    assert (inject_Z (Z.abs n) < inject_Z (2 ^ 53))
      by (rewrite <- Zlt_Qlt; lia).
    assert (inject_Z (2 ^ 53) < 2 ^ 1024) by reflexivity. lra.
Qed.


(** The rounding error: half a unit in the last place.  For [q] below
    [2 ^ (b + 1)] the unit is at most [2 ^ (b - 52)]. *)
Lemma binary64_error (q : Q) (b : Z) :
  0 < q -> q < 2 ^ (b + 1) -> (-1022 <= b < 1023)%Z ->
  exists w, binary64 q = Fin w
            /\ 0 <= w /\ q - 2 ^ (b - 53) <= w /\ w <= q + 2 ^ (b - 53).
Proof.
  intros Hq Hb Rb.
  rewrite (binary64_pos q Hq). cbv zeta.
  rewrite (ulp_exp_pos q Hq). set (u := Z.max (ilog2 q - 52) (-1074)).
  assert (Hu : (u <= b - 52)%Z).
  { pose proof (ilog2_upper q b Hq Hb). unfold u. lia. }
  set (m := round_half_even (q / 2 ^ u)).
  destruct (round_half_even_spec (q / 2 ^ u)) as [L U]. fold m in L, U.
  pose proof (pow2_pos u) as Pu.
  assert (Eq : q == q / 2 ^ u * 2 ^ u) by (field; apply pow2_nonzero).
  assert (Pb : 2 ^ u <= 2 * 2 ^ (b - 53)).
  { rewrite <- pow2_succ. apply pow2_le. lia. }
  assert (M0 : 0 <= inject_Z m).
  { change 0 with (inject_Z 0). rewrite <- Zle_Qle.
    apply round_half_even_nonneg.
    apply Qle_shift_div_l; [exact Pu|lra]. }
  assert (Lo : q - 2 ^ (b - 53) <= inject_Z m * 2 ^ u) by nra.
  assert (Hi : inject_Z m * 2 ^ u <= q + 2 ^ (b - 53)) by nra.
  assert (Fi : inject_Z m * 2 ^ u < 2 ^ 1024).
  { assert (2 ^ (b + 1) <= 2 ^ 1023) by (apply pow2_le; lia).
    assert (2 ^ (b - 53) <= 2 ^ 1023) by (apply pow2_le; lia).
    assert (2 ^ 1024 == 2 * 2 ^ 1023) by reflexivity. lra. }
  rewrite (proj2 (Qle_bool_false _ _) Fi).
  eexists. split; [reflexivity|]. rewrite Qred_correct.
  repeat split; try assumption. nra.
Qed.

(** The same with the mantissa and the exponent of the result. *)
Lemma binary64_repr (q : Q) (b : Z) :
  0 < q -> q < 2 ^ (b + 1) -> (-1022 <= b < 1023)%Z ->
  exists m e,
    binary64 q = Fin (Qred (inject_Z m * 2 ^ e))
    /\ (0 <= m <= 2 ^ 53)%Z /\ (-1074 <= e <= b - 52)%Z
    /\ q - 2 ^ (b - 53) <= inject_Z m * 2 ^ e
    /\ inject_Z m * 2 ^ e <= q + 2 ^ (b - 53).
Proof.
  intros Hq Hb Rb.
  rewrite (binary64_pos q Hq). cbv zeta.
  rewrite (ulp_exp_pos q Hq). set (u := Z.max (ilog2 q - 52) (-1074)).
  assert (Hu : (-1074 <= u <= b - 52)%Z).
  { pose proof (ilog2_upper q b Hq Hb). unfold u. lia. }
  set (m := round_half_even (q / 2 ^ u)).
  destruct (round_half_even_spec (q / 2 ^ u)) as [L U]. fold m in L, U.
  pose proof (pow2_pos u) as Pu.
  assert (Eq : q == q / 2 ^ u * 2 ^ u) by (field; apply pow2_nonzero).
  assert (Pb : 2 ^ u <= 2 * 2 ^ (b - 53)).
  { rewrite <- pow2_succ. apply pow2_le. lia. }
  assert (M0 : (0 <= m)%Z).
  { apply round_half_even_nonneg.
    apply Qle_shift_div_l; [exact Pu|lra]. }
  assert (M1 : (m <= 2 ^ 53)%Z).
  { destruct (ilog2_spec q Hq) as [_ IU].
    assert (Q53 : q < 2 ^ (u + 53)).
    { apply (Qlt_le_trans _ _ _ IU). apply pow2_le. unfold u. lia. }
    rewrite pow2_plus in Q53.
    assert (X : q / 2 ^ u < 2 ^ 53).
    { apply Qlt_shift_div_r; [exact Pu|]. lra. }
    assert (A : inject_Z m < inject_Z (2 ^ 53 + 1)).
    { rewrite inject_Z_plus, pow2_Z by lia. change (inject_Z 1) with 1. lra. }
    rewrite <- Zlt_Qlt in A. lia. }
  assert (Lo : q - 2 ^ (b - 53) <= inject_Z m * 2 ^ u) by nra.
  assert (Hi : inject_Z m * 2 ^ u <= q + 2 ^ (b - 53)) by nra.
  assert (Fi : inject_Z m * 2 ^ u < 2 ^ 1024).
  { assert (2 ^ (b + 1) <= 2 ^ 1023) by (apply pow2_le; lia).
    assert (2 ^ (b - 53) <= 2 ^ 1023) by (apply pow2_le; lia).
    assert (2 ^ 1024 == 2 * 2 ^ 1023) by reflexivity. lra. }
  rewrite (proj2 (Qle_bool_false _ _) Fi).
  exists m, u. repeat split; try assumption; lia.
Qed.

(** A mantissa of exactly [2 ^ 53] is the next power of two. *)
Lemma binary64_exact_le (m e : Z) :
  (0 <= m <= 2 ^ 53)%Z -> (-1074 <= e)%Z -> inject_Z m * 2 ^ e < 2 ^ 1024 ->
  binary64 (inject_Z m * 2 ^ e) = Fin (Qred (inject_Z m * 2 ^ e)).
Proof.
  intros Hm He Hr. destruct (Z.eq_dec m (2 ^ 53)) as [->|Hn].
  - assert (E : inject_Z (2 ^ 53) * 2 ^ e == inject_Z (2 ^ 52) * 2 ^ (e + 1)).
    { rewrite pow2_succ. change (inject_Z (2 ^ 53)) with (2 * inject_Z (2 ^ 52)).
      ring. }
    rewrite (binary64_comp _ _ E), binary64_exact.
    + f_equal. apply Qred_complete. symmetry. exact E.
    + reflexivity.
    + lia.
    + change (Z.abs (2 ^ 52)) with (2 ^ 52)%Z. rewrite <- E. exact Hr.
  - apply binary64_exact; [lia|exact He|].
    rewrite Z.abs_eq by lia. exact Hr.
Qed.

Lemma binary64_finite (q : Q) :
  0 <= q -> q < 2 ^ 1023 -> exists w, binary64 q = Fin w /\ 0 <= w.
Proof.
  intros H0 H1. destruct (Qcompare_spec q 0) as [Z0|N|P]; [|lra|].
  - rewrite (binary64_zero q Z0). exists 0. split; [reflexivity|lra].
  - destruct (binary64_error q 1022 P H1 ltac:(lia)) as [w [E [W _]]].
    exists w. auto.
Qed.

Lemma Qfloor_unique (r : Q) (f : Z) :
  inject_Z f <= r -> r < inject_Z f + 1 -> Qfloor r = f.
Proof.
  intros L U. pose proof (Qfloor_le r) as Fl. pose proof (Qlt_floor r) as Fu.
  rewrite inject_Z_plus in Fu. change (inject_Z 1) with 1 in Fu.
  assert (A : inject_Z (Qfloor r) < inject_Z (f + 1))
    by (rewrite inject_Z_plus; change (inject_Z 1) with 1; lra).
  assert (B : inject_Z f < inject_Z (Qfloor r + 1))
    by (rewrite inject_Z_plus; change (inject_Z 1) with 1; lra).
  rewrite <- Zlt_Qlt in A, B. lia.
Qed.

(** The true quotient of two integers below [2 ^ 53], rounded, still has
    the integer part of the exact quotient. *)
Lemma int_true_div_floor (n d : Z) :
  (0 <= n < 2 ^ 53)%Z -> (0 < d < 2 ^ 53)%Z ->
  exists w, int_true_div n d = Ok (Fin w)
            /\ 0 <= w /\ Qfloor w = (n / d)%Z.
Proof.
  intros Hn Hd. unfold int_true_div.
  set (q := inject_Z n / inject_Z d).
  assert (D0 : 0 < inject_Z d)
    by (change 0 with (inject_Z 0); rewrite <- Zlt_Qlt; lia).
  destruct (Z.eq_dec n 0) as [->|Hz].
  - rewrite binary64_zero by (unfold q; field; lra).
    exists 0. rewrite Z.div_0_l by lia. repeat split. lra.
  - assert (N0 : 1 <= inject_Z n)
      by (change 1 with (inject_Z 1); rewrite <- Zle_Qle; lia).
    assert (N1 : inject_Z n < 2 ^ 53).
    { rewrite <- (pow2_Z 53) by lia. rewrite <- Zlt_Qlt. lia. }
    assert (D1 : 1 <= inject_Z d)
      by (change 1 with (inject_Z 1); rewrite <- Zle_Qle; lia).
    assert (Eq : q * inject_Z d == inject_Z n) by (unfold q; field; lra).
    assert (Hq : 0 < q) by (unfold q; apply Qlt_shift_div_l; lra).
    assert (Q1 : q < 2 ^ 53) by nra.
    rewrite (binary64_pos q Hq). cbv zeta.
    rewrite (ulp_exp_pos q Hq). set (u := Z.max (ilog2 q - 52) (-1074)).
    destruct (ilog2_spec q Hq) as [IL IU].
    assert (Hu0 : (u <= 0)%Z).
    { pose proof (ilog2_upper q 52 Hq Q1). unfold u. lia. }
    (* the unit in the last place, times the divisor, stays below 2 *)
    assert (Hdu : inject_Z d * 2 ^ u < 2).
    { unfold u. apply Z.max_case_strong; intros _.
      - assert (E52 : 2 ^ ilog2 q == 2 ^ (ilog2 q - 52) * 2 ^ 52).
        { rewrite <- pow2_plus.
          replace (ilog2 q - 52 + 52)%Z with (ilog2 q) by lia. reflexivity. }
        assert (E53 : 2 ^ 53 == 2 * 2 ^ 52) by reflexivity.
        pose proof (pow2_pos (ilog2 q - 52)). pose proof (pow2_pos 52).
        assert (inject_Z d * 2 ^ ilog2 q < 2 ^ 53) by nra.
        nra.
      - assert (D2 : inject_Z d < 2 ^ 53).
        { rewrite <- (pow2_Z 53) by lia. rewrite <- Zlt_Qlt. lia. }
        assert (2 ^ (-1074) * 2 ^ 53 <= 1) by (vm_compute; discriminate).
        pose proof (pow2_pos (-1074)). nra. }
    set (s := (2 ^ (- u))%Z).
    assert (Es : inject_Z s * 2 ^ u == 1).
    { unfold s. rewrite pow2_Z by lia. rewrite <- pow2_plus.
      replace (- u + u)%Z with 0%Z by lia. reflexivity. }
    pose proof (pow2_pos u) as Pu.
    assert (Ps : 0 < inject_Z s) by nra.
    set (m := round_half_even (q / 2 ^ u)).
    destruct (round_half_even_spec (q / 2 ^ u)) as [L U]. fold m in L, U.
    assert (Ex : q / 2 ^ u == q * inject_Z s).
    { rewrite <- (Qmult_1_r (q / 2 ^ u)), <- Es. field. lra. }
    rewrite Ex in L, U.
    set (f := (n / d)%Z).
    pose proof (Z.div_mod n d ltac:(lia)) as Dm.
    pose proof (Z.mod_pos_bound n d ltac:(lia)) as Rm.
    fold f in Dm.
    assert (Dq : inject_Z n == inject_Z d * inject_Z f + inject_Z (n mod d)).
    { rewrite <- inject_Z_mult, <- inject_Z_plus, <- Dm. reflexivity. }
    assert (R0 : 0 <= inject_Z (n mod d))
      by (change 0 with (inject_Z 0); rewrite <- Zle_Qle; lia).
    assert (R1 : inject_Z (n mod d) + 1 <= inject_Z d).
    { change 1 with (inject_Z 1). rewrite <- inject_Z_plus, <- Zle_Qle. lia. }
    assert (Qf : inject_Z f <= q) by nra.
    (* the mantissa is at least [f * s], both being integers *)
    assert (Mf : inject_Z (f * s) <= inject_Z m).
    { rewrite <- Zle_Qle.
      assert (A : inject_Z (f * s - 1) < inject_Z m).
      { unfold Z.sub. rewrite inject_Z_plus, inject_Z_mult.
        change (inject_Z (- (1))) with (-1). nra. }
      rewrite <- Zlt_Qlt in A. lia. }
    rewrite inject_Z_mult in Mf.
    assert (Lo : inject_Z f <= inject_Z m * 2 ^ u) by nra.
    assert (Hi : inject_Z m * 2 ^ u < inject_Z f + 1).
    { assert (A : inject_Z m * 2 ^ u <= q + 2 ^ u * (1 # 2)) by nra.
      assert (B : (q + 2 ^ u * (1 # 2)) * inject_Z d
                  < (inject_Z f + 1) * inject_Z d) by nra.
      nra. }
    assert (Fi : inject_Z m * 2 ^ u < 2 ^ 1024).
    { assert (inject_Z f <= 2 ^ 53) by lra.
      assert (2 ^ 53 + 1 < 2 ^ 1024) by reflexivity. lra. }
    rewrite (proj2 (Qle_bool_false _ _) Fi).
    eexists. split; [reflexivity|]. split.
    + rewrite Qred_correct.
      assert (0 <= inject_Z f)
        by (change 0 with (inject_Z 0); rewrite <- Zle_Qle;
            apply Z.div_pos; lia).
      lra.
    + rewrite (Qfloor_comp _ _ (Qred_correct _)).
      apply Qfloor_unique; assumption.
Qed.

End FloatFacts.

(** ** [tokenize]: a number followed by text without digits *)

Lemma re_split_sep (s : string) :
  no_digit s = true -> re_split_from InSep s = [s].
Proof.
  induction s as [|c s IH]; simpl; intros H; [reflexivity|].
  apply andb_prop in H. destruct H as [Hc Hs]. apply negb_true_iff in Hc.
  rewrite Hc, (IH Hs). reflexivity.
Qed.

Lemma no_digit_start (s : string) : no_digit s = true -> starts_with_digit s = false.
Proof.
  destruct s as [|c s]; simpl; intros H; [reflexivity|].
  apply andb_prop in H. destruct H as [Hc _]. apply negb_true_iff, Hc.
Qed.

Lemma re_split_after_number (st : split_state) (sep : string) :
  st <> InSep -> no_digit sep = true -> re_split_from st sep = [""; sep].
Proof.
  intros Hst H. destruct sep as [|c s]; [destruct st; simpl; congruence|].
  simpl in H. apply andb_prop in H. destruct H as [Hc Hs].
  apply negb_true_iff in Hc.
  destruct st; [congruence| |]; simpl; rewrite Hc, ?(no_digit_start s Hs),
    ?andb_false_r, (re_split_sep s Hs); reflexivity.
Qed.

Lemma re_split_digits (st : split_state) (ds sep : string) :
  st <> InSep -> all_digits ds = true -> no_digit sep = true ->
  re_split_from st (ds ++ sep) = [ds; sep].
Proof.
  intros Hst Hd Hs. induction ds as [|c ds IH]; simpl.
  - apply re_split_after_number; assumption.
  - simpl in Hd. apply andb_prop in Hd. destruct Hd as [Hc Hd].
    destruct st; [congruence| |]; rewrite Hc, (IH Hd); reflexivity.
Qed.

Lemma re_split_point (ip fp sep : string) :
  all_digits ip = true -> isdigit fp = true -> no_digit sep = true ->
  re_split_from InInt (ip ++ "." ++ fp ++ sep) = [ip ++ "." ++ fp; sep].
Proof.
  intros Hi Hf Hs. induction ip as [|c ip IH]; simpl in *.
  - assert (Hd : starts_with_digit (fp ++ sep) = true).
    { destruct fp as [|d fp]; [discriminate|].
      rewrite isdigit_cons in Hf. apply andb_prop in Hf. simpl. tauto. }
    rewrite Hd, re_split_digits; auto using isdigit_all_digits; congruence.
  - apply andb_prop in Hi. destruct Hi as [Hc Hi].
    rewrite Hc, (IH Hi). reflexivity.
Qed.

Lemma re_split_numeral (num sep : string) :
  numeral num -> no_digit sep = true -> re_split (num ++ sep) = [""; num; sep].
Proof.
  intros [ds H|ip fp Hi Hf] Hs; unfold re_split.
  - destruct ds as [|c ds]; [discriminate|].
    rewrite isdigit_cons in H. apply andb_prop in H. destruct H as [Hc Hd].
    cbn [append re_split_from]. rewrite Hc, re_split_digits; auto; congruence.
  - destruct ip as [|c ip]; [discriminate|].
    rewrite isdigit_cons in Hi. apply andb_prop in Hi. destruct Hi as [Hc Hi].
    rewrite !append_assoc.
    change (String c ip ++ "." ++ fp ++ sep)
      with (String c (ip ++ "." ++ fp ++ sep)).
    cbn [re_split_from]. rewrite Hc, re_split_point; auto.
Qed.

Lemma tokenize_int_unit (ds sep : string) :
  isdigit ds = true -> no_digit sep = true ->
  tokenize (ds ++ sep) = Ok (TNum (Int (digits_value 0 ds)) :: unit_tokens sep).
Proof.
  intros H Hs. unfold tokenize.
  rewrite (re_split_numeral ds sep (numeral_int ds H) Hs).
  rewrite (tokenize_loop_sep "" _ [] eq_refl). cbn [strip lstrip rstrip is_empty].
  rewrite (tokenize_loop_int ds _ [] H), (tokenize_loop_sep sep [] _ Hs).
  unfold unit_tokens. destruct (is_empty (strip sep)); reflexivity.
Qed.

Lemma tokenize_float_unit (ip fp sep : string) :
  isdigit ip = true -> isdigit fp = true -> no_digit sep = true ->
  tokenize ((ip ++ "." ++ fp) ++ sep)
  = Ok (TNum (Float (Float.binary64 (decimal_value ip fp))) :: unit_tokens sep).
Proof.
  intros Hi Hf Hs. unfold tokenize.
  rewrite (re_split_numeral _ sep (numeral_float ip fp Hi Hf) Hs).
  rewrite (tokenize_loop_sep "" _ [] eq_refl). cbn [strip lstrip rstrip is_empty].
  rewrite (tokenize_loop_float ip fp _ [] Hi Hf), (tokenize_loop_sep sep [] _ Hs).
  unfold unit_tokens. destruct (is_empty (strip sep)); reflexivity.
Qed.




(** ** Signs: numeric tokens are never negative *)

Lemma digit_value_nonneg (c : ascii) : is_digit c = true -> 0 <= digit_value c <= 9.
Proof.
  unfold is_digit, digit_value. intros H. apply andb_prop in H.
  destruct H as [L U]. apply N.leb_le in L, U. lia.
Qed.






Lemma lstrip_app_space (ws s : string) :
  all_space ws = true -> lstrip (ws ++ s) = lstrip s.
Proof.
  induction ws as [|c ws IH]; simpl; intros H; [reflexivity|].
  apply andb_prop in H. destruct H as [Hc Hw]. rewrite Hc. exact (IH Hw).
Qed.

Lemma lstrip_all_space (ws : string) : all_space ws = true -> lstrip ws = "".
Proof.
  intros H. rewrite <- (append_nil_r ws), (lstrip_app_space ws "" H). reflexivity.
Qed.






(** ** The parsers: which unit a name selects *)

Lemma first_match_find (P : unit -> bool) (units : list unit) (u : unit) :
  first_match P units u <-> find P units = Some u.
Proof.
  split.
  - intros [before [after [-> [Hu Hb]]]].
    induction before as [|v before IH]; simpl.
    + rewrite Hu. reflexivity.
    + rewrite (Hb v (or_introl eq_refl)). apply IH.
      intros w Hw. apply Hb. right. exact Hw.
  - induction units as [|v units IH]; simpl; [discriminate|].
    destruct (P v) eqn:Hv.
    + intros [= ->]. exists [], units. repeat split; [exact Hv|].
      intros w [].
    + intros H. destruct (IH H) as [before [after [-> [Hu Hb]]]].
      exists (v :: before), after. repeat split; [exact Hu|].
      intros w [<-|Hw]; [exact Hv|exact (Hb w Hw)].
Qed.

Lemma parse_size_loop_find (units : list unit) (name : string) (n : number)
    (otherwise : outcome Z) :
  Forall has_prefix units ->
  parse_size_loop units name n otherwise
  = match find (prefix_matches name) units with
    | Some u => v <- num_mul n (divider u) ;; int_of_number v
    | None => otherwise
    end.
Proof.
  induction 1 as [|u units Hu _ IH]; simpl; [reflexivity|].
  unfold unit_prefix, prefix_matches, has_prefix in *.
  destruct (prefix u) as [p|]; [|congruence]. simpl.
  destruct (startswith name p); [reflexivity|exact IH].
Qed.

Lemma parse_timespan_loop_find (units : list unit) (name : string) (n : number)
    (otherwise : outcome number) :
  parse_timespan_loop units name n otherwise
  = match find (letter_matches name) units with
    | Some u => x <- float_of_number n ;; num_mul (Float x) (divider u)
    | None => otherwise
    end.
Proof.
  induction units as [|u units IH]; simpl; [reflexivity|].
  unfold letter_matches at 1.
  destruct (startswith name (first_letter (singular u))); [reflexivity|exact IH].
Qed.

Lemma disk_size_units_prefix : Forall has_prefix disk_size_units.
Proof. repeat constructor; discriminate. Qed.

(** Arithmetic raises [OverflowError] or [ValueError], never a parse error. *)





(** ** C7: when [parse_size] raises [InvalidSize] *)



(** ** C3: [parse_size] on a number and a unit *)

(** The product is truncated to an [int]: half a byte parses to [0]. *)
Lemma parse_size_truncates : ~ parse_size_returns_product.
Proof.
  intros H.
  destruct (H "0.5 b" (Float (Fin (1 # 2))) "b" byte_unit) as [p [r [P [R E]]]].
  - vm_compute. reflexivity.
  - apply first_match_find. reflexivity.
  - vm_compute in P. injection P as <-.
    vm_compute in R. injection R as <-.
    vm_compute in E. discriminate E.
Qed.

(** C3 (amended): on a number followed by a string, [parse_size] lower-cases
    the string, takes the first entry of [disk_size_units], in the order of
    the table, whose prefix starts it, and returns the number times the
    divider of that entry truncated to an [int]; the match ignores case;
    [parse_size("1.5 GB") == 1610612736]. *)
Theorem parse_size_unit :
  (forall size n s u,
      tokenize size = Ok [TNum n; TStr s] ->
      first_match (prefix_matches (lower s)) disk_size_units u ->
      parse_size size = (v <- num_mul n (divider u) ;; int_of_number v))
  /\ parse_size "1.5 GB" = Ok (1024 ^ 3 * 3 / 2)
  /\ parse_size "1.5 GB" = Ok 1610612736
  /\ parse_size "1.5 gb" = Ok 1610612736
  /\ parse_size "1.5 Gigabytes" = Ok 1610612736.
Proof.
  split.
  - intros size n s u E M. unfold parse_size. rewrite E. cbn [bind].
    rewrite (parse_size_loop_find _ _ _ _ disk_size_units_prefix).
    apply first_match_find in M. rewrite M. reflexivity.
  - repeat split; vm_compute; reflexivity.
Qed.

Lemma parse_size_unit_witness :
  tokenize "1.5 GB" = Ok [TNum (Float (Fin (3 # 2))); TStr "GB"]
  /\ first_match (prefix_matches (lower "GB")) disk_size_units giga_unit
  /\ parse_size "1.5 GB"
     = (v <- num_mul (Float (Fin (3 # 2))) (divider giga_unit) ;;
        int_of_number v).
Proof.
  assert (T : tokenize "1.5 GB" = Ok [TNum (Float (Fin (3 # 2))); TStr "GB"])
    by (vm_compute; reflexivity).
  assert (M : first_match (prefix_matches (lower "GB")) disk_size_units giga_unit)
    by (apply first_match_find; reflexivity).
  split; [exact T|]. split; [exact M|].
  exact (proj1 parse_size_unit "1.5 GB" _ "GB" giga_unit T M).
Defined.

(** ** C4: [parse_size] and [parse_length] on a single number *)

(** A float token is truncated: ["1.5"] parses to [1]. *)
Lemma parse_size_float_token : ~ parse_returns_token_value.
Proof.
  intros H.
  destruct (H "1.5" (Float (Fin (3 # 2)))) as [[r [R E]] _].
  - vm_compute. reflexivity.
  - vm_compute in R. injection R as <-. vm_compute in E. discriminate E.
Qed.

(** C4 (amended): on a single numeric token [parse_size] returns
    [int(token)]: the value of an integer token, the integer part of a
    float token; [parse_length] returns the value of an integer token;
    no unit scales the result; [parse_size("42") == 42]. *)
Theorem parse_single_number :
  (forall text n,
      tokenize text = Ok [TNum n] -> parse_size text = int_of_number n)
  /\ (forall text z,
         tokenize text = Ok [TNum (Int z)] ->
         parse_size text = Ok z /\ parse_length text = Ok (Int z))
  /\ parse_size "42" = Ok 42
  /\ parse_length "42" = Ok (Int 42)
  /\ parse_size "1.5" = Ok 1.
Proof.
  split; [|split].
  - intros text n E. unfold parse_size. rewrite E. reflexivity.
  - intros text z E. unfold parse_size, parse_length. rewrite E. split; reflexivity.
  - repeat split; vm_compute; reflexivity.
Qed.

Lemma parse_single_number_witness :
  tokenize "42" = Ok [TNum (Int 42)]
  /\ parse_size "42" = int_of_number (Int 42)
  /\ parse_size "42" = Ok 42 /\ parse_length "42" = Ok (Int 42).
Proof.
  assert (T : tokenize "42" = Ok [TNum (Int 42)]) by (vm_compute; reflexivity).
  split; [exact T|]. split.
  - exact (proj1 parse_single_number "42" (Int 42) T).
  - exact (proj1 (proj2 parse_single_number) "42" 42 T).
Defined.

(** ** C6: [parse_timespan] on a number and a unit *)

Lemma minute_first (rest : string) :
  find (letter_matches (String "m" rest)) time_units = Some minute_unit.
Proof. destruct rest; reflexivity. Qed.

(** C6: on a number followed by a string, [parse_timespan] takes the first
    entry of [time_units], in the order second, minute, hour, day, week,
    year, whose singular name's first letter starts the lower-cased string,
    and returns [float(number)] times the divider of that entry, a float;
    [parse_timespan("1m") == 60.0], [parse_timespan("1h") == 3600.0], and
    every unit that begins with ["m"] counts as minutes. *)
Theorem parse_timespan_unit :
  (forall timespan n s u,
      tokenize timespan = Ok [TNum n; TStr s] ->
      first_match (letter_matches (lower s)) time_units u ->
      parse_timespan timespan
      = (x <- float_of_number n ;; num_mul (Float x) (divider u))
      /\ forall v, parse_timespan timespan = Ok v -> exists y, v = Float y)
  /\ (forall timespan n s rest,
         tokenize timespan = Ok [TNum n; TStr s] ->
         lower s = String "m" rest ->
         parse_timespan timespan
         = (x <- float_of_number n ;; num_mul (Float x) (Int 60)))
  /\ map singular time_units
     = ["second"; "minute"; "hour"; "day"; "week"; "year"]
  /\ parse_timespan "1m" = Ok (Float (Fin 60))
  /\ parse_timespan "1h" = Ok (Float (Fin 3600))
  /\ parse_timespan "3 months" = Ok (Float (Fin 180))
  /\ parse_timespan "1.5 M" = Ok (Float (Fin 90)).
Proof.
  split; [|split].
  - intros timespan n s u E M.
    assert (P : parse_timespan timespan
                = (x <- float_of_number n ;; num_mul (Float x) (divider u))).
    { unfold parse_timespan. rewrite E. cbn [bind].
      rewrite parse_timespan_loop_find.
      apply first_match_find in M. rewrite M. reflexivity. }
    split; [exact P|]. rewrite P. intros v.
    destruct (float_of_number n) as [x|e]; [|discriminate]. cbn [bind].
    unfold num_mul. destruct (divider u) as [d|y]; cbn [float_of_number bind].
    + destruct (Float.of_int d); cbn [bind]; [|discriminate].
      intros [= <-]. eauto.
    + intros [= <-]. eauto.
  - intros timespan n s rest E L. unfold parse_timespan. rewrite E. cbn [bind].
    rewrite parse_timespan_loop_find, L, minute_first. reflexivity.
  - repeat split; vm_compute; reflexivity.
Qed.

Lemma parse_timespan_unit_witness :
  tokenize "3 months" = Ok [TNum (Int 3); TStr "months"]
  /\ first_match (letter_matches (lower "months")) time_units minute_unit
  /\ lower "months" = String "m" "onths"
  /\ parse_timespan "3 months"
     = (x <- float_of_number (Int 3) ;; num_mul (Float x) (divider minute_unit))
  /\ parse_timespan "3 months"
     = (x <- float_of_number (Int 3) ;; num_mul (Float x) (Int 60)).
Proof.
  assert (T : tokenize "3 months" = Ok [TNum (Int 3); TStr "months"])
    by (vm_compute; reflexivity).
  assert (M : first_match (letter_matches (lower "months")) time_units minute_unit)
    by (apply first_match_find; reflexivity).
  split; [exact T|]. split; [exact M|]. split; [reflexivity|]. split.
  - exact (proj1 (proj1 parse_timespan_unit "3 months" _ "months" minute_unit T M)).
  - exact (proj1 (proj2 parse_timespan_unit) "3 months" _ "months" "onths" T eq_refl).
Defined.

(** ** [pluralize] on an [int] *)

Lemma pluralize_floor (c : count) (singular : string) (plural : option string)
    (x : pyfloat) (f : Z) :
  float_of_count c = Ok x -> Float.floor x = Ok f ->
  pluralize c singular plural
  = Ok (str_of_count c ++ " "
        ++ (if f =? 1 then singular else plural_form singular plural)).
Proof.
  intros Hx Hf. unfold pluralize. rewrite Hx. cbn [bind]. rewrite Hf.
  reflexivity.
Qed.

Lemma of_int_exact (n : Z) :
  Z.abs n < 2 ^ 53 -> Float.of_int n = Ok (Fin (inject_Z n)).
Proof.
  intros H. unfold Float.of_int. rewrite (FloatFacts.binary64_int n H).
  reflexivity.
Qed.

Lemma pluralize_int (n : Z) (singular : string) (plural : option string) :
  Z.abs n < 2 ^ 53 ->
  pluralize (CInt n) singular plural
  = Ok (str_of_int n ++ " "
        ++ (if n =? 1 then singular else plural_form singular plural)).
Proof.
  intros H.
  rewrite (pluralize_floor (CInt n) singular plural (Fin (inject_Z n)) n).
  - reflexivity.
  - apply of_int_exact, H.
  - cbn [Float.floor]. rewrite Qfloor_Z. reflexivity.
Qed.

(** ** C2: the unit [format_size] selects *)

Lemma format_size_loop_find (units : list unit) (n : Z) (kw : bool)
    (otherwise : outcome string) :
  format_size_loop units n kw otherwise
  = match find (fun u => num_ge (Int n) (divider u)) units with
    | Some u => render_size u n kw
    | None => otherwise
    end.
Proof.
  induction units as [|u units IH]; simpl; [reflexivity|].
  destruct (num_ge (Int n) (divider u)); [reflexivity|exact IH].
Qed.

Lemma sorted_before (R : unit -> unit -> Prop) (before after : list unit) (u : unit) :
  StronglySorted R (before ++ u :: after)%list ->
  forall v, In v before -> R v u.
Proof.
  induction before as [|w before IH]; simpl; intros S v Hv; [contradiction|].
  apply StronglySorted_inv in S. destruct S as [S F].
  destruct Hv as [<-|Hv]; [|exact (IH S v Hv)].
  rewrite Forall_forall in F. apply F, in_elt.
Qed.

Lemma disk_size_units_sorted :
  StronglySorted larger_divider (rev disk_size_units).
Proof. repeat constructor. Qed.

Lemma format_size_largest (n : Z) (kw : bool) (u : unit) :
  largest_unit disk_size_units n u -> format_size n kw = render_size u n kw.
Proof.
  intros [Hin [Hge Hmax]]. unfold format_size. rewrite format_size_loop_find.
  apply in_rev in Hin. destruct (in_split _ _ Hin) as [before [after E]].
  assert (F : first_match (fun u => num_ge (Int n) (divider u))
                (rev disk_size_units) u).
  { exists before, after. split; [exact E|]. split; [exact Hge|].
    intros v Hv.
    destruct (num_ge (Int n) (divider v)) eqn:G; [|reflexivity].
    assert (Hv' : In v disk_size_units).
    { apply in_rev. rewrite E. apply in_or_app. left. exact Hv. }
    pose proof (disk_size_units_sorted) as S. rewrite E in S.
    pose proof (sorted_before _ _ _ _ S v Hv) as L. unfold larger_divider in L.
    rewrite (Hmax v Hv' G) in L. discriminate L. }
  apply first_match_find in F. rewrite F. reflexivity.
Qed.

Lemma format_size_fallback (n : Z) (kw : bool) :
  (forall v, In v disk_size_units -> num_ge (Int n) (divider v) = false) ->
  format_size n kw = pluralize (CInt n) "byte" None.
Proof.
  intros H. unfold format_size. rewrite format_size_loop_find.
  destruct (find _ _) as [u|] eqn:F; [|reflexivity].
  destruct (find_some _ _ F) as [Hin Hge].
  rewrite (H u) in Hge; [discriminate Hge|].
  apply in_rev. exact Hin.
Qed.

Lemma num_ge_int (a b : Z) : num_ge (Int a) (Int b) = (b <=? a).
Proof.
  unfold num_ge, exact, Float.leb, Qle_bool, inject_Z. cbn [Qnum Qden].
  rewrite !Z.mul_1_r. reflexivity.
Qed.

Lemma num_lt_int (a b : Z) : num_lt (Int a) (Int b) = (a <? b).
Proof.
  unfold num_lt, exact, Float.ltb, Float.Qltb, Qle_bool, inject_Z.
  cbn [Qnum Qden]. rewrite !Z.mul_1_r. symmetry. apply Z.ltb_antisym.
Qed.

(** C2: for a size [0 <= n], [format_size] renders with the largest unit of
    [disk_size_units] whose divider is at most [n] (the loop reads the table
    from the largest divider down), and with ["byte"] through the fall-back
    when [n] is below every divider, which is the case [n = 0];
    [format_size(0) == "0 bytes"], [format_size(1024) == "1 KB"],
    [format_size(1024**3 * 4) == "4 GB"]. *)
Theorem format_size_unit :
  (forall n kw u,
      0 <= n -> largest_unit disk_size_units n u ->
      format_size n kw = render_size u n kw)
  /\ (forall n kw,
         0 <= n ->
         (forall v, In v disk_size_units -> num_ge (Int n) (divider v) = false) ->
         n = 0
         /\ format_size n kw = pluralize (CInt n) "byte" None
         /\ format_size n kw = Ok "0 bytes")
  /\ map divider disk_size_units
     = [Int 1; Int 1024; Int 1048576; Int 1073741824; Int 1099511627776;
        Int 1125899906842624]
  /\ format_size 0 false = Ok "0 bytes"
  /\ format_size 1 false = Ok "1 byte"
  /\ format_size 1023 false = Ok "1023 bytes"
  /\ format_size 1024 false = Ok "1 KB"
  /\ format_size (1024 ^ 3 * 4) false = Ok "4 GB".
Proof.
  split; [|split].
  - intros n kw u _ H. exact (format_size_largest n kw u H).
  - intros n kw Hn H.
    assert (n = 0).
    { pose proof (H byte_unit (or_introl eq_refl)) as B.
      cbn [byte_unit divider] in B. rewrite num_ge_int in B.
      apply Z.leb_gt in B. lia. }
    subst n. rewrite (format_size_fallback 0 kw H).
    repeat split. 
  - repeat split; vm_compute; reflexivity.
Qed.

Lemma format_size_unit_witness :
  0 <= 1500
  /\ largest_unit disk_size_units 1500 kilo_unit
  /\ format_size 1500 false = render_size kilo_unit 1500 false
  /\ format_size 1500 false = Ok "1.46 KB".
Proof.
  assert (P : 0 <= 1500) by lia.
  assert (L : largest_unit disk_size_units 1500 kilo_unit).
  { split; [right; left; reflexivity|]. split; [reflexivity|].
    intros v Hv. simpl in Hv.
    destruct Hv as [<-|[<-|[<-|[<-|[<-|[<-|[]]]]]]];
      vm_compute; intros E; congruence. }
  split; [exact P|]. split; [exact L|]. split.
  - exact (proj1 format_size_unit 1500 false kilo_unit P L).
  - vm_compute. reflexivity.
Defined.

(** ** [format_timespan] on an [int] *)

Lemma truncate_nonneg (w : Q) : (0 <= w)%Q -> Float.truncate w = Qfloor w.
Proof.
  intros H. unfold Float.truncate.
  rewrite (proj2 (FloatFacts.Qltb_ge w 0) H). reflexivity.
Qed.

Lemma format_timespan_loop_int (units : list unit) :
  Forall time_unit_ok units ->
  forall n acc,
    0 <= n < 2 ^ 53 ->
    format_timespan_loop units (Int n) acc
    = Ok (acc ++ map render_term (filter nonzero_count (greedy units n)))%list.
Proof.
  induction 1 as [|u units [d [Ed [Hd Hp]]] _ IH]; intros n acc Hn.
  - simpl. rewrite app_nil_r. reflexivity.
  - assert (Ei : int_divider u = d) by (unfold int_divider; rewrite Ed; reflexivity).
    cbn [format_timespan_loop greedy filter]. rewrite Ei, Ed, num_ge_int.
    destruct (Z.leb_spec d n) as [Le|Lt].
    + destruct (FloatFacts.int_true_div_floor n d Hn Hd) as [w [Ew [W0 Fw]]].
      unfold num_div, num_mod. cbn [num_is_zero].
      rewrite (proj2 (Z.eqb_neq d 0)) by lia.
      rewrite Ew. cbn [bind int_of_number Float.to_int].
      rewrite (truncate_nonneg w W0), Fw.
      assert (Hc : 1 <= n / d <= n).
      { split.
        - apply Z.div_le_lower_bound; lia.
        - apply Z.div_le_upper_bound; nia. }
      rewrite pluralize_int by lia. cbn [bind plural_form]. rewrite Hp.
      pose proof (Z.mod_pos_bound n d ltac:(lia)) as Hm.
      rewrite IH by lia.
      assert (Nz : nonzero_count (n / d, u) = true).
      { unfold nonzero_count. cbn [fst].
        rewrite (proj2 (Z.eqb_neq (n / d) 0)) by lia. reflexivity. }
      rewrite Nz. cbn [map]. rewrite <- app_assoc. reflexivity.
    + rewrite Z.div_small, Z.mod_small by lia.
      assert (Nz : nonzero_count (0, u) = false) by reflexivity.
      rewrite Nz. apply IH. exact Hn.
Qed.

Lemma time_unit_ok_intro (pre : option string) (d : Z) (s p : string) :
  0 < d < 2 ^ 53 -> is_empty p = false -> time_unit_ok (mk_unit pre (Int d) s p).
Proof. intros Hd Hp. exists d. auto. Qed.

Lemma time_units_ok : Forall time_unit_ok (rev time_units).
Proof.
  cbn [rev time_units app].
  repeat (apply Forall_cons;
          [apply time_unit_ok_intro; [split; reflexivity|reflexivity]|]).
  apply Forall_nil.
Qed.

Lemma single_or_joined (terms : list string) :
  match terms with
  | [term] => @Ok string term
  | _ => Ok (concatenate (firstn 3 terms))
  end = Ok (concatenate (firstn 3 terms)).
Proof. destruct terms as [|a [|b l]]; reflexivity. Qed.

Lemma format_timespan_slow (x : number) :
  num_lt x (Int 60) = false ->
  format_timespan x
  = (terms <- format_timespan_loop (rev time_units) x [] ;;
     Ok (concatenate (firstn 3 terms))).
Proof.
  intros H. unfold format_timespan. rewrite H.
  destruct (format_timespan_loop _ _ _) as [terms|e]; [|reflexivity].
  apply single_or_joined.
Qed.

Lemma format_timespan_int (n : Z) :
  60 <= n < 2 ^ 53 ->
  format_timespan (Int n) = Ok (concatenate (firstn 3 (timespan_terms n))).
Proof.
  intros Hn. rewrite format_timespan_slow
    by (rewrite num_lt_int; apply Z.ltb_ge; lia).
  rewrite (format_timespan_loop_int _ time_units_ok) by lia.
  reflexivity.
Qed.

Lemma fast_path_checked : forallb fast_path_ok (seq 0 60) = true.
Proof. vm_compute. reflexivity. Qed.

Lemma format_timespan_seconds (n : Z) :
  0 <= n < 60 ->
  format_timespan (Int n)
  = Ok (str_of_int n ++ " " ++ (if n =? 1 then "second" else "seconds")).
Proof.
  intros Hn. pose proof fast_path_checked as C.
  rewrite forallb_forall in C.
  assert (I : In (Z.to_nat n) (seq 0 60)) by (apply in_seq; lia).
  specialize (C _ I). unfold fast_path_ok in C.
  rewrite Z2Nat.id in C by lia.
  destruct (format_timespan (Int n)) as [s|e]; [|discriminate C].
  apply String.eqb_eq in C. congruence.
Qed.

(** ** Decimal notation of integers *)

Lemma string_of_uint_digits (d : Decimal.uint) :
  all_digits (NilEmpty.string_of_uint d) = true.
Proof. induction d; simpl; auto. Qed.

Lemma digit_value_literal :
  digit_value "0" = 0 /\ digit_value "1" = 1 /\ digit_value "2" = 2
  /\ digit_value "3" = 3 /\ digit_value "4" = 4 /\ digit_value "5" = 5
  /\ digit_value "6" = 6 /\ digit_value "7" = 7 /\ digit_value "8" = 8
  /\ digit_value "9" = 9.
Proof. repeat split. Qed.

Ltac digit_literals :=
  destruct digit_value_literal
    as (E0 & E1 & E2 & E3 & E4 & E5 & E6 & E7 & E8 & E9);
  rewrite ?E0, ?E1, ?E2, ?E3, ?E4, ?E5, ?E6, ?E7, ?E8, ?E9.

Lemma digits_value_acc (d : Decimal.uint) :
  forall acc : positive,
    digits_value (Zpos acc) (NilEmpty.string_of_uint d)
    = Zpos (Pos.of_uint_acc d acc).
Proof.
  induction d; intros acc;
    cbn [NilEmpty.string_of_uint digits_value Pos.of_uint_acc];
    try reflexivity; rewrite <- IHd; f_equal; digit_literals; lia.
Qed.

Lemma digits_value_uint (d : Decimal.uint) :
  digits_value 0 (NilEmpty.string_of_uint d) = Z.of_N (Pos.of_uint d).
Proof.
  induction d; cbn [NilEmpty.string_of_uint digits_value Pos.of_uint];
    try reflexivity; digit_literals; try exact IHd;
    cbn [Z.mul Z.add Z.of_N]; apply digits_value_acc.
Qed.

Lemma str_of_int_pos (p : positive) :
  str_of_int (Zpos p) = NilEmpty.string_of_uint (Pos.to_uint p).
Proof.
  unfold str_of_int. cbn [Z.to_int NilZero.string_of_int].
  unfold NilZero.string_of_uint.
  destruct (Pos.to_uint p) eqn:E; try reflexivity.
  exfalso. exact (DecimalPos.Unsigned.to_uint_nonnil p E).
Qed.

Lemma str_of_int_isdigit (n : Z) : 0 <= n -> isdigit (str_of_int n) = true.
Proof.
  intros Hn. destruct n as [|p|p]; [reflexivity| |lia].
  rewrite str_of_int_pos. unfold isdigit.
  rewrite string_of_uint_digits, andb_true_r.
  destruct (Pos.to_uint p) eqn:E; try reflexivity.
  exfalso. exact (DecimalPos.Unsigned.to_uint_nonnil p E).
Qed.

Lemma digits_value_str (n : Z) : 0 <= n -> digits_value 0 (str_of_int n) = n.
Proof.
  intros Hn. destruct n as [|p|p]; [reflexivity| |lia].
  rewrite str_of_int_pos, digits_value_uint, DecimalPos.Unsigned.of_to.
  reflexivity.
Qed.

Lemma digits_value_app (s t : string) :
  forall acc, digits_value acc (s ++ t) = digits_value (digits_value acc s) t.
Proof. induction s as [|c s IH]; intros acc; simpl; [reflexivity|apply IH]. Qed.

Lemma digit_char_spec (d : Z) :
  0 <= d <= 9 ->
  is_digit (digit_char d) = true /\ digit_value (digit_char d) = d.
Proof.
  intros H.
  assert (C : d = 0 \/ d = 1 \/ d = 2 \/ d = 3 \/ d = 4 \/ d = 5 \/ d = 6
              \/ d = 7 \/ d = 8 \/ d = 9) by lia.
  decompose [or] C; subst d; split; reflexivity.
Qed.

Lemma digit_char_zero (d : Z) :
  0 <= d <= 9 -> Ascii.eqb (digit_char d) "0" = (d =? 0).
Proof.
  intros H.
  assert (C : d = 0 \/ d = 1 \/ d = 2 \/ d = 3 \/ d = 4 \/ d = 5 \/ d = 6
              \/ d = 7 \/ d = 8 \/ d = 9) by lia.
  decompose [or] C; subst d; reflexivity.
Qed.

(** ** The text of a rounded number *)

Lemma is_empty_app (s t : string) : is_empty (s ++ t) = is_empty s && is_empty t.
Proof. destruct s; reflexivity. Qed.

Lemma strip_trailing_zeros_app (s t : string) :
  is_empty (strip_trailing_zeros t) = false ->
  strip_trailing_zeros (s ++ t) = s ++ strip_trailing_zeros t.
Proof.
  intros H. induction s as [|c s IH]; simpl; [reflexivity|].
  rewrite IH, is_empty_app, H, !andb_false_r. reflexivity.
Qed.

Lemma strip_trailing_dot_app (s t : string) :
  is_empty t = false -> strip_trailing_dot (s ++ t) = s ++ strip_trailing_dot t.
Proof.
  intros H. induction s as [|c s IH]; simpl; [reflexivity|].
  rewrite IH, is_empty_app, H, !andb_false_r. reflexivity.
Qed.

Lemma digit_pair (k : Z) :
  0 <= k -> 0 <= k mod 100 / 10 <= 9 /\ 0 <= k mod 10 <= 9.
Proof.
  intros H. pose proof (Z.mod_pos_bound k 100 ltac:(lia)).
  pose proof (Z.mod_pos_bound k 10 ltac:(lia)).
  split; [|lia]. split.
  - apply Z.div_pos; lia.
  - apply Z.lt_succ_r. apply Z.div_lt_upper_bound; lia.
Qed.

Lemma format_2f_text (q : Q) :
  (0 <= q)%Q ->
  strip_trailing_dot (strip_trailing_zeros (format_2f (Fin q)))
  = numeral_text (Float.round_half_even (q * 100)).
Proof.
  intros Hq. unfold format_2f.
  rewrite (proj2 (FloatFacts.Qltb_ge q 0) Hq).
  assert (E : (Qabs q * 100 == q * 100)%Q) by (rewrite Qabs_pos by exact Hq; reflexivity).
  rewrite (FloatFacts.round_half_even_comp _ _ E).
  set (k := Float.round_half_even (q * 100)).
  assert (Hk : 0 <= k).
  { apply FloatFacts.round_half_even_nonneg.
    apply Qmult_le_0_compat; [exact Hq|discriminate]. }
  destruct (digit_pair k Hk) as [Hf Hg].
  destruct (digit_char_spec _ Hf) as [Df _].
  destruct (digit_char_spec _ Hg) as [Dg _].
  unfold numeral_text. change ("" ++ ?s) with s.
  set (f := digit_char (k mod 100 / 10)) in *.
  set (g := digit_char (k mod 10)) in *.
  set (I := str_of_int (k / 100)).
  assert (Z2 : strip_trailing_zeros (String f (String g ""))
               = if k mod 10 =? 0
                 then if k mod 100 / 10 =? 0 then "" else String f ""
                 else String f (String g "")).
  { cbn [strip_trailing_zeros]. unfold f, g.
    rewrite !digit_char_zero by assumption.
    destruct (k mod 10 =? 0), (k mod 100 / 10 =? 0); reflexivity. }
  rewrite strip_trailing_zeros_app by reflexivity.
  change (strip_trailing_zeros ("." ++ String f (String g "")))
    with (String "." (strip_trailing_zeros (String f (String g "")))).
  rewrite Z2, strip_trailing_dot_app by reflexivity.
  destruct (k mod 10 =? 0); [destruct (k mod 100 / 10 =? 0)|].
  - cbn [strip_trailing_dot Ascii.eqb is_empty andb]. apply append_nil_r.
  - cbn [strip_trailing_dot]. rewrite (digit_not_dot f Df). reflexivity.
  - cbn [strip_trailing_dot]. rewrite (digit_not_dot f Df), (digit_not_dot g Dg).
    reflexivity.
Qed.

Lemma round_number_text (q : Q) :
  (0 <= q)%Q ->
  round_number (Float (Fin q)) false
  = Ok (numeral_text (Float.round_half_even (q * 100))).
Proof.
  intros Hq. unfold round_number. cbn [float_of_number bind].
  rewrite (format_2f_text q Hq). reflexivity.
Qed.

(** The three shapes of the text, as numerals. *)
Lemma numeral_text_cases (k : Z) :
  0 <= k ->
  (k mod 100 = 0 /\ numeral_text k = str_of_int (k / 100))
  \/ (k mod 100 <> 0
      /\ exists fp, isdigit fp = true
                    /\ numeral_text k = str_of_int (k / 100) ++ "." ++ fp
                    /\ (decimal_value (str_of_int (k / 100)) fp
                        == inject_Z k / 100)%Q).
Proof.
  intros Hk. destruct (digit_pair k Hk) as [Hf Hg].
  destruct (digit_char_spec _ Hf) as [Df Vf].
  destruct (digit_char_spec _ Hg) as [Dg Vg].
  pose proof (Z.div_mod k 100 ltac:(lia)) as K.
  pose proof (Z.div_mod (k mod 100) 10 ltac:(lia)) as K1.
  assert (K2 : k mod 100 mod 10 = k mod 10).
  { apply Z.mod_mod_divide. exists 10. reflexivity. }
  assert (I0 : 0 <= k / 100) by (apply Z.div_pos; lia).
  unfold numeral_text.
  destruct (Z.eqb_spec (k mod 10) 0) as [G0|G0];
    [destruct (Z.eqb_spec (k mod 100 / 10) 0) as [F0|F0]|].
  - left. split; [lia|reflexivity].
  - right. split; [lia|]. eexists. split; [|split; [reflexivity|]].
    + rewrite isdigit_cons, Df. reflexivity.
    + unfold decimal_value. rewrite digits_value_app, digits_value_str by lia.
      cbn [digits_value String.length]. rewrite Vf.
      change (inject_Z (10 ^ Z.of_nat 1)) with 10%Q.
      assert (E : k = (10 * (k / 100) + k mod 100 / 10) * 10) by lia.
      assert (EQ : (inject_Z k
                    == inject_Z (10 * (k / 100) + k mod 100 / 10) * 10)%Q).
      { change 10%Q with (inject_Z 10). rewrite <- inject_Z_mult, <- E.
        reflexivity. }
      rewrite EQ. field.
  - right. split; [lia|]. eexists. split; [|split; [reflexivity|]].
    + rewrite isdigit_cons, Df. cbn [all_digits]. rewrite Dg. reflexivity.
    + unfold decimal_value. rewrite digits_value_app, digits_value_str by lia.
      cbn [digits_value String.length]. rewrite Vf, Vg.
      change (inject_Z (10 ^ Z.of_nat 2)) with 100%Q.
      assert (E : 10 * (10 * (k / 100) + k mod 100 / 10) + k mod 10 = k) by lia.
      rewrite E. reflexivity.
Qed.

Lemma tokenize_numeral_text (k : Z) (sep : string) :
  0 <= k -> no_digit sep = true ->
  tokenize (numeral_text k ++ sep)
  = Ok (TNum (numeral_number k) :: unit_tokens sep).
Proof.
  intros Hk Hs.
  assert (I0 : 0 <= k / 100) by (apply Z.div_pos; lia).
  pose proof (str_of_int_isdigit _ I0) as Hi.
  unfold numeral_number.
  destruct (numeral_text_cases k Hk) as [[M ->]|[M [fp [Hf [-> V]]]]].
  - rewrite (tokenize_int_unit _ sep Hi Hs), digits_value_str by lia.
    rewrite (proj2 (Z.eqb_eq _ _) M). reflexivity.
  - rewrite (tokenize_float_unit _ fp sep Hi Hf Hs).
    rewrite (proj2 (Z.eqb_neq _ _) M).
    rewrite (FloatFacts.binary64_comp _ _ V). reflexivity.
Qed.

(** ** C1: [parse_size] of [format_size] *)

Lemma float_of_str_digits (ds : string) :
  isdigit ds = true ->
  float_of_str ds = Ok (Float.binary64 (decimal_value ds "")).
Proof.
  intros H. pose proof (isdigit_all_digits ds H) as Ha.
  destruct ds as [|c ds]; [discriminate|].
  rewrite isdigit_cons in H. apply andb_prop in H. destruct H as [Hc _].
  rewrite (float_of_str_digit c _ Hc). unfold float_of_unsigned.
  rewrite !(digit_not_word c _ _ Hc) by reflexivity.
  rewrite (span_digits_all _ Ha). reflexivity.
Qed.

Lemma float_of_str_numeral_text (k : Z) :
  0 <= k ->
  float_of_str (numeral_text k) = Ok (Float.binary64 (inject_Z k / 100)).
Proof.
  intros Hk.
  assert (I0 : 0 <= k / 100) by (apply Z.div_pos; lia).
  pose proof (str_of_int_isdigit _ I0) as Hi.
  destruct (numeral_text_cases k Hk) as [[M ->]|[M [fp [Hf [-> V]]]]].
  - rewrite (float_of_str_digits _ Hi). f_equal.
    apply FloatFacts.binary64_comp. unfold decimal_value.
    rewrite append_nil_r, digits_value_str by lia.
    change (inject_Z (10 ^ Z.of_nat (String.length ""))) with 1%Q.
    assert (E : k = 100 * (k / 100)).
    { pose proof (Z.div_mod k 100 ltac:(lia)). lia. }
    rewrite E at 2. rewrite inject_Z_mult. change (inject_Z 100) with 100%Q.
    field.
  - rewrite (float_of_str_point _ fp Hi Hf). f_equal.
    apply FloatFacts.binary64_comp, V.
Qed.

Lemma pluralize_numeral_text (k : Z) (s p : string) :
  0 <= k -> (inject_Z k / 100 < 2 ^ 1023)%Q -> is_empty p = false ->
  exists word,
    (word = s \/ word = p)
    /\ pluralize (CStr (numeral_text k)) s (Some p)
       = Ok (numeral_text k ++ " " ++ word).
Proof.
  intros Hk Hb Hp.
  assert (H0 : (0 <= inject_Z k / 100)%Q).
  { apply Qle_shift_div_l; [reflexivity|]. rewrite Qmult_0_l.
    change 0%Q with (inject_Z 0). rewrite <- Zle_Qle. exact Hk. }
  destruct (FloatFacts.binary64_finite _ H0 Hb) as [w [E _]].
  rewrite (pluralize_floor (CStr (numeral_text k)) s (Some p) (Fin w) (Qfloor w)).
  - cbn [str_of_count plural_form]. rewrite Hp.
    destruct (Qfloor w =? 1); eauto.
  - cbn [float_of_count]. rewrite (float_of_str_numeral_text k Hk), E.
    reflexivity.
  - reflexivity.
Qed.

Lemma hundredths_bounds (x d : Z) :
  0 < d -> d <= x ->
  (inject_Z (hundredths x d) * inject_Z d <= 100 * inject_Z x + inject_Z d * (1 # 2)
   /\ 100 * inject_Z x - inject_Z d * (1 # 2) <= inject_Z (hundredths x d) * inject_Z d)%Q
  /\ 100 <= hundredths x d.
Proof.
  intros Hd Hx. unfold hundredths.
  set (q := (inject_Z x / inject_Z d)%Q).
  assert (D0 : (0 < inject_Z d)%Q)
    by (change 0%Q with (inject_Z 0); rewrite <- Zlt_Qlt; lia).
  assert (Eq : (q * inject_Z d == inject_Z x)%Q) by (unfold q; field; lra).
  assert (Xd : (inject_Z d <= inject_Z x)%Q) by (rewrite <- Zle_Qle; lia).
  destruct (FloatFacts.round_half_even_spec (q * 100)) as [L U].
  set (k := Float.round_half_even (q * 100)) in *.
  split; [split; nra|].
  assert (Q1 : (1 <= q)%Q) by nra.
  assert (A : (inject_Z 99 < inject_Z k)%Q)
    by (change (inject_Z 99) with 99%Q; lra).
  rewrite <- Zlt_Qlt in A. lia.
Qed.

Lemma hundredths_upper (x d c : Z) :
  0 < d -> 0 <= x < c * d -> hundredths x d <= 100 * c.
Proof.
  intros Hd Hx. unfold hundredths.
  set (q := (inject_Z x / inject_Z d)%Q).
  assert (D0 : (0 < inject_Z d)%Q)
    by (change 0%Q with (inject_Z 0); rewrite <- Zlt_Qlt; lia).
  assert (Eq : (q * inject_Z d == inject_Z x)%Q) by (unfold q; field; lra).
  assert (Xc : (inject_Z x < inject_Z c * inject_Z d)%Q)
    by (rewrite <- inject_Z_mult, <- Zlt_Qlt; lia).
  destruct (FloatFacts.round_half_even_spec (q * 100)) as [L U].
  set (k := Float.round_half_even (q * 100)) in *.
  assert (Qc : (q < inject_Z c)%Q) by nra.
  assert (A : (inject_Z k < inject_Z (100 * c + 1))%Q).
  { rewrite inject_Z_plus, inject_Z_mult.
    change (inject_Z 100) with 100%Q. change (inject_Z 1) with 1%Q. lra. }
  rewrite <- Zlt_Qlt in A. lia.
Qed.

(** [format_size] with the unit fixed. *)
Lemma format_size_text (x j : Z) (u : unit) :
  0 <= j <= 5 -> divider u = Int (2 ^ (10 * j)) ->
  is_empty (plural u) = false ->
  2 ^ (10 * j) <= x < 2 ^ 53 ->
  largest_unit disk_size_units x u ->
  exists word,
    (word = singular u \/ word = plural u)
    /\ format_size x false
       = Ok (numeral_text (hundredths x (2 ^ (10 * j))) ++ " " ++ word).
Proof.
  intros Hj Ed Hp Hx L. set (d := 2 ^ (10 * j)) in *.
  assert (Hd : 0 < d <= 2 ^ 50).
  { unfold d. split; [apply Z.pow_pos_nonneg; lia|].
    apply Z.pow_le_mono_r; lia. }
  rewrite (format_size_largest x false u L). unfold render_size.
  rewrite of_int_exact by lia. cbn [bind]. rewrite Ed.
  unfold num_div. cbn [num_is_zero].
  rewrite (proj2 (Z.eqb_neq d 0)) by lia.
  cbn [float_of_number bind]. rewrite of_int_exact by lia. cbn [bind Float.div].
  assert (D0 : (0 < inject_Z d)%Q)
    by (change 0%Q with (inject_Z 0); rewrite <- Zlt_Qlt; lia).
  assert (X0 : (0 <= inject_Z x)%Q)
    by (change 0%Q with (inject_Z 0); rewrite <- Zle_Qle; lia).
  assert (Ex : (inject_Z x / inject_Z d == inject_Z x * 2 ^ (- (10 * j)))%Q).
  { unfold d. rewrite FloatFacts.pow2_Z by lia.
    rewrite Qpower_opp. reflexivity. }
  assert (Q0 : (0 <= inject_Z x / inject_Z d)%Q)
    by (apply Qle_shift_div_l; lra).
  assert (Q1 : (inject_Z x / inject_Z d <= inject_Z x)%Q).
  { apply Qle_shift_div_r; [exact D0|].
    assert ((1 <= inject_Z d)%Q)
      by (change 1%Q with (inject_Z 1); rewrite <- Zle_Qle; lia).
    nra. }
  assert (X1 : (inject_Z x < 2 ^ 53)%Q).
  { rewrite <- (FloatFacts.pow2_Z 53) by lia. rewrite <- Zlt_Qlt. lia. }
  rewrite (FloatFacts.binary64_comp _ _ Ex), FloatFacts.binary64_exact.
  - rewrite round_number_text by (rewrite Qred_correct, <- Ex; exact Q0).
    cbn [bind].
    assert (Ek : Float.round_half_even
                   (Qred (inject_Z x * 2 ^ (- (10 * j))) * 100)
                 = hundredths x d).
    { apply FloatFacts.round_half_even_comp.
      rewrite Qred_correct, <- Ex. reflexivity. }
    rewrite Ek.
    destruct (hundredths_bounds x d ltac:(lia) ltac:(lia)) as [[U _] K100].
    apply pluralize_numeral_text; [lia| |exact Hp].
    apply Qlt_shift_div_r; [reflexivity|].
    assert (2 ^ 53 * 101 < 2 ^ 1023 * 100)%Q by reflexivity.
    assert (inject_Z d <= inject_Z x)%Q by (rewrite <- Zle_Qle; lia).
    assert (1 <= inject_Z d)%Q
      by (change 1%Q with (inject_Z 1); rewrite <- Zle_Qle; lia).
    set (K := inject_Z (hundredths x d)) in *. nra.
  - lia.
  - lia.
  - rewrite Z.abs_eq by lia. rewrite <- Ex.
    assert (2 ^ 53 < 2 ^ 1024)%Q by reflexivity. lra.
Qed.

(** [parse_size] of a rounded number and a unit name. *)
Lemma parse_size_text (k d : Z) (word : string) (u : unit) :
  0 <= k -> divider u = Int d ->
  no_digit word = true -> strip (" " ++ word) = word -> is_empty word = false ->
  find (prefix_matches (lower word)) disk_size_units = Some u ->
  parse_size (numeral_text k ++ " " ++ word)
  = (v <- num_mul (numeral_number k) (Int d) ;; int_of_number v).
Proof.
  intros Hk Ed Hn Hs He F. unfold parse_size.
  rewrite (tokenize_numeral_text k (" " ++ word) Hk Hn).
  unfold unit_tokens. rewrite Hs, He. cbn [bind].
  rewrite (parse_size_loop_find _ _ _ _ disk_size_units_prefix), F, Ed.
  reflexivity.
Qed.

(** The value read back from the text of [k] hundredths of the unit
    [2 ^ (10 * j)], when [k] is not a whole number of units: the float
    nearest to [k / 100], times the divider, truncated. *)
Lemma float_token_value (k j c b : Z) :
  0 <= j <= 5 -> 100 <= k < 100 * c -> c = 2 ^ (b + 1) -> 0 <= b <= 9 ->
  exists w r,
    (v <- num_mul (Float (Float.binary64 (inject_Z k / 100)))
                  (Int (2 ^ (10 * j))) ;;
     int_of_number v) = Ok r
    /\ (inject_Z k / 100 - 2 ^ (b - 53) <= w)%Q
    /\ (w <= inject_Z k / 100 + 2 ^ (b - 53))%Q
    /\ (inject_Z r <= w * inject_Z (2 ^ (10 * j)))%Q
    /\ (w * inject_Z (2 ^ (10 * j)) < inject_Z r + 1)%Q.
Proof.
  intros Hj Hk Hc Hb. set (d := 2 ^ (10 * j)).
  assert (Hd : 0 < d <= 2 ^ 50).
  { unfold d. split; [apply Z.pow_pos_nonneg; lia|].
    apply Z.pow_le_mono_r; lia. }
  assert (K0 : (100 <= inject_Z k)%Q)
    by (change 100%Q with (inject_Z 100); rewrite <- Zle_Qle; lia).
  assert (K1 : (inject_Z k < 100 * 2 ^ (b + 1))%Q).
  { rewrite <- FloatFacts.pow2_Z by lia. change 100%Q with (inject_Z 100).
    rewrite <- inject_Z_mult, <- Zlt_Qlt. lia. }
  assert (P : (0 < inject_Z k / 100)%Q) by (apply Qlt_shift_div_l; lra).
  assert (B : (inject_Z k / 100 < 2 ^ (b + 1))%Q)
    by (apply Qlt_shift_div_r; lra).
  destruct (FloatFacts.binary64_repr _ b P B ltac:(lia))
    as [m [e [E [Hm [He [Lo Hi]]]]]].
  rewrite E. unfold num_mul. cbn [float_of_number bind].
  rewrite of_int_exact by lia. cbn [bind Float.mul].
  assert (D : (inject_Z d == 2 ^ (10 * j))%Q)
    by (unfold d; apply FloatFacts.pow2_Z; lia).
  assert (V : (Qred (inject_Z m * 2 ^ e) * inject_Z d
               == inject_Z m * 2 ^ (e + 10 * j))%Q).
  { rewrite Qred_correct, D, FloatFacts.pow2_plus. ring. }
  pose proof (FloatFacts.pow2_pos e) as Pe.
  pose proof (FloatFacts.pow2_pos (10 * j)) as Pj.
  assert (M0 : (0 <= inject_Z m)%Q)
    by (change 0%Q with (inject_Z 0); rewrite <- Zle_Qle; lia).
  assert (Eb : (2 ^ (b - 53) <= 1)%Q).
  { change 1%Q with (2 ^ 0)%Q. apply FloatFacts.pow2_le. lia. }
  assert (Cb : (2 ^ (b + 1) <= 2 ^ 10)%Q) by (apply FloatFacts.pow2_le; lia).
  assert (Dj : (2 ^ (10 * j) <= 2 ^ 50)%Q) by (apply FloatFacts.pow2_le; lia).
  assert (Fi : (inject_Z m * 2 ^ (e + 10 * j) < 2 ^ 1024)%Q).
  { rewrite FloatFacts.pow2_plus.
    assert ((2 ^ 10 + 1) * 2 ^ 50 < 2 ^ 1024)%Q by reflexivity.
    assert (inject_Z m * 2 ^ e <= 2 ^ 10 + 1)%Q by lra.
    assert (0 <= inject_Z m * 2 ^ e)%Q by nra.
    nra. }
  rewrite (FloatFacts.binary64_comp _ _ V),
    FloatFacts.binary64_exact_le by (try lia; exact Fi).
  cbn [int_of_number Float.to_int].
  assert (W0 : (0 <= Qred (inject_Z m * 2 ^ (e + 10 * j)))%Q).
  { rewrite Qred_correct. pose proof (FloatFacts.pow2_pos (e + 10 * j)). nra. }
  rewrite (truncate_nonneg _ W0).
  exists (inject_Z m * 2 ^ e)%Q. eexists. split; [reflexivity|].
  split; [exact Lo|]. split; [exact Hi|].
  assert (Ew : (inject_Z m * 2 ^ e * inject_Z d
                == Qred (inject_Z m * 2 ^ (e + 10 * j)))%Q).
  { rewrite Qred_correct, D, FloatFacts.pow2_plus. ring. }
  fold d. rewrite Ew. split.
  - apply Qfloor_le.
  - pose proof (Qlt_floor (Qred (inject_Z m * 2 ^ (e + 10 * j)))) as F.
    rewrite inject_Z_plus in F. exact F.
Qed.

(** Evaluate the divider and the rounding bound once the unit is known. *)
Ltac unit_constants j b :=
  let D := eval vm_compute in (inject_Z (2 ^ (10 * j))) in
  let E := eval vm_compute in (2 ^ (b - 53))%Q in
  change (inject_Z (2 ^ (10 * j))) with D in *;
  change (2 ^ (b - 53))%Q with E in *.

Lemma inject_Z_minus (a b : Z) : inject_Z (a - b) = (inject_Z a - inject_Z b)%Q.
Proof.
  unfold Z.sub, Qminus. rewrite inject_Z_plus, inject_Z_opp. reflexivity.
Qed.

Lemma float_token_bound (x j b r : Z) (w : Q) :
  (b = 9 /\ 0 <= j <= 4) \/ (b = 2 /\ j = 5) ->
  let d := 2 ^ (10 * j) in
  let k := hundredths x d in
  (inject_Z k * inject_Z d <= 100 * inject_Z x + inject_Z d * (1 # 2))%Q ->
  (100 * inject_Z x - inject_Z d * (1 # 2) <= inject_Z k * inject_Z d)%Q ->
  (inject_Z k / 100 - 2 ^ (b - 53) <= w)%Q ->
  (w <= inject_Z k / 100 + 2 ^ (b - 53))%Q ->
  (inject_Z r <= w * inject_Z d)%Q ->
  (w * inject_Z d < inject_Z r + 1)%Q ->
  (Qabs (inject_Z (r - x)) <= (5 # 1000) * inject_Z d + 1)%Q.
Proof.
  intros Hb d k. subst d. generalize (inject_Z k). clear k.
  intros K U L Wl Wu Rl Ru.
  assert (EK : (K == 100 * (K / 100))%Q) by (field; discriminate).
  revert Wl Wu. generalize dependent (K / 100)%Q. intros H EK Wl Wu.
  assert (J : (b = 9 /\ (j = 0 \/ j = 1 \/ j = 2 \/ j = 3 \/ j = 4))
              \/ (b = 2 /\ j = 5)) by lia.
  clear Hb.
  assert (Up : (inject_Z (r - x) <= (5 # 1000) * inject_Z (2 ^ (10 * j)) + 1)%Q
               /\ (inject_Z (x - r)
                   < (5 # 1000) * inject_Z (2 ^ (10 * j)) + 1
                     + 2 ^ (b - 53) * inject_Z (2 ^ (10 * j)))%Q).
  { rewrite !inject_Z_minus.
    destruct J as [[-> [->|[->|[->|[->| ->]]]]]|[-> ->]];
      match goal with
      | |- context [(2 ^ (?b - 53))%Q] =>
          match goal with
          | |- context [inject_Z (2 ^ (10 * ?j))] => unit_constants j b
          end
      end; split; lra. }
  destruct Up as [Up Lo].
  apply Qabs_Qle_condition. split; [|exact Up].
  clear U L Wl Wu Rl Ru Up.
  destruct J as [[-> [->|[->|[->|[->| ->]]]]]|[-> ->]];
    match goal with
    | H : context [(2 ^ (?b - 53))%Q] |- _ =>
        match goal with
        | |- context [inject_Z (2 ^ (10 * ?j))] => unit_constants j b
        end
    end;
    unfold Qlt, Qle in *;
    cbn [Qnum Qden inject_Z Qplus Qmult Qopp Pos.mul Z.mul Z.add Z.opp] in *;
    lia.
Qed.

(** The value read back from the rounded number, whole or not. *)
Lemma parsed_bound (x j : Z) :
  0 <= j <= 5 ->
  2 ^ (10 * j) <= x < 2 ^ 53 ->
  (j <= 4 -> x < 1024 * 2 ^ (10 * j)) ->
  exists r,
    (v <- num_mul (numeral_number (hundredths x (2 ^ (10 * j))))
                  (Int (2 ^ (10 * j))) ;;
     int_of_number v) = Ok r
    /\ (Qabs (inject_Z (r - x)) <= (5 # 1000) * inject_Z (2 ^ (10 * j)) + 1)%Q.
Proof.
  intros Hj Hx Hn. set (d := 2 ^ (10 * j)) in *.
  assert (Hd : 0 < d) by (unfold d; apply Z.pow_pos_nonneg; lia).
  destruct (hundredths_bounds x d Hd ltac:(lia)) as [[U L] K100].
  set (k := hundredths x d) in *.
  unfold numeral_number. destruct (Z.eqb_spec (k mod 100) 0) as [M|M].
  - exists (k / 100 * d). split; [reflexivity|].
    assert (E : k = 100 * (k / 100)).
    { pose proof (Z.div_mod k 100 ltac:(lia)). lia. }
    rewrite E, inject_Z_mult in U, L. change (inject_Z 100) with 100%Q in U, L.
    assert (D0 : (0 < inject_Z d)%Q)
      by (change 0%Q with (inject_Z 0); rewrite <- Zlt_Qlt; lia).
    apply Qabs_Qle_condition. rewrite inject_Z_minus, inject_Z_mult.
    split; nra.
  - assert (C : exists b c,
                 c = 2 ^ (b + 1) /\ 0 <= b <= 9 /\ x < c * d
                 /\ ((b = 9 /\ 0 <= j <= 4) \/ (b = 2 /\ j = 5))).
    { destruct (Z.le_gt_cases j 4) as [J4|J5].
      - exists 9, 1024. repeat split; try lia.
      - exists 2, 8. assert (j = 5) by lia. subst j.
        repeat split; lia. }
    destruct C as [b [c [Ec [Hb [Hc Hbj]]]]].
    assert (C0 : 0 < c) by (subst c; apply Z.pow_pos_nonneg; lia).
    pose proof (hundredths_upper x d c Hd ltac:(lia)) as Ku. fold k in Ku.
    assert (Kc : k < 100 * c).
    { destruct (Z.eq_dec k (100 * c)) as [E|]; [|lia].
      exfalso. apply M. rewrite E, Z.mul_comm. apply Z.mod_mul. lia. }
    destruct (float_token_value k j c b Hj ltac:(lia) Ec Hb)
      as [w [r [E [Wl [Wu [Rl Ru]]]]]].
    exists r. split; [exact E|].
    exact (float_token_bound x j b r w Hbj U L Wl Wu Rl Ru).
Qed.

Lemma round_trip_unit (x j : Z) (u : unit) :
  0 <= j <= 5 -> divider u = Int (2 ^ (10 * j)) ->
  name_ok u (singular u) -> name_ok u (plural u) ->
  2 ^ (10 * j) <= x < 2 ^ 53 ->
  (j <= 4 -> x < 1024 * 2 ^ (10 * j)) ->
  largest_unit disk_size_units x u ->
  exists text r,
    format_size x false = Ok text
    /\ parse_size text = Ok r
    /\ (Qabs (inject_Z (r - x)) <= (5 # 1000) * inject_Z (2 ^ (10 * j)) + 1)%Q.
Proof.
  intros Hj Ed Hs Hp Hx Hn L.
  assert (Ep : is_empty (plural u) = false) by apply Hp.
  destruct (format_size_text x j u Hj Ed Ep Hx L) as [word [Hw F]].
  destruct (parsed_bound x j Hj Hx Hn) as [r [P B]].
  exists (numeral_text (hundredths x (2 ^ (10 * j))) ++ " " ++ word), r.
  split; [exact F|]. split; [|exact B].
  assert (Hd : 0 < 2 ^ (10 * j)) by (apply Z.pow_pos_nonneg; lia).
  destruct (hundredths_bounds x _ Hd ltac:(lia)) as [_ K100].
  assert (N : name_ok u word) by (destruct Hw as [->| ->]; assumption).
  destruct N as [N1 [N2 [N3 N4]]].
  assert (K0 : 0 <= hundredths x (2 ^ (10 * j))) by lia.
  rewrite (parse_size_text _ _ word u K0 Ed N1 N2 N3 N4).
  exact P.
Qed.

Lemma largest_unit_intro (x d : Z) (u : unit) :
  In u disk_size_units -> divider u = Int d -> d <= x ->
  (forall v e, In v disk_size_units -> divider v = Int e -> e <= x -> e <= d) ->
  largest_unit disk_size_units x u.
Proof.
  intros Hin Ed Hx Hmax. split; [exact Hin|]. split.
  - rewrite Ed, num_ge_int. apply Z.leb_le, Hx.
  - intros v Hv. rewrite Ed.
    assert (Ev : exists e, divider v = Int e).
    { simpl in Hv. destruct Hv as [<-|[<-|[<-|[<-|[<-|[<-|[]]]]]]]; eexists;
        reflexivity. }
    destruct Ev as [e Ev]. rewrite Ev, !num_ge_int.
    intros H. apply Z.leb_le in H. apply Z.leb_le. exact (Hmax v e Hv Ev H).
Qed.

Ltac table_maximum :=
  intros v e Hv Ev He; simpl in Hv;
  destruct Hv as [<-|[<-|[<-|[<-|[<-|[<-|[]]]]]]];
  injection Ev as <-; lia.

Lemma round_trip (x : Z) :
  0 <= x < 2 ^ 53 ->
  exists text r,
    format_size x false = Ok text
    /\ parse_size text = Ok r
    /\ (Qabs (inject_Z (r - x)) <= (5 # 1000) * inject_Z (selected_divider x) + 1)%Q.
Proof.
  intros Hx. unfold selected_divider.
  change (1024 ^ 5) with (2 ^ (10 * 5)). change (1024 ^ 4) with (2 ^ (10 * 4)).
  change (1024 ^ 3) with (2 ^ (10 * 3)). change (1024 ^ 2) with (2 ^ (10 * 2)).
  change (1024 ^ 1) with (2 ^ (10 * 1)).
  assert (P5 : 2 ^ (10 * 5) = 1125899906842624) by reflexivity.
  assert (P4 : 2 ^ (10 * 4) = 1099511627776) by reflexivity.
  assert (P3 : 2 ^ (10 * 3) = 1073741824) by reflexivity.
  assert (P2 : 2 ^ (10 * 2) = 1048576) by reflexivity.
  assert (P1 : 2 ^ (10 * 1) = 1024) by reflexivity.
  assert (P0 : 2 ^ (10 * 0) = 1) by reflexivity.
  destruct (Z.leb_spec (2 ^ (10 * 5)) x) as [L5|L5];
    [|destruct (Z.leb_spec (2 ^ (10 * 4)) x) as [L4|L4];
      [|destruct (Z.leb_spec (2 ^ (10 * 3)) x) as [L3|L3];
        [|destruct (Z.leb_spec (2 ^ (10 * 2)) x) as [L2|L2];
          [|destruct (Z.leb_spec (2 ^ (10 * 1)) x) as [L1|L1]]]]].
  - apply (round_trip_unit x 5 (mk_unit (Some "p") (Int (1024 ^ 5)) "PB" "PB"));
      try lia; try (repeat split; reflexivity).
    apply (largest_unit_intro x (2 ^ (10 * 5)));
      [simpl; tauto|reflexivity|lia|table_maximum].
  - apply (round_trip_unit x 4 (mk_unit (Some "t") (Int (1024 ^ 4)) "TB" "TB"));
      try lia; try (repeat split; reflexivity).
    apply (largest_unit_intro x (2 ^ (10 * 4)));
      [simpl; tauto|reflexivity|lia|table_maximum].
  - apply (round_trip_unit x 3 (mk_unit (Some "g") (Int (1024 ^ 3)) "GB" "GB"));
      try lia; try (repeat split; reflexivity).
    apply (largest_unit_intro x (2 ^ (10 * 3)));
      [simpl; tauto|reflexivity|lia|table_maximum].
  - apply (round_trip_unit x 2 (mk_unit (Some "m") (Int (1024 ^ 2)) "MB" "MB"));
      try lia; try (repeat split; reflexivity).
    apply (largest_unit_intro x (2 ^ (10 * 2)));
      [simpl; tauto|reflexivity|lia|table_maximum].
  - apply (round_trip_unit x 1 (mk_unit (Some "k") (Int (1024 ^ 1)) "KB" "KB"));
      try lia; try (repeat split; reflexivity).
    apply (largest_unit_intro x (2 ^ (10 * 1)));
      [simpl; tauto|reflexivity|lia|table_maximum].
  - change (inject_Z 1) with (inject_Z (2 ^ (10 * 0))).
    destruct (Z.eq_dec x 0) as [->|Hz].
    + exists "0 bytes", 0. repeat split. vm_compute. discriminate.
    + apply (round_trip_unit x 0 (mk_unit (Some "b") (Int 1) "byte" "bytes"));
        try lia; try (repeat split; reflexivity).
      apply (largest_unit_intro x (2 ^ (10 * 0)));
        [simpl; tauto|reflexivity|lia|table_maximum].
Qed.

Lemma selected_divider_largest (x : Z) :
  0 < x ->
  exists u,
    largest_unit disk_size_units x u
    /\ divider u = Int (selected_divider x)
    /\ format_size x false = render_size u x false.
Proof.
  intros Hx. unfold selected_divider.
  assert (P5 : 1024 ^ 5 = 1125899906842624) by reflexivity.
  assert (P4 : 1024 ^ 4 = 1099511627776) by reflexivity.
  assert (P3 : 1024 ^ 3 = 1073741824) by reflexivity.
  assert (P2 : 1024 ^ 2 = 1048576) by reflexivity.
  assert (P1 : 1024 ^ 1 = 1024) by reflexivity.
  assert (Any : forall u d,
             In u disk_size_units -> divider u = Int d -> d <= x ->
             (forall v e, In v disk_size_units -> divider v = Int e ->
                          e <= x -> e <= d) ->
             exists u, largest_unit disk_size_units x u
                       /\ divider u = Int d
                       /\ format_size x false = render_size u x false).
  { intros u d Hin Ed Hd Hmax. exists u.
    pose proof (largest_unit_intro x d u Hin Ed Hd Hmax) as L.
    split; [exact L|]. split; [exact Ed|].
    exact (format_size_largest x false u L). }
  destruct (Z.leb_spec (1024 ^ 5) x) as [L5|L5];
    [|destruct (Z.leb_spec (1024 ^ 4) x) as [L4|L4];
      [|destruct (Z.leb_spec (1024 ^ 3) x) as [L3|L3];
        [|destruct (Z.leb_spec (1024 ^ 2) x) as [L2|L2];
          [|destruct (Z.leb_spec (1024 ^ 1) x) as [L1|L1]]]]].
  - apply (Any (mk_unit (Some "p") (Int (1024 ^ 5)) "PB" "PB"));
      [simpl; tauto|reflexivity|lia|table_maximum].
  - apply (Any (mk_unit (Some "t") (Int (1024 ^ 4)) "TB" "TB"));
      [simpl; tauto|reflexivity|lia|table_maximum].
  - apply (Any (mk_unit (Some "g") (Int (1024 ^ 3)) "GB" "GB"));
      [simpl; tauto|reflexivity|lia|table_maximum].
  - apply (Any (mk_unit (Some "m") (Int (1024 ^ 2)) "MB" "MB"));
      [simpl; tauto|reflexivity|lia|table_maximum].
  - apply (Any (mk_unit (Some "k") (Int (1024 ^ 1)) "KB" "KB"));
      [simpl; tauto|reflexivity|lia|table_maximum].
  - apply (Any (mk_unit (Some "b") (Int 1) "byte" "bytes"));
      [simpl; tauto|reflexivity|lia|table_maximum].
Qed.

(** [parse_size] truncates as well: 1070 bytes are ["1.04 KB"], read back
    as [int(1064.96)], 6 bytes off where the rounding allows 5.12. *)
Lemma round_trip_truncation : ~ round_trip_within_rounding.
Proof.
  intros H. destruct (H 1070 ltac:(lia)) as [text [r [F [P B]]]].
  vm_compute in F. injection F as <-.
  vm_compute in P. injection P as <-.
  vm_compute in B. apply B. reflexivity.
Qed.

(** C1 (amended): for every size [0 <= x < 2 ^ 53], [parse_size] of
    [format_size x] is within the rounding to two decimals of the selected
    unit plus the truncation to an [int]:
    [|parse_size(format_size(x)) - x| <= 0.005 * d + 1], [d] the divider of
    the unit that [format_size] selects for [x].  The bound is reached at
    1070 bytes; from [2 ^ 53] on [float(x)] rounds as well and the bound
    fails, e.g. at 9147936743096321 bytes. *)
Theorem size_round_trip :
  (forall x,
      0 <= x < 2 ^ 53 ->
      exists text r,
        format_size x false = Ok text
        /\ parse_size text = Ok r
        /\ (Qabs (inject_Z (r - x))
            <= (5 # 1000) * inject_Z (selected_divider x) + 1)%Q)
  /\ (forall x,
         0 < x ->
         exists u,
           largest_unit disk_size_units x u
           /\ divider u = Int (selected_divider x)
           /\ format_size x false = render_size u x false)
  /\ selected_divider 0 = 1
  /\ format_size 1070 false = Ok "1.04 KB"
  /\ parse_size "1.04 KB" = Ok 1064
  /\ format_size 9147936743096321 false = Ok "8.12 PB"
  /\ parse_size "8.12 PB" = Ok 9142307243562106
  /\ ~ (Qabs (inject_Z (9142307243562106 - 9147936743096321))
        <= (5 # 1000) * inject_Z (selected_divider 9147936743096321) + 1)%Q.
Proof.
  split; [exact round_trip|]. split; [exact selected_divider_largest|].
  repeat split; try (vm_compute; reflexivity).
  vm_compute. intros H. apply H. reflexivity.
Qed.

Lemma size_round_trip_witness :
  0 <= 1070 < 2 ^ 53
  /\ exists text r,
       format_size 1070 false = Ok text
       /\ parse_size text = Ok r
       /\ (Qabs (inject_Z (r - 1070))
           <= (5 # 1000) * inject_Z (selected_divider 1070) + 1)%Q.
Proof.
  assert (B : 0 <= 1070 < 2 ^ 53) by (split; [lia|reflexivity]).
  split; [exact B|]. exact (proj1 size_round_trip 1070 B).
Defined.

(** * Properties of the further functions *)

(** ** [compact] *)

Lemma concat_cons_head (sep : string) (c : ascii) (l : list string) :
  l <> [] -> String.concat sep (cons_head c l) = String c (String.concat sep l).
Proof.
  destruct l as [|h [|h' t]]; simpl; intros H; try congruence; reflexivity.
Qed.

Lemma starts_word_split (s : string) :
  starts_word s = true -> split_whitespace s <> [].
Proof.
  destruct s as [|c s']; simpl; [discriminate|].
  intros H. apply negb_true_iff in H. rewrite H.
  destruct (starts_word s'); [|discriminate].
  destruct (split_whitespace s'); simpl; discriminate.
Qed.

Lemma split_whitespace_words (s : string) :
  Forall is_word (split_whitespace s).
Proof.
  induction s as [|c s' IH]; simpl; [constructor|].
  destruct (is_space c) eqn:Ec; [exact IH|].
  destruct (starts_word s') eqn:Ew.
  - destruct (split_whitespace s') as [|h r] eqn:Es.
    + exfalso. now apply (starts_word_split s').
    + simpl. inversion IH as [|? ? [H1 H2] H3]; subst.
      constructor; [|exact H3]. split; [reflexivity|].
      simpl. now rewrite Ec, H2.
  - constructor; [|exact IH]. split; [reflexivity|]. simpl. now rewrite Ec.
Qed.

Lemma split_whitespace_nil (s : string) :
  split_whitespace s = [] <-> all_space s = true.
Proof.
  induction s as [|c s' IH]; simpl; [tauto|].
  destruct (is_space c) eqn:Ec; simpl; [exact IH|].
  split; [|discriminate].
  destruct (starts_word s'); [|discriminate].
  destruct (split_whitespace s'); simpl; discriminate.
Qed.

Lemma single_spaced_lstrip (s : string) :
  single_spaced s = true -> String.concat " " (split_whitespace s) = lstrip s.
Proof.
  induction s as [|c s' IH]; simpl; [reflexivity|].
  destruct (is_space c) eqn:Ec.
  - intros H. apply andb_true_iff in H. apply IH, H.
  - simpl. intros H. specialize (IH H).
    destruct (starts_word s') eqn:Ew.
    + rewrite concat_cons_head by now apply starts_word_split.
      rewrite IH. f_equal. apply lstrip_clean.
      destruct s'; [reflexivity|exact Ew].
    + destruct s' as [|d s'']; [reflexivity|].
      simpl in Ew. apply negb_false_iff in Ew.
      simpl in H. rewrite Ew in H.
      apply andb_true_iff in H. destruct H as [H _].
      apply andb_true_iff in H. destruct H as [Hd Hw].
      apply Ascii.eqb_eq in Hd. subst d.
      simpl in IH. simpl.
      destruct (split_whitespace s'') as [|h r] eqn:Es.
      * exfalso. now apply (starts_word_split s'').
      * rewrite IH. f_equal. f_equal. apply lstrip_clean.
        destruct s''; [reflexivity|exact Hw].
Qed.

Lemma split_whitespace_word (w x : string) :
  is_word w -> starts_word x = false ->
  split_whitespace (w ++ x) = w :: split_whitespace x.
Proof.
  intros [Hn Hs]. revert Hn Hs. induction w as [|c w' IH]; [discriminate|].
  intros _ Hs Hx. simpl in Hs. apply andb_true_iff in Hs. destruct Hs as [Hc Hw].
  apply negb_true_iff in Hc. simpl. rewrite Hc.
  destruct w' as [|d w''].
  - simpl. now rewrite Hx.
  - assert (E : starts_word (String d w'' ++ x) = true).
    { simpl. simpl in Hw. now apply andb_true_iff in Hw. }
    rewrite E. rewrite IH by (try reflexivity; assumption). reflexivity.
Qed.

Lemma split_whitespace_concat (ws : list string) :
  Forall is_word ws -> split_whitespace (String.concat " " ws) = ws.
Proof.
  induction 1 as [|w ws Hw Hws IH]; [reflexivity|].
  destruct ws as [|w2 r].
  - simpl. rewrite <- (append_nil_r w) at 1.
    now rewrite split_whitespace_word.
  - change (String.concat " " (w :: w2 :: r))
      with (w ++ " " ++ String.concat " " (w2 :: r)).
    rewrite split_whitespace_word by (try assumption; reflexivity).
    f_equal. exact IH.
Qed.

Lemma single_spaced_word (w x : string) :
  no_space w = true -> single_spaced x = true -> single_spaced (w ++ x) = true.
Proof.
  intros Hw Hx. induction w as [|c w' IH]; [exact Hx|].
  simpl in *. apply andb_true_iff in Hw. destruct Hw as [Hc Hw].
  apply negb_true_iff in Hc. rewrite Hc. simpl. now apply IH.
Qed.

Lemma starts_word_concat (w : string) (r : list string) :
  is_word w -> starts_word (String.concat " " (w :: r)) = true.
Proof.
  intros [Hn Hs]. destruct w as [|c w']; [discriminate|].
  simpl in Hs. apply andb_true_iff in Hs.
  destruct r; simpl; apply Hs.
Qed.

Lemma concat_words_normal (ws : list string) :
  Forall is_word ws ->
  starts_clean (String.concat " " ws) = true
  /\ single_spaced (String.concat " " ws) = true.
Proof.
  induction 1 as [|w ws [Hn Hs] Hws [IH1 IH2]]; [split; reflexivity|].
  assert (Hc : forall x, starts_clean (w ++ x) = true).
  { intros x. destruct w as [|c w']; [discriminate|].
    simpl in *. now apply andb_true_iff in Hs. }
  destruct ws as [|w2 r].
  - simpl. split.
    + rewrite <- (append_nil_r w). apply Hc.
    + rewrite <- (append_nil_r w). now apply single_spaced_word.
  - change (String.concat " " (w :: w2 :: r))
      with (w ++ " " ++ String.concat " " (w2 :: r)).
    split; [apply Hc|].
    apply single_spaced_word; [exact Hs|].
    inversion Hws as [|? ? Hw2 _]; subst.
    pose proof (starts_word_concat w2 r Hw2) as E.
    remember (String.concat " " (w2 :: r)) as x.
    simpl. now rewrite E, IH2.
Qed.

(** ** [trim_empty_lines] *)

Lemma concat_empty_flatten (l : list string) : String.concat "" l = flatten l.
Proof.
  induction l as [|a [|b r] IH]; simpl; [reflexivity| |].
  - now rewrite append_nil_r.
  - simpl in IH. now rewrite IH.
Qed.

Lemma flatten_app (l1 l2 : list string) :
  flatten (l1 ++ l2) = flatten l1 ++ flatten l2.
Proof.
  induction l1 as [|a l1 IH]; simpl; [reflexivity|].
  now rewrite IH, append_assoc.
Qed.

Lemma append_inv_head (s t1 t2 : string) : s ++ t1 = s ++ t2 -> t1 = t2.
Proof. induction s; simpl; intros H; [exact H|]. injection H. auto. Qed.

Lemma is_empty_line_space (l : string) : is_empty_line l = all_space l.
Proof.
  unfold is_empty_line, isspace. destruct l as [|c l']; [reflexivity|].
  simpl. reflexivity.
Qed.

Lemma all_space_flatten (l : list string) :
  Forall (fun s => is_empty_line s = true) l -> all_space (flatten l) = true.
Proof.
  induction 1 as [|a l Ha _ IH]; [reflexivity|].
  simpl. rewrite all_space_app, IH, <- is_empty_line_space, Ha. reflexivity.
Qed.

Lemma splitlines_flatten (t : string) : flatten (splitlines t) = t.
Proof.
  induction t as [|c t' IH]; [reflexivity|].
  simpl. destruct (_ && _).
  - simpl. now rewrite IH.
  - now rewrite flatten_cons_head, IH.
Qed.

Lemma splitlines_nonempty (t : string) :
  Forall (fun l => is_empty l = false) (splitlines t).
Proof.
  induction t as [|c t' IH]; simpl; [constructor|].
  destruct (_ && _).
  - now constructor.
  - destruct (splitlines t') as [|h r]; simpl.
    + now constructor.
    + inversion IH; subst. now constructor.
Qed.

Lemma starts_with_char_app (c : ascii) (h x : string) :
  is_empty h = false -> starts_with_char c (h ++ x) = starts_with_char c h.
Proof. destruct h; [discriminate|reflexivity]. Qed.

Lemma splitlines_first (t l : string) (ls : list string) :
  splitlines t = l :: ls -> exists t', t = l ++ t' /\ splitlines t' = ls.
Proof.
  revert l ls. induction t as [|c t' IH]; simpl; [discriminate|].
  intros l ls. destruct (_ && _).
  - intros H. injection H as <- <-. now exists t'.
  - destruct (splitlines t') as [|h r] eqn:E; simpl; intros H; injection H as <- <-.
    + exists "". split; [|reflexivity].
      pose proof (splitlines_flatten t') as F. rewrite E in F. now subst t'.
    + destruct (IH h r eq_refl) as (t'' & -> & F).
      exists t''. now split.
Qed.

Lemma splitlines_suffix (l1 l2 : list string) :
  forall t, splitlines t = (l1 ++ l2)%list -> splitlines (flatten l2) = l2.
Proof.
  induction l1 as [|a l1 IH]; simpl; intros t H.
  - rewrite <- H. now rewrite splitlines_flatten.
  - apply splitlines_first in H. destruct H as (t' & _ & H). now apply (IH t').
Qed.

Lemma splitlines_head_char (t : string) (h : string) (r : list string) (c : ascii) :
  splitlines t = h :: r -> starts_with_char c h = starts_with_char c t.
Proof.
  intros H. pose proof (splitlines_nonempty t) as N. rewrite H in N.
  inversion N; subst.
  apply splitlines_first in H. destruct H as (t' & -> & _).
  now rewrite starts_with_char_app.
Qed.

Lemma splitlines_prefix (t : string) :
  forall l1 l2, splitlines t = (l1 ++ l2)%list -> splitlines (flatten l1) = l1.
Proof.
  induction t as [|c t' IH]; simpl; intros l1 l2.
  - destruct l1; [reflexivity|discriminate].
  - destruct l1 as [|a l1]; [reflexivity|].
    destruct (is_line_break c && negb (Ascii.eqb c "013" && starts_with_char LF t'))
      eqn:B.
    + simpl. intros H. injection H as <- H.
      specialize (IH _ _ H).
      change (String c "" ++ flatten l1) with (String c (flatten l1)).
      cbn [splitlines]. rewrite IH.
      assert (E : starts_with_char LF (flatten l1) = starts_with_char LF t'
                  \/ l1 = []).
      { destruct l1 as [|h r]; [now right|left].
        simpl. pose proof (splitlines_nonempty t') as N. rewrite H in N.
        inversion N; subst. rewrite starts_with_char_app by assumption.
        now apply (splitlines_head_char t' h (r ++ l2)%list). }
      destruct E as [E| ->].
      * now rewrite E, B.
      * simpl. apply andb_true_iff in B. destruct B as [B _]. rewrite B.
        now rewrite andb_false_r.
    + destruct (splitlines t') as [|h r] eqn:E; simpl; intros H; injection H as <- H.
      * destruct l1; [|discriminate]. simpl.
        pose proof (splitlines_flatten t') as F. rewrite E in F. subst t'.
        simpl in B. now rewrite B.
      * specialize (IH (h :: l1) l2). simpl in IH. rewrite H in IH.
        specialize (IH eq_refl).
        pose proof (splitlines_nonempty t') as N. rewrite E in N.
        inversion N; subst.
        simpl.
        assert (S : starts_with_char LF (h ++ flatten l1) = starts_with_char LF t').
        { rewrite starts_with_char_app by assumption.
          now apply (splitlines_head_char t' h (l1 ++ l2)%list). }
        rewrite S, B, IH. reflexivity.
Qed.

Lemma pop_leading_split (lines : list string) :
  exists pre,
    lines = (pre ++ pop_leading lines)%list
    /\ Forall (fun s => is_empty_line s = true) pre
    /\ starts_with_text (pop_leading lines) = true.
Proof.
  induction lines as [|a l (pre & E & F & S)]; simpl.
  - exists []. repeat split. constructor.
  - destruct (is_empty_line a) eqn:Ea.
    + exists (a :: pre). simpl. split; [now f_equal|]. split; [|exact S].
      now constructor.
    + exists []. simpl. rewrite Ea. repeat split. constructor.
Qed.

Lemma pop_trailing_split (lines : list string) :
  exists post,
    lines = (pop_trailing lines ++ post)%list
    /\ Forall (fun s => is_empty_line s = true) post.
Proof.
  induction lines as [|a l (post & E & F)]; simpl.
  - exists []. split; [reflexivity|constructor].
  - destruct (is_empty_line a && is_nil (pop_trailing l)) eqn:Ea.
    + apply andb_true_iff in Ea. destruct Ea as [Ea En].
      destruct (pop_trailing l); [|discriminate]. simpl in E. subst l.
      exists (a :: post). split; [reflexivity|now constructor].
    + exists post. simpl. split; [now f_equal|exact F].
Qed.

Lemma pop_trailing_idem (lines : list string) :
  pop_trailing (pop_trailing lines) = pop_trailing lines.
Proof.
  induction lines as [|a l IH]; simpl; [reflexivity|].
  destruct (is_empty_line a && is_nil (pop_trailing l)) eqn:Ea; [reflexivity|].
  simpl. now rewrite IH, Ea.
Qed.

Lemma pop_trailing_starts (lines : list string) :
  starts_with_text lines = true -> starts_with_text (pop_trailing lines) = true.
Proof.
  destruct lines as [|a l]; simpl; [reflexivity|].
  intros H. apply negb_true_iff in H. rewrite H. simpl. now rewrite H.
Qed.

Lemma pop_leading_fixed (lines : list string) :
  starts_with_text lines = true -> pop_leading lines = lines.
Proof.
  destruct lines as [|a l]; simpl; [reflexivity|].
  intros H. apply negb_true_iff in H. now rewrite H.
Qed.

(** The lines that [trim_empty_lines] keeps. *)
Lemma trim_empty_lines_kept (text : string) :
  exists pre mid post,
    splitlines text = (pre ++ mid ++ post)%list
    /\ Forall (fun s => is_empty_line s = true) pre
    /\ Forall (fun s => is_empty_line s = true) post
    /\ starts_with_text mid = true
    /\ pop_trailing mid = mid
    /\ trim_empty_lines text = flatten mid.
Proof.
  unfold trim_empty_lines.
  destruct (pop_leading_split (splitlines text)) as (pre & E & F & S).
  destruct (pop_trailing_split (pop_leading (splitlines text))) as (post & E' & F').
  exists pre, (pop_trailing (pop_leading (splitlines text))), post.
  split; [now rewrite <- E'|]. split; [exact F|]. split; [exact F'|].
  split; [now apply pop_trailing_starts|].
  split; [apply pop_trailing_idem|apply concat_empty_flatten].
Qed.

Lemma trim_empty_lines_split (text : string) :
  exists pre post,
    text = pre ++ trim_empty_lines text ++ post
    /\ all_space pre = true /\ all_space post = true.
Proof.
  destruct (trim_empty_lines_kept text) as (pre & mid & post & E & F & F' & _ & _ & T).
  exists (flatten pre), (flatten post). rewrite T.
  split; [|split; now apply all_space_flatten].
  rewrite <- !flatten_app, <- E. symmetry. apply splitlines_flatten.
Qed.

Lemma trim_empty_lines_idem (text : string) :
  trim_empty_lines (trim_empty_lines text) = trim_empty_lines text.
Proof.
  destruct (trim_empty_lines_kept text) as (pre & mid & post & E & _ & _ & S & P & T).
  rewrite T. unfold trim_empty_lines.
  assert (M : splitlines (flatten mid) = mid).
  { apply (splitlines_prefix (flatten (mid ++ post)) mid post).
    apply (splitlines_suffix pre _ text). exact E. }
  rewrite M, pop_leading_fixed by exact S. rewrite P. apply concat_empty_flatten.
Qed.

(** ** [split_paragraphs] *)

Lemma substring_refl (s : string) : substring s s.
Proof. exists "", "". simpl. now rewrite append_nil_r. Qed.

Lemma substring_trans (a b c : string) :
  substring a b -> substring b c -> substring a c.
Proof.
  intros (x & y & ->) (u & v & ->).
  exists (u ++ x), (y ++ v). now rewrite !append_assoc.
Qed.

Lemma substring_cons (c : ascii) (a b : string) :
  substring a b -> substring a (String c b).
Proof. intros (x & y & ->). now exists (String c x), y. Qed.

Lemma In_cons_head (c : ascii) (l : list string) (x : string) :
  In x (cons_head c l) ->
  (exists h, x = String c h /\ (l = [] /\ h = "" \/ exists r, l = h :: r))
  \/ (exists h r, l = h :: r /\ In x r).
Proof.
  destruct l as [|h r]; simpl.
  - intros [<-|[]]. left. exists "". auto.
  - intros [<-|H].
    + left. exists h. split; [reflexivity|]. right. now exists r.
    + right. now exists h, r.
Qed.

Lemma split_blank_line_step (c d : ascii) (t : string) :
  split_blank_line (String c (String d t))
  = if Ascii.eqb c LF && Ascii.eqb d LF
    then "" :: split_blank_line t
    else cons_head c (split_blank_line (String d t)).
Proof. reflexivity. Qed.

Lemma split_blank_line_prefix (t : string) :
  (forall h r, split_blank_line t = h :: r -> exists y, t = h ++ y)
  /\ (forall c h r, split_blank_line (String c t) = h :: r ->
        exists y, String c t = h ++ y).
Proof.
  induction t as [|d t' [IH1 IH2]].
  - split.
    + simpl. intros h r H. injection H as <- <-. now exists "".
    + simpl. intros c h r H. injection H as <- <-. now exists "".
  - split; [intros h r; apply IH2|].
    intros c h r. rewrite split_blank_line_step.
    destruct (Ascii.eqb c LF && Ascii.eqb d LF).
    + intros H. injection H as <- <-. now exists (String c (String d t')).
    + destruct (split_blank_line (String d t')) as [|h' r'] eqn:E; simpl;
        intros H; injection H as <- <-.
      * now exists (String d t').
      * destruct (IH2 d h' r' E) as (y & ->). now exists y.
Qed.

Lemma split_blank_line_chunks (t : string) :
  (forall x, In x (split_blank_line t) -> substring x t)
  /\ (forall c x, In x (split_blank_line (String c t)) -> substring x (String c t)).
Proof.
  induction t as [|d t' [IH1 IH2]].
  - split.
    + simpl. intros x [<-|[]]. apply substring_refl.
    + simpl. intros c x [<-|[]]. apply substring_refl.
  - split; [intros x; apply IH2|].
    intros c x. rewrite split_blank_line_step.
    destruct (Ascii.eqb c LF && Ascii.eqb d LF).
    + intros [<-|H].
      * now exists "", (String c (String d t')).
      * apply substring_cons, substring_cons. now apply IH1.
    + intros H. apply In_cons_head in H.
      destruct H as [(h & -> & [[E ->]|(r & E)])|(h & r & E & H)].
      * now exists "", (String d t').
      * destruct (proj2 (split_blank_line_prefix t') d h r E) as (y & ->).
        now exists "", y.
      * apply substring_cons. apply IH2. rewrite E. now right.
Qed.

Lemma has_blank_line_cons_head (c : ascii) (h : string) :
  has_blank_line (String c h)
  = (Ascii.eqb c LF && starts_with_char LF h) || has_blank_line h.
Proof. reflexivity. Qed.

Lemma split_blank_line_head (t : string) :
  (forall h r, split_blank_line t = h :: r ->
     has_blank_line h = false
     /\ (starts_with_char LF h = true -> starts_with_char LF t = true)
     /\ (h = "" -> t = "" \/ exists t', t = String LF (String LF t')))
  /\ (forall c h r, split_blank_line (String c t) = h :: r ->
     has_blank_line h = false
     /\ (starts_with_char LF h = true -> Ascii.eqb c LF = true)
     /\ (h = "" -> exists t', t = String LF t' /\ c = LF)).
Proof.
  induction t as [|d t' [IH1 IH2]].
  - split.
    + simpl. intros h r H. injection H as <- <-. repeat split; simpl; auto; intros; try discriminate; congruence.
    + simpl. intros c h r H. injection H as <- <-. simpl.
      rewrite andb_false_r. repeat split; simpl; auto; intros; try discriminate; congruence.
  - split.
    + intros h r H. destruct (IH2 d h r H) as (A & B & C).
      split; [exact A|]. split; [exact B|].
      intros E. destruct (C E) as (t'' & -> & ->). right. now exists t''.
    + intros c h r. rewrite split_blank_line_step.
      destruct (Ascii.eqb c LF) eqn:Ec, (Ascii.eqb d LF) eqn:Ed; cbn [andb].
      * intros H. injection H as <- <-. apply Ascii.eqb_eq in Ec, Ed. subst.
        repeat split; auto. intros _. now exists t'.
      * destruct (split_blank_line (String d t')) as [|h' r'] eqn:E; simpl;
          intros H; injection H as <- <-.
        -- simpl. rewrite andb_false_r. repeat split; simpl; auto; intros; try discriminate; congruence.
        -- destruct (IH2 d h' r' E) as (A & B & C).
           rewrite has_blank_line_cons_head, A, orb_false_r.
           split; [|split; [simpl; auto|discriminate]].
           destruct (starts_with_char LF h') eqn:S; [|now rewrite andb_false_r].
           rewrite B in Ed by reflexivity. discriminate.
      * destruct (split_blank_line (String d t')) as [|h' r'] eqn:E; simpl;
          intros H; injection H as <- <-.
        -- simpl. rewrite Ec. repeat split; simpl; auto; intros; try discriminate; congruence.
        -- destruct (IH2 d h' r' E) as (A & B & C).
           rewrite has_blank_line_cons_head, A, Ec. simpl.
           repeat split; simpl; auto; intros; try discriminate; congruence.
      * destruct (split_blank_line (String d t')) as [|h' r'] eqn:E; simpl;
          intros H; injection H as <- <-.
        -- simpl. rewrite Ec. repeat split; simpl; auto; intros; try discriminate; congruence.
        -- destruct (IH2 d h' r' E) as (A & B & C).
           rewrite has_blank_line_cons_head, A, Ec. simpl.
           repeat split; simpl; auto; intros; try discriminate; congruence.
Qed.
Lemma split_blank_line_no_blank (t : string) :
  Forall (fun x => has_blank_line x = false) (split_blank_line t)
  /\ forall c, Forall (fun x => has_blank_line x = false)
                 (split_blank_line (String c t)).
Proof.
  induction t as [|d t' [IH1 IH2]].
  - split; [now repeat constructor|].
    intros c. simpl. repeat constructor. simpl. now rewrite andb_false_r.
  - split; [apply IH2|].
    intros c. rewrite split_blank_line_step.
    destruct (Ascii.eqb c LF && Ascii.eqb d LF) eqn:B.
    + now constructor.
    + destruct (split_blank_line (String d t')) as [|h' r'] eqn:E; simpl.
      * repeat constructor. simpl. now rewrite andb_false_r.
      * specialize (IH2 d). rewrite E in IH2. inversion IH2; subst.
        constructor; [|assumption].
        destruct (proj2 (split_blank_line_head t') d h' r' E) as (A & S & _).
        rewrite has_blank_line_cons_head, A, orb_false_r.
        destruct (starts_with_char LF h'); [|apply andb_false_r].
        rewrite S in B by reflexivity. now rewrite andb_true_r in B |- *.
Qed.

Lemma has_blank_line_app_l (a b : string) :
  has_blank_line (a ++ b) = false -> has_blank_line b = false.
Proof.
  induction a as [|c a' IH]; simpl; [auto|].
  intros H. apply orb_false_iff in H. now apply IH.
Qed.

Lemma has_blank_line_app_r (a b : string) :
  has_blank_line (a ++ b) = false -> has_blank_line a = false.
Proof.
  induction a as [|c a' IH]; simpl; [auto|].
  intros H. apply orb_false_iff in H. destruct H as [H1 H2].
  rewrite (IH H2), orb_false_r.
  destruct (Ascii.eqb c LF); [|reflexivity]. simpl in *.
  destruct a'; [reflexivity|exact H1].
Qed.

Lemma has_blank_line_substring (p t : string) :
  substring p t -> has_blank_line t = false -> has_blank_line p = false.
Proof.
  intros (a & b & ->) H.
  now apply has_blank_line_app_l, has_blank_line_app_r in H.
Qed.

Lemma trim_empty_lines_substring (text : string) :
  substring (trim_empty_lines text) text.
Proof.
  destruct (trim_empty_lines_split text) as (pre & post & E & _).
  now exists pre, post.
Qed.

Lemma split_paragraphs_loop_filter (chunks : list string) :
  forall acc,
    split_paragraphs_loop chunks acc
    = (acc ++ filter (fun p => negb (is_empty p) && negb (isspace p))
                (map trim_empty_lines chunks))%list.
Proof.
  induction chunks as [|ch rest IH]; intros acc; simpl.
  - now rewrite app_nil_r.
  - destruct (negb (is_empty (trim_empty_lines ch))
              && negb (isspace (trim_empty_lines ch))).
    + rewrite IH, <- app_assoc. reflexivity.
    + apply IH.
Qed.

Lemma all_space_trim (text : string) :
  all_space text = true -> trim_empty_lines text = "".
Proof.
  intros H. destruct (trim_empty_lines_split text) as (pre & post & E & _).
  rewrite E in H. rewrite !all_space_app in H.
  apply andb_true_iff in H. destruct H as [_ H].
  apply andb_true_iff in H. destruct H as [H _].
  destruct (trim_empty_lines_kept text) as (p & mid & q & _ & _ & _ & S & P & T).
  rewrite T in *. destruct mid as [|l m]; [reflexivity|].
  simpl in S. rewrite is_empty_line_space in S.
  simpl in H. rewrite all_space_app in H.
  apply andb_true_iff in H. destruct H as [H _]. now rewrite H in S.
Qed.

(** ** [join_lines] *)

Lemma join_lines_sub_step (a b c : ascii) (rest : string) :
  join_lines_sub (String a (String b (String c rest)))
  = if negb (is_space a) && Ascii.eqb b LF && negb (is_space c)
    then String a (String " " (String c (join_lines_sub rest)))
    else String a (join_lines_sub (String b (String c rest))).
Proof. reflexivity. Qed.

(** Induction along the way [join_lines_sub] reads a text: a match takes
    three characters, anything else one. *)
Lemma join_lines_ind (P : string -> Prop) :
  P "" ->
  (forall a, P (String a "")) ->
  (forall a b, P (String a (String b ""))) ->
  (forall a b c rest,
      P rest -> P (String b (String c rest)) ->
      P (String a (String b (String c rest)))) ->
  forall t, P t.
Proof.
  intros H0 H1 H2 H3 t.
  assert (G : forall n t, (String.length t <= n)%nat -> P t).
  { clear t. induction n as [|n IH]; intros t L.
    - destruct t; [exact H0|simpl in L; lia].
    - destruct t as [|a [|b [|c rest]]]; auto.
      apply H3; apply IH; simpl in *; lia. }
  now apply (G (String.length t)).
Qed.

Lemma unwrapped_refl_char (a : ascii) (s r : string) :
  unwrapped s r = true -> unwrapped (String a s) (String a r) = true.
Proof. intros H. simpl. now rewrite Ascii.eqb_refl, H. Qed.

Lemma join_lines_sub_unwrapped (t : string) :
  unwrapped t (join_lines_sub t) = true.
Proof.
  induction t as [|a|a b|a b c rest IH1 IH2] using join_lines_ind;
    try (simpl; now rewrite ?Ascii.eqb_refl).
  rewrite join_lines_sub_step.
  destruct (negb (is_space a) && Ascii.eqb b LF && negb (is_space c)) eqn:M.
  - apply andb_true_iff in M. destruct M as [M _].
    apply andb_true_iff in M. destruct M as [_ M].
    cbn [unwrapped]. rewrite !Ascii.eqb_refl, M, IH1. simpl.
    now rewrite orb_true_r.
  - now apply unwrapped_refl_char.
Qed.

Lemma is_space_LF : is_space LF = true.
Proof. reflexivity. Qed.

Lemma join_lines_sub_space (a : ascii) (t : string) :
  is_space a = true -> join_lines_sub (String a t) = String a (join_lines_sub t).
Proof.
  intros H. destruct t as [|b [|c r]]; try reflexivity.
  rewrite join_lines_sub_step, H. reflexivity.
Qed.

Lemma join_lines_sub_blank (x y : string) :
  join_lines_sub (x ++ String LF (String LF y))
  = join_lines_sub x ++ String LF (String LF (join_lines_sub y)).
Proof.
  assert (E : join_lines_sub (String LF (String LF y))
              = String LF (String LF (join_lines_sub y))).
  { now rewrite !join_lines_sub_space by apply is_space_LF. }
  induction x as [|a|a b|a b c rest IH1 IH2] using join_lines_ind.
  - exact E.
  - cbn [append]. rewrite join_lines_sub_step.
    rewrite is_space_LF, andb_false_r. now rewrite E.
  - cbn [append]. rewrite join_lines_sub_step.
    rewrite is_space_LF, andb_false_r.
    rewrite join_lines_sub_step.
    rewrite is_space_LF, andb_false_r. now rewrite E.
  - cbn [append]. rewrite !join_lines_sub_step.
    destruct (negb (is_space a) && Ascii.eqb b LF && negb (is_space c)).
    + cbn [append]. now rewrite IH1.
    + cbn [append] in IH2. rewrite IH2. reflexivity.
Qed.

Lemma join_lines_sub_pair (x : string) (c : ascii) (y : string) :
  lacks LF x = true -> ends_word x = true -> is_space c = false ->
  join_lines_sub (x ++ String LF (String c y))
  = x ++ String " " (String c (join_lines_sub y)).
Proof.
  intros L E C. induction x as [|a x' IH]; [discriminate|].
  cbn [append]. destruct x' as [|b x''].
  - cbn [append]. rewrite join_lines_sub_step.
    simpl in E. rewrite E, C. reflexivity.
  - simpl in L. apply andb_true_iff in L. destruct L as [_ L].
    assert (Hb : Ascii.eqb b LF = false).
    { apply andb_true_iff in L. destruct L as [L _]. now apply negb_true_iff. }
    specialize (IH L E).
    cbn [append] in *.
    destruct (x'' ++ String LF (String c y)) as [|d r] eqn:X.
    + destruct x''; discriminate.
    + rewrite join_lines_sub_step, Hb, andb_false_r. cbn [andb].
      now rewrite IH.
Qed.

(** ** [split] *)

Lemma split_char_nonempty (sep : ascii) (t : string) : split_char sep t <> [].
Proof.
  destruct t as [|c t']; simpl; [discriminate|].
  destruct (Ascii.eqb c sep); [discriminate|].
  destruct (split_char sep t'); discriminate.
Qed.

Lemma split_char_lacks (sep : ascii) (t : string) :
  Forall (fun x => lacks sep x = true) (split_char sep t).
Proof.
  induction t as [|c t' IH]; simpl; [now repeat constructor|].
  destruct (Ascii.eqb c sep) eqn:E; [now constructor|].
  destruct (split_char sep t') as [|h r]; simpl.
  - repeat constructor. simpl. now rewrite E.
  - inversion IH; subst. constructor; [|assumption]. simpl. now rewrite E.
Qed.

Lemma split_char_item (sep : ascii) (x rest : string) :
  lacks sep x = true ->
  split_char sep (x ++ String sep rest) = x :: split_char sep rest.
Proof.
  intros L. induction x as [|c x' IH]; simpl.
  - now rewrite Ascii.eqb_refl.
  - simpl in L. apply andb_true_iff in L. destruct L as [Lc L].
    apply negb_true_iff in Lc. rewrite Lc, IH by exact L. reflexivity.
Qed.

Lemma split_char_last (sep : ascii) (x : string) :
  lacks sep x = true -> split_char sep x = [x].
Proof.
  intros L. induction x as [|c x' IH]; simpl; [reflexivity|].
  simpl in L. apply andb_true_iff in L. destruct L as [Lc L].
  apply negb_true_iff in Lc. rewrite Lc, IH by exact L. reflexivity.
Qed.

Lemma split_char_pad (sep : ascii) (pad t : string) :
  lacks sep pad = true ->
  split_char sep (pad ++ t)
  = match split_char sep t with
    | h :: r => (pad ++ h) :: r
    | [] => []
    end.
Proof.
  intros L. induction pad as [|c p IH]; simpl.
  - now destruct (split_char sep t).
  - simpl in L. apply andb_true_iff in L. destruct L as [Lc L].
    apply negb_true_iff in Lc. rewrite Lc, IH by exact L.
    pose proof (split_char_nonempty sep t) as N.
    destruct (split_char sep t); [congruence|reflexivity].
Qed.

Lemma lacks_app (c : ascii) (a b : string) :
  lacks c (a ++ b) = lacks c a && lacks c b.
Proof.
  induction a as [|d a' IH]; simpl; [reflexivity|].
  now rewrite IH, andb_assoc.
Qed.

Lemma lacks_strip (c : ascii) (s : string) :
  lacks c s = true -> lacks c (strip s) = true.
Proof.
  intros H. destruct (strip_split s) as (wl & wr & E & _).
  rewrite E in H. rewrite !lacks_app in H.
  apply andb_true_iff in H. destruct H as [_ H].
  now apply andb_true_iff in H.
Qed.

(** A list of items joined by the separator and some padding splits into
    the items, the padding before all but the first. *)
Lemma split_char_joined (sep : ascii) (pad : string) (x : string)
    (items : list string) :
  Forall (fun y => lacks sep y = true) (x :: items) -> lacks sep pad = true ->
  split_char sep (String.concat (String sep pad) (x :: items))
  = x :: map (fun y => pad ++ y) items.
Proof.
  intros F P. revert x F. induction items as [|y r IH]; intros x F.
  - simpl. apply split_char_last. now inversion F.
  - change (String.concat (String sep pad) (x :: y :: r))
      with (x ++ String sep (pad ++ String.concat (String sep pad) (y :: r))).
    inversion F as [|? ? Hx F']; subst.
    rewrite split_char_item by exact Hx. f_equal.
    rewrite split_char_pad by exact P. now rewrite IH.
Qed.

Lemma strip_pad (pad s : string) :
  all_space pad = true -> strip (pad ++ s) = strip s.
Proof. intros H. unfold strip. now rewrite lstrip_app_space. Qed.

Lemma item_not_space (s : string) :
  is_empty s = false -> strip s = s -> all_space s = false.
Proof.
  intros N S. destruct (all_space s) eqn:A; [|reflexivity].
  unfold strip in S. rewrite lstrip_all_space in S by exact A.
  simpl in S. subst s. discriminate.
Qed.

Lemma split_kept (pad s : string) :
  all_space pad = true -> is_item s ->
  negb (is_empty (pad ++ s)) && negb (isspace (pad ++ s)) = true.
Proof.
  intros P (N & S & _). unfold isspace.
  rewrite is_empty_app, N, andb_false_r. simpl.
  rewrite all_space_app, (item_not_space s N S), andb_false_r. reflexivity.
Qed.

(** ** [coerce_boolean] *)

Lemma is_space_lower_char (c : ascii) : is_space (lower_char c) = is_space c.
Proof.
  destruct c as [[] [] [] [] [] [] [] []]; reflexivity.
Qed.

Lemma is_empty_lower (s : string) : is_empty (lower s) = is_empty s.
Proof. now destruct s. Qed.

Lemma lower_lstrip (s : string) : lower (lstrip s) = lstrip (lower s).
Proof.
  induction s as [|c s' IH]; [reflexivity|].
  cbn [lstrip lower]. rewrite is_space_lower_char.
  destruct (is_space c); [exact IH|reflexivity].
Qed.

Lemma lower_rstrip (s : string) : lower (rstrip s) = rstrip (lower s).
Proof.
  induction s as [|c s' IH]; [reflexivity|].
  cbn [rstrip lower]. rewrite is_space_lower_char, <- IH, is_empty_lower.
  destruct (is_space c && is_empty (rstrip s')); reflexivity.
Qed.

Lemma lower_strip (s : string) : lower (strip s) = strip (lower s).
Proof. unfold strip. now rewrite lower_rstrip, lower_lstrip. Qed.

Lemma rstrip_all_space (ws : string) : all_space ws = true -> rstrip ws = "".
Proof.
  induction ws as [|c ws' IH]; [reflexivity|].
  simpl. intros H. apply andb_true_iff in H. destruct H as [Hc H].
  now rewrite IH, Hc.
Qed.

Lemma rstrip_app_space (s ws : string) :
  all_space ws = true -> rstrip (s ++ ws) = rstrip s.
Proof.
  intros H. induction s as [|c s' IH]; simpl.
  - now apply rstrip_all_space.
  - now rewrite IH.
Qed.

Lemma lstrip_app_text (s t : string) :
  all_space s = false -> lstrip (s ++ t) = lstrip s ++ t.
Proof.
  induction s as [|c s' IH]; simpl; [discriminate|].
  destruct (is_space c); simpl; [exact IH|reflexivity].
Qed.

Lemma strip_around (wl s wr : string) :
  all_space wl = true -> all_space wr = true -> strip (wl ++ s ++ wr) = strip s.
Proof.
  intros L R. unfold strip. rewrite lstrip_app_space by exact L.
  destruct (all_space s) eqn:A.
  - rewrite !lstrip_all_space; [reflexivity|exact A|].
    now rewrite all_space_app, A, R.
  - rewrite lstrip_app_text by exact A. now apply rstrip_app_space.
Qed.

(** X10: [coerce_boolean] reads a string without regard to the white space
    around it and to the case of its letters, and a string that is empty
    or white space only is [False]. *)
Theorem coerce_boolean_strings (s t wl wr : string) :
  all_space wl = true -> all_space wr = true -> lower s = lower t ->
  coerce_boolean (VStr (wl ++ s ++ wr)) = coerce_boolean (VStr t)
  /\ coerce_boolean (VStr wl) = Ok false.
Proof.
  intros L R E. split.
  - unfold coerce_boolean.
    rewrite strip_around by assumption.
    now rewrite !lower_strip, E.
  - unfold coerce_boolean, strip.
    rewrite lstrip_all_space by exact L. reflexivity.
Qed.

Lemma coerce_boolean_strings_witness :
  coerce_boolean (VStr (" " ++ "YES" ++ String LF ""))
  = coerce_boolean (VStr "yes")
  /\ coerce_boolean (VStr " ") = Ok false.
Proof.
  apply (coerce_boolean_strings "YES" "yes" " " (String LF ""));
    reflexivity.
Defined.

(** ** [format_length] *)

Lemma format_length_loop_find (units : list unit) (x : number) (kw : bool)
    (otherwise : outcome string) :
  format_length_loop units x kw otherwise
  = match find (fun u => num_ge x (divider u)) units with
    | Some u => render_length u x kw
    | None => otherwise
    end.
Proof.
  induction units as [|u units IH]; simpl; [reflexivity|].
  destruct (num_ge x (divider u)); [reflexivity|exact IH].
Qed.

Lemma length_size_units_sorted :
  StronglySorted larger_divider (rev length_size_units).
Proof. repeat constructor. Qed.

Lemma metres_checked : forallb metres_ok (seq 0 999) = true.
Proof. vm_compute. reflexivity. Qed.

Lemma format_length_metres (n : Z) :
  1 <= n < 1000 ->
  format_length n false
  = Ok (str_of_int n ++ " " ++ (if n =? 1 then "metre" else "metres")).
Proof.
  intros H. pose proof metres_checked as C. rewrite forallb_forall in C.
  specialize (C (Z.to_nat (n - 1))).
  assert (I : In (Z.to_nat (n - 1)) (seq 0 999)) by (apply in_seq; lia).
  specialize (C I). unfold metres_ok in C.
  replace (Z.of_nat (S (Z.to_nat (n - 1)))) with n in C by lia.
  destruct (format_length n false) as [s|e]; [|discriminate C].
  apply String.eqb_eq in C. now subst s.
Qed.

Lemma num_ge_positive_float (n : Z) (p q : positive) :
  n <= 0 -> num_ge (Int n) (Float (Fin (Zpos p # q))) = false.
Proof.
  intros H. unfold num_ge, exact, Float.leb.
  apply FloatFacts.Qle_bool_false.
  unfold Qlt, inject_Z. cbn [Qnum Qden]. lia.
Qed.

Lemma format_length_below (n : Z) (kw : bool) :
  n <= 0 -> Z.abs n < 2 ^ 53 ->
  format_length n kw = Ok (str_of_int n ++ " metres").
Proof.
  intros H B. unfold format_length. rewrite format_length_loop_find.
  assert (F : find (fun u => num_ge (Int n) (divider u)) (rev length_size_units)
              = None).
  { cbn [rev length_size_units app find divider].
    rewrite !num_ge_int.
    destruct (1000 <=? n) eqn:E1; [apply Z.leb_le in E1; lia|].
    destruct (1 <=? n) eqn:E2; [apply Z.leb_le in E2; lia|].
    assert (L : forall q x, float_literal q = Float (Fin x) ->
                  (0 < Qnum x) -> num_ge (Int n) (float_literal q) = false).
    { intros q [a b] -> P. cbn [Qnum] in P. destruct a; try lia.
      now apply num_ge_positive_float. }
    rewrite (L (1 # 100) _ eq_refl) by (vm_compute; reflexivity).
    rewrite (L (1 # 1000) _ eq_refl) by (vm_compute; reflexivity).
    rewrite (L (1 # 1000000000) _ eq_refl) by (vm_compute; reflexivity).
    reflexivity. }
  rewrite F. rewrite pluralize_int by exact B.
  destruct (n =? 1) eqn:E; [apply Z.eqb_eq in E; lia|]. reflexivity.
Qed.

Lemma format_length_kilometres (n : Z) (kw : bool) :
  1000 <= n -> format_length n kw = render_length kilometre_unit (Int n) kw.
Proof.
  intros H. unfold format_length. rewrite format_length_loop_find.
  cbn [rev length_size_units app find divider].
  rewrite num_ge_int. apply Z.leb_le in H. rewrite H. reflexivity.
Qed.

(** ** [parse_length] and [parse_timespan]: errors and units *)

Lemma parse_length_loop_find (units : list unit) (name : string) (n : number)
    (otherwise : outcome number) :
  Forall has_prefix units ->
  parse_length_loop units name n otherwise
  = match find (prefix_matches name) units with
    | Some u => num_mul n (divider u)
    | None => otherwise
    end.
Proof.
  induction 1 as [|u units Hu _ IH]; simpl; [reflexivity|].
  unfold unit_prefix, prefix_matches, has_prefix in *.
  destruct (prefix u) as [p|]; [|congruence]. simpl.
  destruct (startswith name p); [reflexivity|exact IH].
Qed.

Lemma length_size_units_prefix : Forall has_prefix length_size_units.
Proof. repeat constructor; discriminate. Qed.






Lemma metre_first (rest : string) :
  starts_with_char "m" rest = false ->
  find (prefix_matches (String "m" rest)) length_size_units = Some metre_unit.
Proof.
  intros H. unfold prefix_matches, startswith.
  cbn [find length_size_units prefix String.prefix].
  destruct rest as [|c r]; [reflexivity|].
  simpl in H. cbn [String.prefix].
  destruct (ascii_dec "m" c) as [<-|N]; [discriminate H|].
  reflexivity.
Qed.



(** X15: on a number followed by a name, [parse_length] takes the first entry
    of [length_size_units] whose prefix starts the lower-cased name and
    returns the number times its divider, without truncation; a name that
    starts with a single ["m"] is read as metres. *)
Theorem parse_length_unit (length : string) (n : number) (s : string) (u : unit) :
  tokenize length = Ok [TNum n; TStr s] ->
  first_match (prefix_matches (lower s)) length_size_units u ->
  parse_length length = num_mul n (divider u)
  /\ (forall rest, lower s = String "m" rest ->
        starts_with_char "m" rest = false -> u = metre_unit).
Proof.
  intros E M. apply first_match_find in M. split.
  - unfold parse_length. rewrite E. cbn [bind].
    rewrite (parse_length_loop_find _ _ _ _ length_size_units_prefix).
    now rewrite M.
  - intros rest L S. rewrite L, metre_first in M by exact S. congruence.
Qed.

Lemma parse_length_unit_witness :
  parse_length "1.5 miles" = num_mul (Float (Fin (3 # 2))) (divider metre_unit)
  /\ (forall rest, lower "miles" = String "m" rest ->
        starts_with_char "m" rest = false -> metre_unit = metre_unit).
Proof.
  apply (parse_length_unit "1.5 miles" (Float (Fin (3 # 2))) "miles" metre_unit).
  - vm_compute. reflexivity.
  - apply first_match_find. reflexivity.
Defined.

(** ** [round_number] *)

Lemma str_of_int_sign (n : Z) :
  (if n <? 0 then "-" else "") ++ str_of_int (Z.abs n) = str_of_int n.
Proof. destruct n; reflexivity. Qed.

Lemma Qltb_inject_Z (n : Z) : Float.Qltb (inject_Z n) 0 = (n <? 0).
Proof.
  unfold Float.Qltb, Qle_bool, inject_Z. cbn [Qnum Qden].
  cbn [Z.mul]. rewrite Z.mul_1_r, Z.ltb_antisym. reflexivity.
Qed.

Lemma format_2f_int (n : Z) :
  format_2f (Fin (inject_Z n)) = str_of_int n ++ ".00".
Proof.
  unfold format_2f.
  assert (E : (Qabs (inject_Z n) * 100 == inject_Z (Z.abs n * 100))%Q).
  { rewrite inject_Z_mult. unfold Qabs, inject_Z. reflexivity. }
  rewrite (FloatFacts.round_half_even_comp _ _ E), FloatFacts.round_half_even_Z.
  rewrite Z.div_mul by lia.
  rewrite Z.mod_mul by lia.
  replace (Z.abs n * 100 mod 10) with 0
    by (symmetry; apply Z.mod_divide; [lia|];
        exists (Z.abs n * 10); lia).
  rewrite Qltb_inject_Z. change (digit_char (0 / 10)) with "0"%char.
  change (digit_char 0) with "0"%char.
  rewrite <- append_assoc, str_of_int_sign. reflexivity.
Qed.

Lemma round_number_int (n : Z) (kw : bool) :
  Z.abs n < 2 ^ 53 ->
  round_number (Int n) kw
  = Ok (if kw then str_of_int n ++ ".00" else str_of_int n).
Proof.
  intros B. unfold round_number. cbn [float_of_number].
  rewrite of_int_exact by exact B. cbn [bind]. rewrite format_2f_int.
  destruct kw; [reflexivity|].
  rewrite strip_trailing_zeros_app by reflexivity.
  change (strip_trailing_zeros ".00") with ".".
  rewrite strip_trailing_dot_app by reflexivity.
  cbn [strip_trailing_dot Ascii.eqb is_empty andb]. now rewrite append_nil_r.
Qed.

(** X19: [round_number] of an integer (below [2 ** 53] in magnitude, so that
    [float] is exact) is the integer as [str] prints it, sign included: no
    decimals are shown; with [keep_width] the two decimals [".00"] stay. *)
Theorem round_number_integer (n : Z) :
  Z.abs n < 2 ^ 53 ->
  round_number (Int n) false = Ok (str_of_int n)
  /\ round_number (Int n) true = Ok (str_of_int n ++ ".00").
Proof.
  intros B. split.
  - exact (round_number_int n false B).
  - exact (round_number_int n true B).
Qed.

Lemma round_number_integer_witness :
  round_number (Int (-5)) false = Ok (str_of_int (-5))
  /\ round_number (Int (-5)) true = Ok (str_of_int (-5) ++ ".00").
Proof. apply (round_number_integer (-5)). reflexivity. Defined.

(** X20: the text that [round_number] makes of a float [0 < q] is the
    decimal numeral of [k / 100], where [k] is [q * 100] rounded to the
    nearest integer: read back by [float], it is the float nearest to a
    number within [0.005] of [q].  (The float zero is left out: ['%.2f']
    prints the sign of [-0.0], which the embedding does not record.) *)
Theorem round_number_accuracy (q : Q) :
  (0 < q)%Q ->
  exists k,
    round_number (Float (Fin q)) false = Ok (numeral_text k)
    /\ float_of_str (numeral_text k)
       = Ok (Float.binary64 (inject_Z k / 100))
    /\ (Qabs (inject_Z k / 100 - q) <= 1 # 200)%Q.
Proof.
  intros Hq0. assert (Hq : (0 <= q)%Q) by (now apply Qlt_le_weak).
  exists (Float.round_half_even (q * 100)).
  assert (Hk : 0 <= Float.round_half_even (q * 100)).
  { apply FloatFacts.round_half_even_nonneg.
    apply Qmult_le_0_compat; [exact Hq|discriminate]. }
  split; [exact (round_number_text q Hq)|].
  split; [exact (float_of_str_numeral_text _ Hk)|].
  destruct (FloatFacts.round_half_even_spec (q * 100)) as [L U].
  set (k := inject_Z (Float.round_half_even (q * 100))) in *.
  apply Qabs_Qle_condition.
  assert (E : (k / 100 - q == (k - q * 100) / 100)%Q) by field.
  rewrite E. split.
  - apply Qle_shift_div_l; [reflexivity|]. lra.
  - apply Qle_shift_div_r; [reflexivity|]. lra.
Qed.

Lemma round_number_accuracy_witness :
  exists k,
    round_number (Float (Fin (201 # 64))) false = Ok (numeral_text k)
    /\ float_of_str (numeral_text k)
       = Ok (Float.binary64 (inject_Z k / 100))
    /\ (Qabs (inject_Z k / 100 - (201 # 64)) <= 1 # 200)%Q.
Proof. apply (round_number_accuracy (201 # 64)). reflexivity. Defined.

(** ** [tokenize]: text that goes on after a number *)

Lemma re_split_from_nonempty (st : split_state) (s : string) :
  re_split_from st s <> [].
Proof.
  destruct s as [|c s]; destruct st; simpl; try discriminate;
    repeat match goal with
           | |- context [if ?b then _ else _] => destruct b
           end;
    try discriminate;
    match goal with
    | |- cons_head _ ?l <> [] => destruct l; discriminate
    end.
Qed.

Lemma re_split_int_then (ds y : string) :
  all_digits ds = true -> ends_number y = true ->
  re_split_from InInt (ds ++ y) = ds :: re_split_from InSep y.
Proof.
  intros D E. induction ds as [|d ds IH].
  - destruct y as [|c y']; [reflexivity|].
    simpl in E. apply andb_true_iff in E. destruct E as [E1 E2].
    apply negb_true_iff in E1, E2. cbn [append re_split_from].
    now rewrite E1, E2.
  - simpl in D. apply andb_true_iff in D. destruct D as [Dd D].
    cbn [append re_split_from]. rewrite Dd, IH by exact D. reflexivity.
Qed.

Lemma re_split_number_then (ds y : string) :
  isdigit ds = true -> ends_number y = true ->
  re_split (ds ++ y) = "" :: ds :: re_split y.
Proof.
  intros D E. destruct ds as [|d ds]; [discriminate|].
  rewrite isdigit_cons in D. apply andb_true_iff in D. destruct D as [Dd D].
  unfold re_split. cbn [append re_split_from]. rewrite Dd.
  rewrite re_split_int_then by assumption. reflexivity.
Qed.

Lemma re_split_sep_then (sep x : string) :
  no_digit sep = true ->
  re_split (sep ++ x)
  = match re_split x with
    | h :: r => (sep ++ h) :: r
    | [] => [sep]
    end.
Proof.
  intros N. unfold re_split. induction sep as [|c sep IH].
  - simpl. pose proof (re_split_from_nonempty InSep x) as F.
    destruct (re_split_from InSep x); [congruence|reflexivity].
  - simpl in N. apply andb_true_iff in N. destruct N as [Nc N].
    apply negb_true_iff in Nc. cbn [append re_split_from].
    rewrite Nc, IH by exact N.
    pose proof (re_split_from_nonempty InSep x) as F.
    destruct (re_split_from InSep x); [congruence|reflexivity].
Qed.

Lemma tokenize_number_then (ds y : string) :
  isdigit ds = true -> ends_number y = true ->
  tokenize (ds ++ y)
  = (ts <- tokenize y ;; Ok (TNum (Int (digits_value 0 ds)) :: ts)).
Proof.
  intros D E. unfold tokenize. rewrite re_split_number_then by assumption.
  rewrite (tokenize_loop_sep "" _ [] eq_refl). cbn [strip lstrip rstrip is_empty].
  rewrite (tokenize_loop_int ds _ [] D). cbn [app].
  apply tokenize_loop_acc.
Qed.

Lemma tokenize_sep_then (sep x : string) :
  no_digit sep = true -> starts_with_digit x = true ->
  tokenize (sep ++ x)
  = (ts <- tokenize x ;; Ok (unit_tokens sep ++ ts)%list).
Proof.
  intros N S. unfold tokenize. rewrite re_split_sep_then by exact N.
  destruct x as [|c x']; [discriminate|]. simpl in S.
  unfold re_split. cbn [re_split_from]. rewrite S.
  rewrite append_nil_r.
  rewrite (tokenize_loop_sep sep _ [] N).
  rewrite (tokenize_loop_sep "" _ [] eq_refl). cbn [strip lstrip rstrip is_empty].
  unfold unit_tokens.
  destruct (is_empty (strip sep)).
  - cbn [app]. destruct (tokenize_loop _ []); reflexivity.
  - apply tokenize_loop_acc.
Qed.

Lemma tokenize_total (text : string) : exists tokens, tokenize text = Ok tokens.
Proof. destruct (tokenize_lexes text) as [ts [E _]]. eauto. Qed.

(** Two numbers with text between them give at least three tokens or two
    numbers in a row. *)
Lemma tokenize_two_numbers (ds1 sep ds2 y : string) :
  isdigit ds1 = true ->
  no_digit sep = true -> is_empty sep = false -> ends_number sep = true ->
  isdigit ds2 = true -> ends_number y = true ->
  exists more,
    tokenize (ds1 ++ sep ++ ds2 ++ y)
    = Ok (TNum (Int (digits_value 0 ds1))
          :: unit_tokens sep ++ TNum (Int (digits_value 0 ds2)) :: more)%list.
Proof.
  intros D1 N S E1 D2 E2.
  destruct (tokenize_total y) as [more T].
  exists more.
  assert (E : ends_number (sep ++ ds2 ++ y) = true)
    by (destruct sep; [discriminate|exact E1]).
  rewrite tokenize_number_then by assumption.
  rewrite tokenize_sep_then;
    [|exact N|destruct ds2; [discriminate|];
               rewrite isdigit_cons in D2; apply andb_true_iff in D2; apply D2].
  rewrite tokenize_number_then by assumption.
  rewrite T. reflexivity.
Qed.

(** ** [parse_timespan] of [format_timespan] *)

Lemma total_seconds_filter (l : list (Z * unit)) :
  total_seconds (filter nonzero_count l) = total_seconds l.
Proof.
  induction l as [|[c u] l IH]; [reflexivity|].
  cbn [filter]. unfold nonzero_count at 1. cbn [fst].
  destruct (Z.eqb_spec c 0) as [->|N]; cbn [negb total_seconds fst snd];
    rewrite IH; lia.
Qed.

Lemma greedy_total (units : list unit) :
  Forall time_unit_ok units ->
  forall n, total_seconds (greedy units n) + remainder units n = n.
Proof.
  induction 1 as [|u units [d [Ed [Hd _]]] _ IH]; intros n; [reflexivity|].
  cbn [greedy total_seconds remainder fst snd].
  assert (Ei : int_divider u = d) by (unfold int_divider; now rewrite Ed).
  rewrite Ei. specialize (IH (n mod d)).
  pose proof (Z.div_mod n d ltac:(lia)). lia.
Qed.

Lemma greedy_counts (units : list unit) :
  Forall time_unit_ok units ->
  forall n, 0 <= n ->
    Forall (fun cu => 0 <= fst cu /\ In (snd cu) units) (greedy units n).
Proof.
  induction 1 as [|u units [d [Ed [Hd _]]] _ IH]; intros n Hn; [constructor|].
  cbn [greedy].
  assert (Ei : int_divider u = d) by (unfold int_divider; now rewrite Ed).
  rewrite Ei. constructor.
  - cbn [fst snd]. split; [apply Z.div_pos; lia|now left].
  - pose proof (Z.mod_pos_bound n d ltac:(lia)) as M.
    apply Forall_impl with (2 := IH (n mod d) ltac:(lia)).
    intros cu [A B]. split; [exact A|now right].
Qed.

Lemma timespan_total (n : Z) :
  total_seconds (filter nonzero_count (greedy (rev time_units) n)) = n.
Proof.
  rewrite total_seconds_filter.
  pose proof (greedy_total _ time_units_ok n) as G.
  assert (R : remainder (rev time_units) n = 0).
  { cbn [rev time_units app remainder int_divider divider].
    apply Z.mod_1_r. }
  rewrite R in G. lia.
Qed.

Lemma timespan_counts (n : Z) :
  0 <= n ->
  Forall (fun cu => 1 <= fst cu /\ In (snd cu) time_units)
    (filter nonzero_count (greedy (rev time_units) n)).
Proof.
  intros Hn. pose proof (greedy_counts _ time_units_ok n Hn) as G.
  induction G as [|[c u] l [A B] _ IH]; [constructor|].
  cbn [filter]. unfold nonzero_count at 1. cbn [fst snd] in *.
  destruct (Z.eqb_spec c 0) as [->|N]; cbn [negb]; [exact IH|].
  constructor; [|exact IH]. cbn [fst snd]. split; [lia|].
  now apply in_rev.
Qed.

Lemma mul_exact (a b : Z) :
  Z.abs (a * b) < 2 ^ 53 ->
  Float.mul (Fin (inject_Z a)) (Fin (inject_Z b)) = Fin (inject_Z (a * b)).
Proof.
  intros B. unfold Float.mul.
  assert (E : (inject_Z a * inject_Z b == inject_Z (a * b))%Q)
    by (rewrite inject_Z_mult; reflexivity).
  rewrite (FloatFacts.binary64_comp _ _ E).
  now apply FloatFacts.binary64_int.
Qed.

Lemma parse_timespan_term (c : Z) (u : unit) :
  In u time_units -> 1 <= c -> c * int_divider u < 2 ^ 53 ->
  parse_timespan (render_term (c, u))
  = Ok (Float (Fin (inject_Z (c * int_divider u)))).
Proof.
  intros I C B.
  assert (D : isdigit (str_of_int c) = true) by (apply str_of_int_isdigit; lia).
  assert (V : digits_value 0 (str_of_int c) = c) by (apply digits_value_str; lia).
  assert (Bc : Z.abs c < 2 ^ 53).
  { cbn [time_units In] in I.
    destruct I as [<-|[<-|[<-|[<-|[<-|[<-|[]]]]]]];
      cbn [int_divider divider] in B; lia. }
  unfold render_term. cbn [fst snd]. unfold parse_timespan.
  cbn [time_units In] in I.
  destruct I as [<-|[<-|[<-|[<-|[<-|[<-|[]]]]]]];
    cbn [singular plural int_divider divider] in *;
    destruct (c =? 1);
    (rewrite tokenize_int_unit by (try exact D; reflexivity));
    rewrite V; cbn [unit_tokens bind];
    (match goal with
     | |- context [unit_tokens ?s] =>
         change (unit_tokens s) with [TStr (strip s)]
     end);
    cbn [strip lstrip rstrip is_space is_empty];
    rewrite parse_timespan_loop_find;
    (match goal with
     | |- context [find ?f ?l] =>
         let r := eval vm_compute in (find f l) in
         change (find f l) with r
     end);
    cbn [float_of_number]; rewrite (of_int_exact c Bc); cbn [bind];
    unfold num_mul; cbn [float_of_number bind divider];
    (match goal with
     | |- context [Float.of_int ?d] =>
         rewrite (of_int_exact d) by (vm_compute; reflexivity)
     end);
    cbn [bind]; rewrite mul_exact by lia; reflexivity.
Qed.
Lemma no_digit_app (s1 s2 : string) :
  no_digit (s1 ++ s2) = no_digit s1 && no_digit s2.
Proof.
  induction s1 as [|c s1 IH]; simpl; [reflexivity|].
  now rewrite IH, andb_assoc.
Qed.

Lemma term_shape (c : Z) (u : unit) :
  In u time_units ->
  exists w, render_term (c, u) = str_of_int c ++ " " ++ w /\ no_digit w = true.
Proof.
  intros I. unfold render_term. cbn [fst snd].
  exists (if c =? 1 then singular u else plural u).
  split; [reflexivity|].
  cbn [time_units In] in I.
  destruct I as [<-|[<-|[<-|[<-|[<-|[<-|[]]]]]]]; destruct (c =? 1); reflexivity.
Qed.

Lemma short_timespan (n : Z) :
  0 <= n < 60 ->
  filter nonzero_count (greedy (rev time_units) n)
  = if n =? 0 then [] else [(n, mk_unit None (Int 1) "second" "seconds")].
Proof.
  intros H. cbn [rev time_units app greedy int_divider divider].
  rewrite !(Z.mod_small n) by lia.
  rewrite !(Z.div_small n) by lia.
  rewrite Z.div_1_r. cbn [filter nonzero_count fst Z.eqb negb].
  unfold nonzero_count. cbn [fst]. destruct (n =? 0); reflexivity.
Qed.

(** A text of two terms or more does not parse. *)
Lemma parse_timespan_joined (c1 c2 : Z) (u1 u2 : unit) (join tail text : string) :
  1 <= c1 -> 1 <= c2 -> In u1 time_units -> In u2 time_units ->
  join = " and " \/ join = ", " ->
  tail = "" \/ (exists t, tail = " and " ++ t) ->
  text = render_term (c1, u1) ++ join ++ render_term (c2, u2) ++ tail ->
  exists tokens, parse_timespan text = Raise (InvalidTimespan text tokens).
Proof.
  intros C1 C2 I1 I2 J T ->.
  destruct (term_shape c1 u1 I1) as (w1 & -> & N1).
  destruct (term_shape c2 u2 I2) as (w2 & -> & N2).
  assert (D1 : isdigit (str_of_int c1) = true) by (apply str_of_int_isdigit; lia).
  assert (D2 : isdigit (str_of_int c2) = true) by (apply str_of_int_isdigit; lia).
  set (sep := " " ++ w1 ++ join).
  set (y := " " ++ w2 ++ tail).
  assert (E : (str_of_int c1 ++ " " ++ w1) ++ join
                ++ (str_of_int c2 ++ " " ++ w2) ++ tail
              = str_of_int c1 ++ sep ++ str_of_int c2 ++ y).
  { unfold sep, y. now rewrite !append_assoc. }
  rewrite E.
  assert (Ns : no_digit sep = true).
  { unfold sep. change (" " ++ w1 ++ join) with (String " " (w1 ++ join)).
    cbn [no_digit]. rewrite no_digit_app, N1.
    destruct J as [->| ->]; reflexivity. }
  destruct (tokenize_two_numbers (str_of_int c1) sep (str_of_int c2) y)
    as (more & K); try assumption; try reflexivity.
  unfold parse_timespan. rewrite K. cbn [bind].
  unfold unit_tokens. destruct (is_empty (strip sep)); cbn [app]; eauto.
Qed.

(** X17: [parse_timespan] reads back what [format_timespan] makes of an
    integer number of seconds exactly when the text has a single term (the
    number is below one minute or a multiple of one unit only): then it
    returns the number as a float; a text of two or three terms raises
    [InvalidTimespan]. *)
Theorem timespan_round_trip (n : Z) :
  0 <= n < 2 ^ 53 ->
  exists text,
    format_timespan (Int n) = Ok text
    /\ ((List.length (timespan_terms n) <= 1)%nat ->
        parse_timespan text = Ok (Float (Fin (inject_Z n))))
    /\ ((2 <= List.length (timespan_terms n))%nat ->
        exists tokens,
          parse_timespan text = Raise (InvalidTimespan text tokens)).
Proof.
  intros Hn. unfold timespan_terms. rewrite length_map.
  pose proof (timespan_total n) as Tot.
  pose proof (timespan_counts n ltac:(lia)) as Cnt.
  destruct (Z.lt_ge_cases n 60) as [Lt|Ge].
  - exists (str_of_int n ++ " " ++ (if n =? 1 then "second" else "seconds")).
    split; [apply format_timespan_seconds; lia|].
    rewrite short_timespan by lia. split.
    + intros _. destruct (Z.eqb_spec n 0) as [->|N].
      * vm_compute. reflexivity.
      * pose proof (parse_timespan_term n
                      (mk_unit None (Int 1) "second" "seconds")) as P.
        unfold render_term in P. cbn [fst snd singular plural int_divider divider] in P.
        rewrite Z.mul_1_r in P. apply P; [now left|lia|lia].
    + destruct (n =? 0); simpl; lia.
  - exists (concatenate (firstn 3 (timespan_terms n))).
    split; [apply format_timespan_int; lia|].
    unfold timespan_terms.
    destruct (filter nonzero_count (greedy (rev time_units) n))
      as [|[c1 u1] [|[c2 u2] l]].
    + simpl in Tot. lia.
    + split; [intros _|simpl; lia].
      cbn [total_seconds fst snd] in Tot.
      inversion Cnt as [|? ? [C I] _]; subst. cbn [fst snd] in *.
      cbn [map firstn]. unfold concatenate. cbn [List.length Nat.ltb Nat.leb].
      rewrite parse_timespan_term by (try assumption; lia).
      now rewrite Z.add_0_r.
    + split; [simpl; lia|intros _].
      inversion Cnt as [|? ? [C1 I1] Cnt']; subst.
      inversion Cnt' as [|? ? [C2 I2] _]; subst. cbn [fst snd] in *.
      destruct l as [|cu3 l'].
      * apply (parse_timespan_joined c1 c2 u1 u2 " and " "");
          try assumption; auto.
        cbn [map firstn]. unfold concatenate. cbn. now rewrite append_nil_r.
      * apply (parse_timespan_joined c1 c2 u1 u2 ", "
                 (" and " ++ render_term cu3));
          try assumption; eauto.
        cbn [map firstn]. unfold concatenate.
        cbn [List.length Nat.ltb Nat.leb removelast last String.concat].
        now rewrite !append_assoc.
Qed.

Lemma timespan_round_trip_witness :
  exists text,
    format_timespan (Int 7200) = Ok text
    /\ parse_timespan text = Ok (Float (Fin (inject_Z 7200))).
Proof.
  destruct (timespan_round_trip 7200) as (text & F & P & _).
  - split; [discriminate|reflexivity].
  - exists text. split; [exact F|]. apply P. vm_compute. apply le_n.
Defined.

(** ** [format_number] *)

Lemma length_app (a b : string) :
  String.length (a ++ b) = (String.length a + String.length b)%nat.
Proof. induction a; simpl; auto. Qed.

Lemma reversed_app (a b : string) : reversed (a ++ b) = reversed b ++ reversed a.
Proof.
  induction a as [|c a IH]; simpl.
  - now rewrite append_nil_r.
  - now rewrite IH, append_assoc.
Qed.

Lemma reversed_involutive (s : string) : reversed (reversed s) = s.
Proof.
  induction s as [|c s IH]; [reflexivity|].
  simpl. now rewrite reversed_app, IH.
Qed.

Lemma reversed_length (s : string) : String.length (reversed s) = String.length s.
Proof.
  induction s as [|c s IH]; [reflexivity|].
  simpl. rewrite length_app, IH. simpl. lia.
Qed.

Lemma format_number_loop_step (a b c : ascii) (rest : string) :
  format_number_loop (String a (String b (String c rest)))
  = String a (String b (String c "")) :: format_number_loop rest.
Proof. reflexivity. Qed.

Lemma format_number_loop_parts (s : string) :
  flatten (format_number_loop s) = s
  /\ chunked (format_number_loop s)
  /\ (is_empty s = false -> format_number_loop s <> []).
Proof.
  induction s as [|a|a b|a b c rest (IH1 & IH2 & IH3) _] using join_lines_ind.
  - repeat split. intros [=].
  - repeat split; simpl; try lia. discriminate.
  - repeat split; simpl; try lia. discriminate.
  - rewrite format_number_loop_step. split; [|split; [|discriminate]].
    + simpl. now rewrite IH1.
    + destruct (format_number_loop rest) as [|p r] eqn:E.
      * simpl. lia.
      * change (String.length (String a (String b (String c ""))) = 3%nat
                /\ chunked (p :: r)). split; [reflexivity|exact IH2].
Qed.

Lemma concat_snoc (sep x : string) (l : list string) :
  l <> [] -> String.concat sep (l ++ [x]) = String.concat sep l ++ sep ++ x.
Proof.
  induction l as [|a [|b r] IH]; intros N; [congruence|reflexivity|].
  change (String.concat sep ((a :: b :: r) ++ [x]))
    with (a ++ sep ++ String.concat sep ((b :: r) ++ [x])).
  rewrite IH by discriminate.
  change (String.concat sep (a :: b :: r))
    with (a ++ sep ++ String.concat sep (b :: r)).
  now rewrite !append_assoc.
Qed.

Lemma reversed_concat (sep : string) (parts : list string) :
  reversed (String.concat sep parts)
  = String.concat (reversed sep) (rev (map reversed parts)).
Proof.
  induction parts as [|p [|q r] IH]; [reflexivity|reflexivity|].
  change (String.concat sep (p :: q :: r))
    with (p ++ sep ++ String.concat sep (q :: r)).
  rewrite !reversed_app, IH.
  change (rev (map reversed (p :: q :: r)))
    with (rev (map reversed (q :: r)) ++ [reversed p])%list.
  rewrite concat_snoc; [now rewrite append_assoc|].
  simpl. intros H. apply app_eq_nil in H. destruct H. discriminate.
Qed.

Lemma flatten_rev_reversed (parts : list string) :
  flatten (rev (map reversed parts)) = reversed (flatten parts).
Proof.
  induction parts as [|p r IH]; [reflexivity|].
  simpl. rewrite flatten_app, IH, reversed_app. simpl.
  now rewrite append_nil_r.
Qed.

Lemma grouped_snoc (groups : list string) (x : string) :
  grouped groups -> String.length x = 3%nat -> grouped (groups ++ [x]).
Proof.
  destruct groups as [|g r]; [contradiction|].
  intros [L F] X. split; [exact L|].
  apply Forall_app. split; [exact F|]. now repeat constructor.
Qed.

Lemma chunked_grouped (parts : list string) :
  parts <> [] -> chunked parts -> grouped (rev (map reversed parts)).
Proof.
  induction parts as [|p [|q r] IH]; intros N C; [congruence| |].
  - simpl in *. rewrite reversed_length. split; [exact C|constructor].
  - destruct C as [L C].
    change (rev (map reversed (p :: q :: r)))
      with (rev (map reversed (q :: r)) ++ [reversed p])%list.
    apply grouped_snoc; [apply IH; [discriminate|exact C]|].
    now rewrite reversed_length.
Qed.

Lemma partition_point_found (s t : string) :
  lacks "." s = true -> partition_point (s ++ "." ++ t) = (s, t).
Proof.
  intros L. induction s as [|c s IH]; [reflexivity|].
  simpl in L. apply andb_true_iff in L. destruct L as [Lc L].
  apply negb_true_iff in Lc. cbn [append partition_point].
  rewrite Lc. cbn [append] in IH. now rewrite IH.
Qed.

Lemma digits_lack (c : ascii) (s : string) :
  is_digit c = false -> all_digits s = true -> lacks c s = true.
Proof.
  intros C. induction s as [|d s IH]; [reflexivity|].
  simpl. intros H. apply andb_true_iff in H. destruct H as [Hd H].
  rewrite IH by exact H. rewrite andb_true_r.
  destruct (Ascii.eqb_spec d c) as [->|]; [congruence|reflexivity].
Qed.

Lemma str_of_int_lacks_point (n : Z) : lacks "." (str_of_int n) = true.
Proof.
  rewrite <- str_of_int_sign.
  assert (D : lacks "." (str_of_int (Z.abs n)) = true).
  { apply digits_lack; [reflexivity|].
    apply isdigit_all_digits, str_of_int_isdigit. lia. }
  destruct (n <? 0); [|exact D]. simpl. exact D.
Qed.

Lemma str_of_int_nonempty (n : Z) : is_empty (str_of_int n) = false.
Proof.
  rewrite <- str_of_int_sign. destruct (n <? 0); [reflexivity|].
  apply isdigit_nonempty, str_of_int_isdigit. lia.
Qed.

Lemma no_decimals (k : Z) :
  strip_trailing_zeros (slice_to k "0") = "".
Proof.
  unfold slice_to. destruct (k <? 0).
  - destruct (Z.to_nat _) as [|[|m]]; reflexivity.
  - destruct (Z.to_nat k) as [|[|m]]; reflexivity.
Qed.

Lemma is_empty_reversed (s : string) : is_empty (reversed s) = is_empty s.
Proof. destruct s as [|c s]; [reflexivity|]. simpl. now destruct (reversed s). Qed.

(** X21: [format_number] of an integer (below [2 ** 53] in magnitude) cuts
    the text of the integer into groups of three characters from the right
    and joins them with commas, whatever [num_decimals] is; the sign of a
    negative number counts as a character of the first group, so that
    [format_number(-123456)] is ["-,123,456"]. *)
Theorem format_number_groups (number num_decimals : Z) :
  Z.abs number < 2 ^ 53 ->
  exists groups,
    format_number number num_decimals = String.concat "," groups
    /\ flatten groups = str_of_int number
    /\ grouped groups.
Proof.
  intros _. unfold format_number, str_of_float_of_int.
  change (str_of_int number ++ ".0") with (str_of_int number ++ "." ++ "0").
  rewrite (partition_point_found _ "0" (str_of_int_lacks_point number)).
  rewrite no_decimals. cbn [is_empty negb].
  set (parts := format_number_loop (reversed (str_of_int number))).
  destruct (format_number_loop_parts (reversed (str_of_int number)))
    as (F & C & N).
  fold parts in F, C, N.
  exists (rev (map reversed parts)).
  rewrite reversed_concat. split; [reflexivity|]. split.
  - now rewrite flatten_rev_reversed, F, reversed_involutive.
  - apply chunked_grouped; [|exact C].
    apply N. rewrite is_empty_reversed. apply str_of_int_nonempty.
Qed.

Lemma format_number_groups_witness :
  exists groups,
    format_number (-123456) 2 = String.concat "," groups
    /\ flatten groups = str_of_int (-123456)
    /\ grouped groups.
Proof. apply (format_number_groups (-123456) 2). reflexivity. Defined.

(** ** [parse_date] *)

Lemma digit_not_c_space (c : ascii) : is_digit c = true -> is_c_space c = false.
Proof.
  destruct c as [[] [] [] [] [] [] [] []]; try reflexivity; discriminate.
Qed.

Lemma digit_not_char (c d : ascii) :
  is_digit c = true -> is_digit d = false -> Ascii.eqb c d = false.
Proof.
  intros C D. destruct (Ascii.eqb_spec c d) as [->|]; [congruence|reflexivity].
Qed.

Lemma lstrip_c_digits (s : string) : all_digits s = true -> lstrip_c s = s.
Proof.
  destruct s as [|c s]; [reflexivity|]. simpl. intros H.
  apply andb_true_iff in H. destruct H as [H _].
  now rewrite (digit_not_c_space c H).
Qed.

Lemma rstrip_c_digits (s : string) : all_digits s = true -> rstrip_c s = s.
Proof.
  induction s as [|c s IH]; [reflexivity|]. simpl. intros H.
  apply andb_true_iff in H. destruct H as [Hc H].
  now rewrite IH, (digit_not_c_space c Hc).
Qed.

Lemma int_digits_all (s : string) :
  forall acc, all_digits s = true ->
    int_digits acc true s = Ok (digits_value acc s).
Proof.
  induction s as [|c s IH]; intros acc H; [reflexivity|].
  simpl in *. apply andb_true_iff in H. destruct H as [Hc H].
  rewrite Hc. now apply IH.
Qed.

Lemma int_of_text_digits (s : string) :
  isdigit s = true -> int_of_text s = Ok (digits_value 0 s).
Proof.
  intros H. pose proof (isdigit_all_digits s H) as A.
  unfold int_of_text. rewrite lstrip_c_digits, rstrip_c_digits by assumption.
  destruct s as [|c s]; [discriminate|].
  rewrite isdigit_cons in H. apply andb_true_iff in H. destruct H as [Hc Hs].
  rewrite !(digit_not_char c) by (try exact Hc; reflexivity).
  cbn [int_digits]. rewrite Hc. now rewrite int_digits_all.
Qed.

Lemma map_int_digits (parts : list string) :
  Forall (fun p => isdigit p = true) parts ->
  map_int parts = Ok (map (digits_value 0) parts).
Proof.
  induction 1 as [|p r Hp _ IH]; [reflexivity|].
  cbn [map_int map]. rewrite int_of_text_digits by exact Hp.
  cbn [bind]. now rewrite IH.
Qed.

Lemma isdigit_lacks (c : ascii) (s : string) :
  is_digit c = false -> isdigit s = true -> lacks c s = true.
Proof. intros C H. apply digits_lack; [exact C|now apply isdigit_all_digits]. Qed.

Lemma no_space_lacks_app (a b : string) :
  no_space a = true -> no_space b = true -> no_space (a ++ b) = true.
Proof. intros A B. now rewrite no_space_app, A, B. Qed.

Lemma isdigit_no_space (s : string) : isdigit s = true -> no_space s = true.
Proof. intros H. apply all_digits_no_space. now apply isdigit_all_digits. Qed.

Lemma split_whitespace_one (w : string) :
  is_word w -> split_whitespace w = [w].
Proof.
  intros H. rewrite <- (append_nil_r w) at 1.
  now rewrite split_whitespace_word.
Qed.

Lemma split_whitespace_two (w1 w2 : string) :
  is_word w1 -> is_word w2 -> split_whitespace (w1 ++ " " ++ w2) = [w1; w2].
Proof.
  intros H1 H2. rewrite split_whitespace_word by (try exact H1; reflexivity).
  cbn [append split_whitespace is_space]. simpl is_space.
  change (split_whitespace (String " " w2)) with (split_whitespace w2).
  now rewrite split_whitespace_one.
Qed.

Lemma word_intro (s : string) :
  is_empty s = false -> no_space s = true -> is_word s.
Proof. now split. Qed.

Lemma is_empty_app_l (a b : string) : is_empty a = false -> is_empty (a ++ b) = false.
Proof. now destruct a. Qed.

Lemma lacks_lstrip_c (c : ascii) (s : string) :
  lacks c s = true -> lacks c (lstrip_c s) = true.
Proof.
  induction s as [|d s IH]; [reflexivity|]. simpl. intros H.
  destruct (is_c_space d); [|exact H].
  apply andb_true_iff in H. now apply IH.
Qed.

Lemma lacks_rstrip_c (c : ascii) (s : string) :
  lacks c s = true -> lacks c (rstrip_c s) = true.
Proof.
  induction s as [|d s IH]; [reflexivity|]. simpl. intros H.
  apply andb_true_iff in H. destruct H as [Hd H].
  destruct (is_c_space d && is_empty (rstrip_c s)); [reflexivity|].
  simpl. now rewrite Hd, IH.
Qed.

Lemma int_digits_nonneg (s : string) :
  forall acc b z, 0 <= acc -> int_digits acc b s = Ok z -> 0 <= z.
Proof.
  induction s as [|c s IH]; intros acc b z A; cbn [int_digits].
  - destruct b; [intros [= <-]; exact A|discriminate].
  - destruct (is_digit c) eqn:D.
    + apply IH. pose proof (digit_value_nonneg c D). lia.
    + destruct (Ascii.eqb c "_" && b); [now apply IH|discriminate].
Qed.

Lemma int_of_text_nonneg (p : string) (z : Z) :
  lacks "-" p = true -> int_of_text p = Ok z -> 0 <= z.
Proof.
  intros L. unfold int_of_text.
  apply lacks_lstrip_c, lacks_rstrip_c in L.
  destruct (rstrip_c (lstrip_c p)) as [|c r]; [discriminate|].
  simpl in L. apply andb_true_iff in L. destruct L as [Lc _].
  apply negb_true_iff in Lc. rewrite Lc.
  destruct (Ascii.eqb c "+"); now apply int_digits_nonneg.
Qed.

Lemma map_int_nonneg (parts : list string) :
  Forall (fun p => lacks "-" p = true) parts ->
  forall ns, map_int parts = Ok ns ->
    Forall (fun z => 0 <= z) ns /\ List.length ns = List.length parts.
Proof.
  induction 1 as [|p r Hp _ IH]; intros ns.
  - intros [= <-]. split; [constructor|reflexivity].
  - cbn [map_int]. destruct (int_of_text p) as [z|e] eqn:E; [|discriminate].
    cbn [bind]. destruct (map_int r) as [zs|e]; [|discriminate].
    cbn [bind]. intros [= <-]. destruct (IH zs eq_refl) as [F L].
    split; [|simpl; now rewrite L].
    constructor; [|exact F]. now apply (int_of_text_nonneg p).
Qed.

Lemma map_int_length (parts : list string) :
  forall ns, map_int parts = Ok ns -> List.length ns = List.length parts.
Proof.
  induction parts as [|p r IH]; intros ns.
  - now intros [= <-].
  - cbn [map_int]. destruct (int_of_text p); [|discriminate].
    cbn [bind]. destruct (map_int r) as [zs|]; [|discriminate].
    cbn [bind]. intros [= <-]. simpl. now rewrite (IH zs).
Qed.

Lemma first_three (ns : list Z) (x y : Z) :
  ns <> [] -> Forall (fun z => 0 <= z) ns -> 0 <= x -> 0 <= y ->
  exists a b c,
    firstn 3 (ns ++ [x; y]) = [a; b; c] /\ 0 <= a /\ 0 <= b /\ 0 <= c.
Proof.
  intros N F X Y.
  destruct ns as [|a [|b [|c r]]]; [congruence| | |].
  - exists a, x, y. inversion F; subst. auto.
  - exists a, b, x. inversion F as [|? ? ? F']; subst. inversion F'; subst. auto.
  - exists a, b, c. inversion F as [|? ? ? F']; subst.
    inversion F' as [|? ? ? F'']; subst. inversion F''; subst. auto.
Qed.

Lemma first_three_time (t : list Z) :
  exists h m s, firstn 3 (t ++ [0; 0; 0]) = [h; m; s].
Proof. destruct t as [|a [|b [|c r]]]; simpl; eauto. Qed.

Lemma date_parts (text : string) (d : list Z) :
  map_int (split_char "-" text) = Ok d ->
  exists year month day,
    firstn 3 (d ++ [1; 1]) = [year; month; day]
    /\ 0 <= year /\ 0 <= month /\ 0 <= day.
Proof.
  intros E.
  destruct (map_int_nonneg _ (split_char_lacks "-" text) d E) as [F L].
  apply first_three; try lia; [|exact F].
  intros ->. pose proof (split_char_nonempty "-" text) as N.
  destruct (split_char "-" text); [congruence|discriminate L].
Qed.

Lemma Ok_inj {A : Type} (a b : A) : Ok a = Ok b -> a = b.
Proof. now intros [= ->]. Qed.

Lemma parse_date_body_fields (datestring : string) (fields : list Z) :
  parse_date_body datestring = Ok fields ->
  exists year month day hour minute second,
    fields = [year; month; day; hour; minute; second]
    /\ 0 <= year /\ 0 <= month /\ 0 <= day.
Proof.
  unfold parse_date_body.
  destruct (2 <=? List.length (map strip (split_whitespace datestring)))%nat.
  - destruct (map_int (split_char "-" _)) as [d|e] eqn:E; [|discriminate].
    cbn [bind]. destruct (map_int (split_char ":" _)) as [t|e]; [|discriminate].
    cbn [bind]. intros H. apply Ok_inj in H. subst fields.
    destruct (date_parts _ d E) as (y & m & dd & -> & Y & M & D).
    destruct (first_three_time t) as (h & mi & s & ->).
    exists y, m, dd, h, mi, s. auto.
  - destruct (map_int (split_char "-" _)) as [d|e] eqn:E; [|discriminate].
    cbn [bind].
    destruct (date_parts _ d E) as (y & m & dd & -> & Y & M & D).
    intros H. apply Ok_inj in H. subst fields.
    exists y, m, dd, 0, 0, 0. auto.
Qed.

Lemma c_space_is_space (c : ascii) : is_c_space c = true -> is_space c = true.
Proof.
  destruct c as [[] [] [] [] [] [] [] []]; try reflexivity; discriminate.
Qed.

Lemma all_space_lstrip_c (s : string) :
  all_space s = true -> all_space (lstrip_c s) = true.
Proof.
  induction s as [|c s IH]; [reflexivity|]. simpl. intros H.
  destruct (is_c_space c); [|exact H].
  apply andb_true_iff in H. now apply IH.
Qed.

Lemma all_space_rstrip_c (s : string) :
  all_space s = true -> all_space (rstrip_c s) = true.
Proof.
  induction s as [|c s IH]; [reflexivity|]. simpl. intros H.
  apply andb_true_iff in H. destruct H as [Hc H].
  destruct (is_c_space c && is_empty (rstrip_c s)); [reflexivity|].
  simpl. now rewrite Hc, IH.
Qed.

Lemma space_not_char (c d : ascii) :
  is_space c = true -> is_space d = false -> Ascii.eqb c d = false.
Proof.
  intros C D. destruct (Ascii.eqb_spec c d) as [->|]; [congruence|reflexivity].
Qed.

Lemma int_of_text_blank (s : string) :
  all_space s = true -> int_of_text s = Raise ValueError.
Proof.
  intros H. unfold int_of_text.
  apply all_space_lstrip_c, all_space_rstrip_c in H.
  destruct (rstrip_c (lstrip_c s)) as [|c r]; [reflexivity|].
  simpl in H. apply andb_true_iff in H. destruct H as [Hc _].
  rewrite !(space_not_char c) by (try exact Hc; reflexivity).
  cbn [int_digits].
  assert (D : is_digit c = false).
  { destruct (is_digit c) eqn:D; [|reflexivity].
    now rewrite (digit_not_space c D) in Hc. }
  rewrite D, andb_false_r. reflexivity.
Qed.

Lemma all_space_lacks (c : ascii) (s : string) :
  is_space c = false -> all_space s = true -> lacks c s = true.
Proof.
  intros C. induction s as [|d s IH]; [reflexivity|]. simpl. intros H.
  apply andb_true_iff in H. destruct H as [Hd H].
  rewrite IH by exact H. now rewrite (space_not_char d c Hd C).
Qed.

Lemma split_whitespace_minus (r : string) :
  exists w rest, split_whitespace (String "-" r) = String "-" w :: rest.
Proof.
  cbn [split_whitespace]. change (is_space "-") with false. cbn match.
  destruct (starts_word r) eqn:W.
  - pose proof (starts_word_split r W) as N.
    destruct (split_whitespace r) as [|h t]; [congruence|]. simpl. eauto.
  - eauto.
Qed.

Lemma strip_minus (w : string) : exists w', strip (String "-" w) = String "-" w'.
Proof.
  unfold strip. cbn [lstrip]. change (is_space "-") with false. cbn match.
  cbn [rstrip]. change (is_space "-") with false. cbn [andb]. eauto.
Qed.

(** X22: [parse_date] reads the two documented formats, and shorter ones: the
    numbers are those of the digits, whatever their range; a month or a day
    that is missing is [1], a part of the time that is missing is [0]. *)
Theorem parse_date_formats (y m d hh mm ss : string) :
  isdigit y = true -> isdigit m = true -> isdigit d = true ->
  isdigit hh = true -> isdigit mm = true -> isdigit ss = true ->
  let v := digits_value 0 in
  parse_date (y ++ "-" ++ m ++ "-" ++ d) = Date [v y; v m; v d; 0; 0; 0]
  /\ parse_date ((y ++ "-" ++ m ++ "-" ++ d) ++ " " ++ hh ++ ":" ++ mm ++ ":" ++ ss)
     = Date [v y; v m; v d; v hh; v mm; v ss]
  /\ parse_date y = Date [v y; 1; 1; 0; 0; 0]
  /\ parse_date (y ++ "-" ++ m) = Date [v y; v m; 1; 0; 0; 0]
  /\ parse_date ((y ++ "-" ++ m ++ "-" ++ d) ++ " " ++ hh ++ ":" ++ mm)
     = Date [v y; v m; v d; v hh; v mm; 0].
Proof.
  intros Y M D H MI S v.
  assert (Ly : lacks "-" y = true) by (now apply isdigit_lacks).
  assert (Lm : lacks "-" m = true) by (now apply isdigit_lacks).
  assert (Ld : lacks "-" d = true) by (now apply isdigit_lacks).
  assert (Lh : lacks ":" hh = true) by (now apply isdigit_lacks).
  assert (Li : lacks ":" mm = true) by (now apply isdigit_lacks).
  assert (Ls : lacks ":" ss = true) by (now apply isdigit_lacks).
  pose proof (isdigit_no_space _ Y) as Sy.
  pose proof (isdigit_no_space _ M) as Sm.
  pose proof (isdigit_no_space _ D) as Sd.
  pose proof (isdigit_no_space _ H) as Sh.
  pose proof (isdigit_no_space _ MI) as Si.
  pose proof (isdigit_no_space _ S) as Sss.
  pose proof (isdigit_nonempty _ Y) as Ny.
  pose proof (isdigit_nonempty _ H) as Nh.
  assert (Wymd : is_word (y ++ "-" ++ m ++ "-" ++ d)).
  { apply word_intro; [now apply is_empty_app_l|].
    repeat (apply no_space_lacks_app; try assumption; try reflexivity). }
  assert (Wym : is_word (y ++ "-" ++ m)).
  { apply word_intro; [now apply is_empty_app_l|].
    repeat (apply no_space_lacks_app; try assumption; try reflexivity). }
  assert (Wy : is_word y) by (now apply word_intro).
  assert (Whms : is_word (hh ++ ":" ++ mm ++ ":" ++ ss)).
  { apply word_intro; [now apply is_empty_app_l|].
    repeat (apply no_space_lacks_app; try assumption; try reflexivity). }
  assert (Whm : is_word (hh ++ ":" ++ mm)).
  { apply word_intro; [now apply is_empty_app_l|].
    repeat (apply no_space_lacks_app; try assumption; try reflexivity). }
  assert (Symd : split_char "-" (y ++ "-" ++ m ++ "-" ++ d) = [y; m; d]).
  { cbn [append]. rewrite split_char_item by exact Ly. rewrite split_char_item by exact Lm.
    now rewrite split_char_last. }
  assert (Sym : split_char "-" (y ++ "-" ++ m) = [y; m]).
  { cbn [append]. rewrite split_char_item by exact Ly. now rewrite split_char_last. }
  assert (Shms : split_char ":" (hh ++ ":" ++ mm ++ ":" ++ ss) = [hh; mm; ss]).
  { cbn [append]. rewrite split_char_item by exact Lh. rewrite split_char_item by exact Li.
    now rewrite split_char_last. }
  assert (Shm : split_char ":" (hh ++ ":" ++ mm) = [hh; mm]).
  { cbn [append]. rewrite split_char_item by exact Lh. now rewrite split_char_last. }
  unfold parse_date, parse_date_body.
  repeat split.
  - rewrite split_whitespace_one by exact Wymd. cbn [map List.length Nat.leb].
    rewrite Symd, map_int_digits by (repeat constructor; assumption).
    reflexivity.
  - rewrite split_whitespace_two by assumption.
    cbn [map List.length Nat.leb nth].
    rewrite !strip_no_space by (apply Wymd || apply Whms).
    rewrite Symd, Shms.
    rewrite !map_int_digits by (repeat constructor; assumption).
    reflexivity.
  - rewrite split_whitespace_one by exact Wy. cbn [map List.length Nat.leb].
    rewrite split_char_last by exact Ly.
    rewrite map_int_digits by (repeat constructor; assumption).
    reflexivity.
  - rewrite split_whitespace_one by exact Wym. cbn [map List.length Nat.leb].
    rewrite Sym, map_int_digits by (repeat constructor; assumption).
    reflexivity.
  - rewrite split_whitespace_two by assumption.
    cbn [map List.length Nat.leb nth].
    rewrite !strip_no_space by (apply Wymd || apply Whm).
    rewrite Symd, Shm.
    rewrite !map_int_digits by (repeat constructor; assumption).
    reflexivity.
Qed.

Lemma parse_date_formats_witness :
  let v := digits_value 0 in
  parse_date ("2013" ++ "-" ++ "06" ++ "-" ++ "17")
  = Date [v "2013"; v "06"; v "17"; 0; 0; 0]
  /\ parse_date (("2013" ++ "-" ++ "06" ++ "-" ++ "17")
                 ++ " " ++ "02" ++ ":" ++ "47" ++ ":" ++ "42")
     = Date [v "2013"; v "06"; v "17"; v "02"; v "47"; v "42"]
  /\ parse_date "2013" = Date [v "2013"; 1; 1; 0; 0; 0]
  /\ parse_date ("2013" ++ "-" ++ "06") = Date [v "2013"; v "06"; 1; 0; 0; 0]
  /\ parse_date (("2013" ++ "-" ++ "06" ++ "-" ++ "17") ++ " " ++ "02" ++ ":" ++ "47")
     = Date [v "2013"; v "06"; v "17"; v "02"; v "47"; 0].
Proof.
  apply (parse_date_formats "2013" "06" "17" "02" "47" "42"); reflexivity.
Defined.

(** X23: whatever [parse_date] accepts, the result has six numbers and the
    year, the month and the day are not negative (the hyphen is the
    separator, so it is never read as a sign); nothing checks that they are
    in range. *)
Theorem parse_date_fields (datestring : string) (fields : list Z) :
  parse_date datestring = Date fields ->
  exists year month day hour minute second,
    fields = [year; month; day; hour; minute; second]
    /\ 0 <= year /\ 0 <= month /\ 0 <= day.
Proof.
  unfold parse_date.
  destruct (parse_date_body datestring) as [f|e] eqn:E; [|discriminate].
  intros [= <-]. now apply (parse_date_body_fields datestring).
Qed.

Lemma parse_date_fields_witness :
  parse_date "2013-13-99 -5" = Date [2013; 13; 99; -5; 0; 0]
  /\ exists year month day hour minute second,
       [2013; 13; 99; -5; 0; 0] = [year; month; day; hour; minute; second]
       /\ 0 <= year /\ 0 <= month /\ 0 <= day.
Proof.
  split; [reflexivity|].
  apply (parse_date_fields "2013-13-99 -5"). reflexivity.
Defined.

(** X24: [parse_date] raises [InvalidDate], built from the text as given,
    for a text that starts with a hyphen and for a text that is empty or
    white space only. *)
Theorem parse_date_rejects (datestring : string) :
  starts_with_char "-" datestring = true \/ all_space datestring = true ->
  parse_date datestring = InvalidDate datestring.
Proof.
  intros [H|H]; unfold parse_date, parse_date_body.
  - destruct datestring as [|c r]; [discriminate|].
    simpl in H. apply Ascii.eqb_eq in H. subst c.
    destruct (split_whitespace_minus r) as (w & rest & ->).
    cbn [map]. destruct (strip_minus w) as (w' & ->).
    cbn [List.length nth split_char Ascii.eqb Bool.eqb map_int].
    destruct (2 <=? _)%nat; reflexivity.
  - rewrite (proj2 (split_whitespace_nil datestring) H).
    cbn [map List.length Nat.leb].
    rewrite split_char_last by (now apply all_space_lacks).
    cbn [map_int]. now rewrite int_of_text_blank.
Qed.

Lemma parse_date_rejects_witness :
  parse_date "-2013-06-17" = InvalidDate "-2013-06-17".
Proof. apply (parse_date_rejects "-2013-06-17"). left. reflexivity. Defined.

(** ** ANSI escape sequences *)

Lemma lookup_color_code (name : string) (code : Z) :
  lookup name ANSI_COLOR_CODES = Some code -> 0 <= code <= 7.
Proof.
  unfold ANSI_COLOR_CODES. cbn [lookup].
  repeat match goal with
         | |- context [String.eqb ?a name] => destruct (String.eqb a name)
         end;
    intros [= <-]; lia.
Qed.

Lemma sgr_parameters_digits (s : string) :
  all_digits s = true -> sgr_parameters s = true.
Proof.
  induction s as [|c s IH]; [reflexivity|]. simpl. intros H.
  apply andb_true_iff in H. destruct H as [Hc H]. now rewrite Hc, IH.
Qed.

Lemma sgr_parameters_app (a b : string) :
  sgr_parameters (a ++ b) = sgr_parameters a && sgr_parameters b.
Proof.
  induction a as [|c a IH]; [reflexivity|]. simpl. now rewrite IH, andb_assoc.
Qed.

Lemma sgr_parameters_concat (l : list string) :
  Forall (fun p => all_digits p = true) l ->
  sgr_parameters (String.concat ";" l) = true.
Proof.
  induction 1 as [|p [|q r] Hp _ IH]; [reflexivity| |].
  - simpl. now apply sgr_parameters_digits.
  - change (String.concat ";" (p :: q :: r))
      with (p ++ ";" ++ String.concat ";" (q :: r)).
    rewrite sgr_parameters_app, (sgr_parameters_digits p Hp).
    simpl. exact IH.
Qed.

Lemma concat_nonempty (sep : string) (l : list string) :
  Forall (fun p => is_empty p = false) l -> l <> [] ->
  is_empty (String.concat sep l) = false.
Proof.
  intros F N. destruct F as [|p [|q r] Hp _]; [congruence|exact Hp|].
  change (String.concat sep (p :: q :: r))
    with (p ++ sep ++ String.concat sep (q :: r)).
  now apply is_empty_app_l.
Qed.

(** The three outcomes of [ansi_style]. *)
Lemma ansi_style_cases (kw : style) :
  (unknown_color kw = true /\ ansi_style kw = Raise ValueError)
  \/ (unknown_color kw = false /\ plain kw = true /\ ansi_style kw = Ok "")
  \/ (unknown_color kw = false /\ plain kw = false
      /\ exists parameters,
           ansi_style kw = Ok (ANSI_CSI ++ parameters ++ ANSI_SGR)
           /\ is_empty parameters = false
           /\ sgr_parameters parameters = true).
Proof.
  unfold ansi_style, unknown_color, plain.
  set (flags := (if strike_through kw then _ else _)).
  assert (F : Forall (fun p => isdigit p = true) flags
              /\ is_nil flags = negb (bold kw) && negb (faint kw)
                                && negb (underline kw) && negb (inverse kw)
                                && negb (strike_through kw)).
  { unfold flags.
    destruct (bold kw), (faint kw), (underline kw), (inverse kw),
      (strike_through kw); split; try reflexivity; cbn [app];
      repeat constructor. }
  destruct F as [F N]. clearbody flags. rewrite <- N.
  assert (Shape : forall sequences,
             Forall (fun p => isdigit p = true) sequences ->
             sequences <> [] ->
             exists parameters,
               @Ok string (ANSI_CSI ++ String.concat ";" sequences ++ ANSI_SGR)
               = Ok (ANSI_CSI ++ parameters ++ ANSI_SGR)
               /\ is_empty parameters = false
               /\ sgr_parameters parameters = true).
  { intros sequences Fs Ns. exists (String.concat ";" sequences).
    split; [reflexivity|]. split.
    - apply concat_nonempty; [|exact Ns].
      apply Forall_impl with (2 := Fs). intros a. apply isdigit_nonempty.
    - apply sgr_parameters_concat.
      apply Forall_impl with (2 := Fs). intros a. apply isdigit_all_digits. }
  assert (Flags : (fun sequences : list string =>
                     if negb (is_nil sequences)
                     then Ok (ANSI_CSI ++ String.concat ";" sequences ++ ANSI_SGR)
                     else Ok "") flags
                  = if is_nil flags then Ok ""
                    else Ok (ANSI_CSI ++ String.concat ";" flags ++ ANSI_SGR))
    by (now destruct flags).
  destruct (color kw) as [name|].
  - destruct (is_empty name) eqn:En; cbn [negb andb bind].
    + right. rewrite andb_true_r. destruct flags as [|f fl].
      * left. auto.
      * right. repeat split. apply Shape; [exact F|discriminate].
    + destruct (lookup name ANSI_COLOR_CODES) as [code|] eqn:L.
      * right. right. rewrite andb_false_r. repeat split.
        cbn [bind].
        assert (Ne : is_nil (flags ++ [("3" ++ str_of_int code)%string])%list
                     = false) by (now destruct flags).
        rewrite Ne. cbn [negb]. apply Shape.
        -- apply Forall_app. split; [exact F|]. repeat constructor.
           pose proof (lookup_color_code name code L) as B.
           change ("3" ++ str_of_int code) with (String "3" (str_of_int code)).
           rewrite isdigit_cons. cbn [is_digit andb].
           apply isdigit_all_digits, str_of_int_isdigit. lia.
        -- destruct flags; discriminate.
      * left. auto.
  - right. cbn [bind]. rewrite andb_true_r. destruct flags as [|f fl].
    + left. auto.
    + right. repeat split. apply Shape; [exact F|discriminate].
Qed.

Lemma ansi_strip_step (c d : ascii) (rest : string) :
  ansi_strip_from false (String c (String d rest))
  = if Ascii.eqb c ESC && Ascii.eqb d "[" && reaches_sgr rest
    then ansi_strip_from true rest
    else String c (ansi_strip_from false (String d rest)).
Proof. reflexivity. Qed.

Lemma ansi_strip_plain (text suffix : string) :
  lacks ESC text = true -> is_empty suffix = false ->
  ansi_strip_from false (text ++ suffix) = text ++ ansi_strip_from false suffix.
Proof.
  intros L S. induction text as [|c t IH]; [reflexivity|].
  simpl in L. apply andb_true_iff in L. destruct L as [Lc L].
  apply negb_true_iff in Lc. cbn [append].
  destruct (t ++ suffix) as [|d r] eqn:E.
  - destruct t; [simpl in E; now rewrite E in S|discriminate].
  - rewrite ansi_strip_step, Lc. cbn [andb]. f_equal. now apply IH.
Qed.

Lemma ansi_strip_clean (text : string) :
  lacks ESC text = true -> ansi_strip text = text.
Proof.
  unfold ansi_strip. induction text as [|c t IH]; [reflexivity|].
  intros L. simpl in L. apply andb_true_iff in L. destruct L as [Lc L].
  apply negb_true_iff in Lc.
  destruct t as [|d r]; [reflexivity|].
  rewrite ansi_strip_step, Lc. cbn [andb]. now rewrite IH.
Qed.

Lemma sgr_parameters_char (c : ascii) :
  is_digit c || Ascii.eqb c ";" = true ->
  Ascii.eqb c "m" = false /\ Ascii.eqb c LF = false.
Proof.
  destruct c as [[] [] [] [] [] [] [] []]; try discriminate; split; reflexivity.
Qed.

Lemma reaches_sgr_parameters (parameters rest : string) :
  sgr_parameters parameters = true ->
  reaches_sgr (parameters ++ ANSI_SGR ++ rest) = true.
Proof.
  induction parameters as [|c p IH]; [reflexivity|]. simpl. intros H.
  apply andb_true_iff in H. destruct H as [Hc H].
  destruct (sgr_parameters_char c Hc) as [-> ->]. now apply IH.
Qed.

Lemma skip_parameters (parameters rest : string) :
  sgr_parameters parameters = true ->
  ansi_strip_from true (parameters ++ ANSI_SGR ++ rest)
  = ansi_strip_from false rest.
Proof.
  induction parameters as [|c p IH]; [reflexivity|]. simpl. intros H.
  apply andb_true_iff in H. destruct H as [Hc H].
  destruct (sgr_parameters_char c Hc) as [-> _]. now apply IH.
Qed.

Lemma ansi_strip_sequence (parameters rest : string) :
  sgr_parameters parameters = true ->
  ansi_strip ((ANSI_CSI ++ parameters ++ ANSI_SGR) ++ rest) = ansi_strip rest.
Proof.
  intros H. unfold ansi_strip, ANSI_CSI.
  rewrite !append_assoc.
  change (String ESC "[" ++ parameters ++ ANSI_SGR ++ rest)
    with (String ESC (String "[" (parameters ++ ANSI_SGR ++ rest))).
  rewrite ansi_strip_step, !Ascii.eqb_refl.
  rewrite reaches_sgr_parameters by exact H. cbn [andb].
  now apply skip_parameters.
Qed.

(** X27: [ansi_style] raises [ValueError] exactly for a color name that is
    not in [ANSI_COLOR_CODES]; it returns the empty string exactly when no
    style is asked for; in every other case it returns one escape sequence,
    the introducer, parameters made of digits and semicolons, and ["m"]. *)
Theorem ansi_style_outcomes (kw : style) :
  (unknown_color kw = true /\ ansi_style kw = Raise ValueError)
  \/ (unknown_color kw = false /\ plain kw = true /\ ansi_style kw = Ok "")
  \/ (unknown_color kw = false /\ plain kw = false
      /\ exists parameters,
           ansi_style kw = Ok (ANSI_CSI ++ parameters ++ ANSI_SGR)
           /\ is_empty parameters = false
           /\ sgr_parameters parameters = true).
Proof. exact (ansi_style_cases kw). Qed.

(** X28: [ansi_strip] undoes [ansi_wrap]: for a text without the escape
    character and any style that [ansi_style] accepts, stripping the
    wrapped text gives the text back, and [ansi_width] of the wrapped text
    is the length of the text. *)
Theorem ansi_strip_wrap (text : string) (kw : style) (wrapped : string) :
  lacks ESC text = true -> ansi_wrap text kw = Ok wrapped ->
  ansi_strip wrapped = text
  /\ ansi_width wrapped = String.length text.
Proof.
  intros L W.
  assert (S : ansi_strip wrapped = text).
  { unfold ansi_wrap in W.
    destruct (ansi_style_cases kw)
      as [[_ E]|[(_ & _ & E)|(_ & _ & p & E & N & P)]];
      rewrite E in W; cbn [bind] in W.
    - discriminate.
    - cbn [is_empty negb] in W. apply Ok_inj in W. subst wrapped.
      now apply ansi_strip_clean.
    - assert (Ne : is_empty (ANSI_CSI ++ p ++ ANSI_SGR) = false) by reflexivity.
      rewrite Ne in W. cbn [negb] in W. apply Ok_inj in W. subst wrapped.
      rewrite ansi_strip_sequence by exact P.
      unfold ansi_strip. rewrite ansi_strip_plain by (try exact L; reflexivity).
      change (ansi_strip_from false ANSI_RESET) with "".
      apply append_nil_r. }
  split; [exact S|]. unfold ansi_width. now rewrite S.
Qed.

Lemma ansi_strip_wrap_witness :
  ansi_strip (String ESC "[1;31mwarning" ++ String ESC "[0m") = "warning"
  /\ ansi_width (String ESC "[1;31mwarning" ++ String ESC "[0m")
     = String.length "warning".
Proof.
  apply (ansi_strip_wrap "warning"
           (mk_style (Some "red") true false false false false));
    reflexivity.
Defined.

(** ** The text functions: normal forms and round trips *)

Lemma compact_empty (text : string) :
  compact text = "" <-> all_space text = true.
Proof.
  unfold compact, format. rewrite <- split_whitespace_nil.
  pose proof (split_whitespace_words text) as W.
  split; [|now intros ->].
  intros E. destruct (split_whitespace text) as [|w r]; [reflexivity|].
  exfalso.
  assert (N : is_empty (String.concat " " (w :: r)) = false).
  { apply concat_nonempty; [|discriminate].
    apply Forall_impl with (2 := W). now intros a [H _]. }
  now rewrite E in N.
Qed.

Lemma pop_trailing_ends (lines : list string) :
  pop_trailing lines = lines -> ends_with_text lines = true.
Proof.
  induction lines as [|a r IH]; [reflexivity|].
  cbn [pop_trailing].
  destruct (is_empty_line a && is_nil (pop_trailing r)) eqn:E; [discriminate|].
  intros H. injection H as H. specialize (IH H).
  destruct r as [|b r']; cbn [ends_with_text last] in *.
  - simpl in E. now rewrite andb_true_r in E; rewrite E.
  - exact IH.
Qed.

Lemma all_space_substring (p t : string) :
  substring p t -> all_space t = true -> all_space p = true.
Proof.
  intros (a & b & ->). rewrite !all_space_app.
  intros H. apply andb_true_iff in H. destruct H as [_ H].
  now apply andb_true_iff in H.
Qed.

Lemma isspace_false (p : string) :
  negb (is_empty p) && negb (isspace p) = true -> all_space p = false.
Proof.
  unfold isspace. destruct p as [|c p]; [discriminate|].
  cbn [is_empty negb andb]. now intros H%negb_true_iff.
Qed.

(** X1: [compact] returns its text in a normal form: no white space at the
    start or the end, and every run of white space turned into one space; the
    words are those of the text, in order; a second call changes nothing,
    and the result is empty exactly when the text is white space only. *)
Theorem compact_normal_form (text : string) :
  starts_clean (compact text) = true
  /\ single_spaced (compact text) = true
  /\ split_whitespace (compact text) = split_whitespace text
  /\ compact (compact text) = compact text
  /\ (compact text = "" <-> all_space text = true).
Proof.
  pose proof (split_whitespace_words text) as W.
  destruct (concat_words_normal _ W) as [C S].
  change (String.concat " " (split_whitespace text)) with (compact text) in C, S.
  split; [exact C|]. split; [exact S|]. split; [|split].
  - unfold compact, format. now apply split_whitespace_concat.
  - unfold compact at 1. unfold format.
    rewrite single_spaced_lstrip by exact S. now apply lstrip_clean.
  - apply compact_empty.
Qed.

(** X2: a text in normal form (it does not start with white space, and each
    white space character is a single space before another character) is
    left as it is by [compact]. *)
Theorem compact_fixed_point (text : string) :
  starts_clean text = true -> single_spaced text = true ->
  compact text = text.
Proof.
  intros C S. unfold compact, format.
  rewrite single_spaced_lstrip by exact S. now apply lstrip_clean.
Qed.

Lemma compact_fixed_point_witness : compact "to be or not" = "to be or not".
Proof. apply (compact_fixed_point "to be or not"); reflexivity. Defined.

(** X3: [trim_empty_lines] removes whole lines that are empty or white space
    only from the start and the end of a text and nothing else: the text is
    the removed lines, the result, and the removed lines; the result neither
    starts nor ends with such a line, and trimming it again changes
    nothing. *)
Theorem trim_empty_lines_spec (text : string) :
  exists before after,
    text = before ++ trim_empty_lines text ++ after
    /\ all_space before = true /\ all_space after = true
    /\ splitlines text
       = (splitlines before ++ splitlines (trim_empty_lines text)
          ++ splitlines after)%list
    /\ starts_with_text (splitlines (trim_empty_lines text)) = true
    /\ ends_with_text (splitlines (trim_empty_lines text)) = true
    /\ trim_empty_lines (trim_empty_lines text) = trim_empty_lines text.
Proof.
  destruct (trim_empty_lines_kept text)
    as (pre & mid & post & E & F & F' & S & P & T).
  assert (M : splitlines (flatten mid) = mid).
  { apply (splitlines_prefix (flatten (mid ++ post)) mid post).
    apply (splitlines_suffix pre _ text). exact E. }
  assert (Mpre : splitlines (flatten pre) = pre).
  { apply (splitlines_prefix text pre (mid ++ post)). exact E. }
  assert (Mpost : splitlines (flatten post) = post).
  { apply (splitlines_suffix (pre ++ mid) post text).
    now rewrite <- app_assoc. }
  exists (flatten pre), (flatten post). rewrite T, M, Mpre, Mpost.
  split; [|split; [now apply all_space_flatten|
           split; [now apply all_space_flatten|]]].
  - rewrite <- !flatten_app, <- E. symmetry. apply splitlines_flatten.
  - split; [exact E|]. split; [exact S|]. split; [now apply pop_trailing_ends|].
    unfold trim_empty_lines.
    rewrite M, pop_leading_fixed by exact S. rewrite P.
    apply concat_empty_flatten.
Qed.

(** X4: every paragraph that [split_paragraphs] returns is a piece of the
    text that is not white space only, holds no two line feeds in a row and
    neither starts nor ends with an empty line; a text of white space only
    has no paragraph. *)
Theorem split_paragraphs_spec (text : string) :
  Forall (fun p => all_space p = false
                   /\ has_blank_line p = false
                   /\ trim_empty_lines p = p
                   /\ substring p text)
    (split_paragraphs text)
  /\ (all_space text = true -> split_paragraphs text = []).
Proof.
  unfold split_paragraphs. rewrite split_paragraphs_loop_filter. cbn [app].
  pose proof (proj1 (split_blank_line_chunks text)) as Sub.
  pose proof (proj1 (split_blank_line_no_blank text)) as NoB.
  split.
  - induction (split_blank_line text) as [|ch rest IH]; [constructor|].
    cbn [map filter].
    assert (IH' : Forall
              (fun p => all_space p = false /\ has_blank_line p = false
                        /\ trim_empty_lines p = p /\ substring p text)
              (filter (fun p => negb (is_empty p) && negb (isspace p))
                 (map trim_empty_lines rest))).
    { apply IH.
      - intros x Hx. apply Sub. now right.
      - now inversion NoB. }
    destruct (negb (is_empty (trim_empty_lines ch))
              && negb (isspace (trim_empty_lines ch))) eqn:K; [|exact IH'].
    constructor; [|exact IH'].
    assert (Sch : substring (trim_empty_lines ch) ch)
      by apply trim_empty_lines_substring.
    split; [now apply isspace_false|]. split; [|split].
    + apply (has_blank_line_substring _ ch Sch). now inversion NoB.
    + apply trim_empty_lines_idem.
    + apply (substring_trans _ ch); [exact Sch|]. apply Sub. now left.
  - intros A.
    induction (split_blank_line text) as [|ch rest IH]; [reflexivity|].
    cbn [map filter].
    assert (Ach : all_space ch = true).
    { apply (all_space_substring ch text); [|exact A]. apply Sub. now left. }
    rewrite (all_space_trim ch Ach). cbn [is_empty negb andb].
    apply IH.
    + intros x Hx. apply Sub. now right.
    + now inversion NoB.
Qed.

Lemma split_paragraphs_spec_witness : split_paragraphs (String LF " ") = [].
Proof. apply (proj2 (split_paragraphs_spec (String LF " "))). reflexivity. Defined.

(** X5: [join_lines] returns the text with some of its line feeds turned
    into spaces and nothing else changed, then stripped; it never joins
    across a blank line: two line feeds in a row stay, and the text on each
    side of them is joined on its own. *)
Theorem join_lines_keeps (x y : string) :
  (exists joined,
      join_lines x = strip joined /\ unwrapped x joined = true)
  /\ exists jx jy,
       join_lines (x ++ String LF (String LF y))
       = strip (jx ++ String LF (String LF jy))
       /\ unwrapped x jx = true /\ unwrapped y jy = true.
Proof.
  split.
  - exists (join_lines_sub x). split; [reflexivity|].
    apply join_lines_sub_unwrapped.
  - exists (join_lines_sub x), (join_lines_sub y).
    split; [|split; apply join_lines_sub_unwrapped].
    unfold join_lines. now rewrite join_lines_sub_blank.
Qed.

(** X6: a line feed between two characters that are not white space is
    replaced by a space, and the search goes on after the second character:
    when a line of one character follows, the line feed after it stays. *)
Theorem join_lines_pairs (x : string) (c : ascii) (y : string) :
  lacks LF x = true -> ends_word x = true -> is_space c = false ->
  join_lines_sub (x ++ String LF (String c y))
  = x ++ String " " (String c (join_lines_sub y))
  /\ join_lines_sub (x ++ String LF (String c (String LF y)))
     = x ++ String " " (String c (String LF (join_lines_sub y))).
Proof.
  intros L E C. split.
  - now apply join_lines_sub_pair.
  - rewrite join_lines_sub_pair by assumption.
    now rewrite join_lines_sub_space by apply is_space_LF.
Qed.

Lemma join_lines_pairs_witness :
  join_lines_sub ("ab" ++ String LF (String "c" "d"))
  = "ab" ++ String " " (String "c" (join_lines_sub "d"))
  /\ join_lines_sub ("ab" ++ String LF (String "c" (String LF "d")))
     = "ab" ++ String " " (String "c" (String LF (join_lines_sub "d"))).
Proof. apply (join_lines_pairs "ab" "c" "d"); reflexivity. Defined.

(** X7: no string that [split] returns is empty, has white space around it
    or holds a comma. *)
Theorem split_gives_items (text : string) : Forall is_item (split text).
Proof.
  unfold split. pose proof (split_char_lacks "," text) as L.
  induction L as [|x l Hx _ IH]; [constructor|].
  cbn [filter]. destruct (negb (is_empty x) && negb (isspace x)) eqn:K;
    [|exact IH].
  cbn [map]. constructor; [|exact IH].
  apply andb_true_iff in K. destruct K as [K1 K2].
  apply negb_true_iff in K1, K2.
  split; [|split; [apply strip_idem|now apply lacks_strip]].
  destruct (is_empty (strip x)) eqn:E; [|reflexivity].
  apply strip_all_space in E. unfold isspace in K2.
  now rewrite K1, E in K2.
Qed.

(** X8: [split] undoes a join: items that are not empty, have no white
    space around them and hold no comma, joined by a comma and any white
    space, are given back as they were. *)
Theorem split_of_joined (pad : string) (items : list string) :
  all_space pad = true -> Forall is_item items ->
  split (String.concat (String "," pad) items) = items.
Proof.
  intros P F. destruct items as [|x r]; [reflexivity|].
  assert (Lp : lacks "," pad = true).
  { clear - P. induction pad as [|c p IH]; [reflexivity|].
    simpl in *. apply andb_true_iff in P. destruct P as [Pc P].
    rewrite IH by exact P. rewrite andb_true_r.
    destruct (Ascii.eqb c ",") eqn:E; [|reflexivity].
    apply Ascii.eqb_eq in E. subst c. discriminate. }
  unfold split. rewrite split_char_joined; [|
    apply Forall_impl with (2 := F); intros a (_ & _ & L); exact L | exact Lp].
  inversion F as [|? ? Hx Hr]; subst.
  cbn [filter]. pose proof (split_kept "" x eq_refl Hx) as Kx.
  cbn [append] in Kx. rewrite Kx. cbn [map].
  destruct Hx as (_ & Sx & _). rewrite Sx. f_equal.
  clear - P Hr. induction Hr as [|y r Hy Hr IH]; [reflexivity|].
  cbn [map filter]. rewrite (split_kept pad y P Hy). cbn [map].
  rewrite strip_pad by exact P. destruct Hy as (_ & Sy & _).
  rewrite Sy. now f_equal.
Qed.

Lemma split_of_joined_witness :
  split (String.concat (String "," " ") ["eggs"; "milk"; "brown bread"])
  = ["eggs"; "milk"; "brown bread"].
Proof.
  apply (split_of_joined " " ["eggs"; "milk"; "brown bread"]);
    [reflexivity|].
  repeat constructor.
Defined.

(** ** Lengths: what [format_length] prints and [parse_length] reads *)

(** X11: [format_length] of an integer number of metres (below [2 ** 53] in
    magnitude): zero and negative numbers are printed as they are, in
    metres; from 1 to 999 the result is the number and ["metre"] or
    ["metres"]; from 1000 on the unit is the kilometre.  No integer is
    printed in a unit below the metre. *)
Theorem format_length_integers (n : Z) (keep_width : bool) :
  Z.abs n < 2 ^ 53 ->
  (n <= 0 -> format_length n keep_width = Ok (str_of_int n ++ " metres"))
  /\ (1 <= n < 1000 ->
      format_length n false
      = Ok (str_of_int n ++ " " ++ (if n =? 1 then "metre" else "metres")))
  /\ (1000 <= n ->
      format_length n keep_width
      = render_length kilometre_unit (Int n) keep_width).
Proof.
  intros B. split; [|split].
  - intros H. now apply format_length_below.
  - apply format_length_metres.
  - apply format_length_kilometres.
Qed.

Lemma format_length_integers_witness :
  format_length (-5) false = Ok "-5 metres"
  /\ format_length 42 false = Ok "42 metres"
  /\ format_length 1500 false = render_length kilometre_unit (Int 1500) false.
Proof.
  split; [|split].
  - apply (proj1 (format_length_integers (-5) false eq_refl)). discriminate.
  - apply (proj1 (proj2 (format_length_integers 42 false eq_refl))).
    split; [discriminate|reflexivity].
  - apply (proj2 (proj2 (format_length_integers 1500 false eq_refl))).
    discriminate.
Defined.

(** X12: for every number, integer or float, that reaches a unit of
    [length_size_units], the loop of [format_length] renders it with the
    largest unit whose divider it reaches, whatever follows the loop. *)
Theorem format_length_unit (x : number) (keep_width : bool) (u : unit)
    (otherwise : outcome string) :
  largest_reached length_size_units x u ->
  format_length_loop (rev length_size_units) x keep_width otherwise
  = render_length u x keep_width.
Proof.
  intros [Hin [Hge Hmax]]. rewrite format_length_loop_find.
  apply in_rev in Hin. destruct (in_split _ _ Hin) as [before [after E]].
  assert (F : first_match (fun u => num_ge x (divider u))
                (rev length_size_units) u).
  { exists before, after. split; [exact E|]. split; [exact Hge|].
    intros v Hv.
    destruct (num_ge x (divider v)) eqn:G; [|reflexivity].
    assert (Hv' : In v length_size_units).
    { apply in_rev. rewrite E. apply in_or_app. left. exact Hv. }
    pose proof (length_size_units_sorted) as S. rewrite E in S.
    pose proof (sorted_before _ _ _ _ S v Hv) as L. unfold larger_divider in L.
    rewrite (Hmax v Hv' G) in L. discriminate L. }
  apply first_match_find in F. rewrite F. reflexivity.
Qed.

Lemma format_length_unit_witness :
  format_length_loop (rev length_size_units) (float_literal (4 # 1000)) false
    (Raise ValueError)
  = render_length milli_unit (float_literal (4 # 1000)) false
  /\ render_length milli_unit (float_literal (4 # 1000)) false = Ok "4 mm".
Proof.
  split; [|vm_compute; reflexivity].
  apply (format_length_unit (float_literal (4 # 1000)) false milli_unit).
  split; [right; left; reflexivity|]. split; [vm_compute; reflexivity|].
  intros v Hv. cbn [length_size_units In] in Hv.
  destruct Hv as [<-|[<-|[<-|[<-|[<-|[]]]]]];
    vm_compute; intros E; congruence.
Defined.

(** X13: a length from 0 to 999 metres, formatted and parsed, is read back
    exactly. *)
Theorem length_round_trip (n : Z) :
  0 <= n < 1000 ->
  exists text,
    format_length n false = Ok text /\ parse_length text = Ok (Int n).
Proof.
  intros H.
  exists (str_of_int n ++ " " ++ (if n =? 1 then "metre" else "metres")).
  split.
  - destruct (Z.eq_dec n 0) as [->|N]; [vm_compute; reflexivity|].
    apply format_length_metres. lia.
  - assert (D : isdigit (str_of_int n) = true) by (apply str_of_int_isdigit; lia).
    unfold parse_length.
    destruct (n =? 1);
      (rewrite tokenize_int_unit by (try exact D; reflexivity));
      rewrite digits_value_str by lia; cbn [bind];
      (match goal with
       | |- context [unit_tokens ?s] =>
           change (unit_tokens s) with [TStr (strip s)]
       end);
      cbn [strip lstrip rstrip is_space is_empty];
      rewrite (parse_length_loop_find _ _ _ _ length_size_units_prefix);
      (match goal with
       | |- context [find ?f ?l] =>
           let r := eval vm_compute in (find f l) in
           change (find f l) with r
       end);
      unfold num_mul; cbn [divider]; now rewrite Z.mul_1_r.
Qed.

Lemma length_round_trip_witness :
  exists text,
    format_length 42 false = Ok text /\ parse_length text = Ok (Int 42).
Proof. apply (length_round_trip 42). split; [discriminate|reflexivity]. Defined.

(** ** [prompt_for_choice] *)

Lemma choice_at_In (choices : list string) (index : Z) (c : string) :
  choice_at choices index = Some c -> In c choices.
Proof.
  unfold choice_at. destruct (_ && _); [|discriminate].
  apply nth_error_In.
Qed.

Lemma find_matches_exact (choices : list string) (input : string) :
  forall acc c, find_matches choices input acc = inl c ->
    find (same_name input) choices = Some c.
Proof.
  induction choices as [|ch rest IH]; intros acc c; [discriminate|].
  cbn [find_matches find]. unfold same_name at 1.
  destruct (String.eqb (lower input) (lower ch)); [now intros [= ->]|].
  destruct (contains (lower ch) (lower input)); apply IH.
Qed.

Lemma find_matches_holds (choices : list string) (input : string) :
  forall acc ms, find_matches choices input acc = inr ms ->
    find (same_name input) choices = None
    /\ ms = (acc ++ filter (holds_name input) choices)%list.
Proof.
  induction choices as [|ch rest IH]; intros acc ms.
  - intros [= <-]. split; [reflexivity|]. now rewrite app_nil_r.
  - cbn [find_matches find filter]. unfold same_name at 1, holds_name at 1.
    destruct (String.eqb (lower input) (lower ch)); [discriminate|].
    destruct (contains (lower ch) (lower input)); intros H;
      destruct (IH _ _ H) as [F ->]; split; try exact F.
    + now rewrite <- app_assoc.
    + reflexivity.
Qed.

Lemma find_matches_found (choices : list string) (input : string) :
  forall acc,
    find_matches choices input acc
    = match find (same_name input) choices with
      | Some c => inl c
      | None => inr (acc ++ filter (holds_name input) choices)%list
      end.
Proof.
  intros acc. destruct (find_matches choices input acc) as [c|ms] eqn:E.
  - now rewrite (find_matches_exact _ _ _ _ E).
  - destruct (find_matches_holds _ _ _ _ E) as [-> ->]. reflexivity.
Qed.

(** One turn of the loop, in the words of the theorem. *)
Lemma prompt_loop_step (choices : list string) (default : option string)
    (answer : string) (rest printed : list string) :
  is_empty (strip answer) = false ->
  prompt_loop choices default (answer :: rest) printed
  = match by_number choices (strip answer) with
    | Some c => (printed, Returned c)
    | None =>
        match find (same_name (strip answer)) choices with
        | Some c => (printed, Returned c)
        | None =>
            match filter (holds_name (strip answer)) choices with
            | [c] => (printed, Returned c)
            | matches =>
                prompt_loop choices default rest
                  (printed ++ [error_message (strip answer) matches])%list
            end
        end
    end.
Proof.
  intros N. cbn [prompt_loop]. rewrite N. unfold by_number.
  destruct (if isdigit (strip answer) then _ else None); [reflexivity|].
  rewrite find_matches_found. cbn [app].
  destruct (find (same_name (strip answer)) choices); [reflexivity|].
  destruct (filter (holds_name (strip answer)) choices) as [|m [|m' ms]];
    try reflexivity.
  unfold error_message. now destruct (isdigit (strip answer)).
Qed.

Lemma prompt_loop_returns (choices : list string) (default : option string)
    (answers : list string) :
  forall printed out c,
    prompt_loop choices default answers printed = (out, Returned c) ->
    In c choices \/ default = Some c.
Proof.
  induction answers as [|answer rest IH]; intros printed out c; [discriminate|].
  destruct (is_empty (strip answer)) eqn:N.
  - cbn [prompt_loop]. rewrite N.
    destruct default as [d|]; [intros [= _ ->]; now right|apply IH].
  - rewrite prompt_loop_step by exact N.
    destruct (by_number choices (strip answer)) as [b|] eqn:B.
    { intros [= _ <-]. left. unfold by_number in B.
      destruct (isdigit _); [|discriminate]. now apply choice_at_In in B. }
    destruct (find (same_name (strip answer)) choices) as [e|] eqn:F.
    { intros [= _ <-]. left. now apply find_some in F. }
    destruct (filter (holds_name (strip answer)) choices) as [|m [|m' ms]] eqn:M;
      try apply IH.
    intros [= _ <-]. left.
    assert (I : In m (filter (holds_name (strip answer)) choices))
      by (rewrite M; now left).
    now apply filter_In in I.
Qed.

(** X25: whatever the user types, what [prompt_for_choice] returns is one of
    the choices or the default. *)
Theorem prompt_for_choice_returns (choices : list string)
    (default : option string) (answers printed : list string) (c : string) :
  prompt_for_choice choices default answers = (printed, Returned c) ->
  In c choices \/ default = Some c.
Proof. unfold prompt_for_choice. apply prompt_loop_returns. Qed.

Lemma prompt_for_choice_returns_witness :
  In "banana" ["apple"; "banana"] \/ @None string = Some "banana".
Proof.
  apply (prompt_for_choice_returns ["apple"; "banana"] None ["x"; "nan"]
           [" 1. apple"; " 2. banana";
            "Error: The string 'x' doesn't match any choices."]).
  reflexivity.
Defined.

(** X26: an answer that is not empty selects, in this order: the choice with
    that number, the first choice of that name (whatever the case), the only
    choice that holds it; when it selects nothing, one error is printed and
    the next answer is read. *)
Theorem prompt_for_choice_answer (choices : list string)
    (default : option string) (answer : string) (rest printed : list string) :
  is_empty (strip answer) = false ->
  prompt_loop choices default (answer :: rest) printed
  = match by_number choices (strip answer) with
    | Some c => (printed, Returned c)
    | None =>
        match find (same_name (strip answer)) choices with
        | Some c => (printed, Returned c)
        | None =>
            match filter (holds_name (strip answer)) choices with
            | [c] => (printed, Returned c)
            | matches =>
                prompt_loop choices default rest
                  (printed ++ [error_message (strip answer) matches])%list
            end
        end
    end.
Proof. apply prompt_loop_step. Qed.

Lemma prompt_for_choice_answer_witness :
  prompt_loop ["10"; "2"; "one"] None [" 1 "] [] = ([], Returned "10").
Proof.
  apply (prompt_for_choice_answer ["10"; "2"; "one"] None " 1 " [] []).
  reflexivity.
Defined.

(** ** [tokenize]: white space around the text *)

Lemma all_space_no_digit (ws : string) : all_space ws = true -> no_digit ws = true.
Proof.
  induction ws as [|c ws IH]; [reflexivity|]. simpl. intros H.
  apply andb_true_iff in H. destruct H as [Hc H]. rewrite IH by exact H.
  destruct (is_digit c) eqn:D; [|reflexivity].
  now rewrite (digit_not_space c D) in Hc.
Qed.

Lemma starts_with_digit_app (x ws : string) :
  no_digit ws = true -> starts_with_digit (x ++ ws) = starts_with_digit x.
Proof.
  intros N. destruct x as [|c x]; [|reflexivity].
  simpl. now apply no_digit_start.
Qed.

Lemma cons_head_snoc (c : ascii) (init : list string) (last : string) :
  init <> [] -> cons_head c (init ++ [last]) = (cons_head c init ++ [last])%list.
Proof. destruct init; [congruence|reflexivity]. Qed.

Lemma cons_head_nonempty (c : ascii) (l : list string) : cons_head c l <> [].
Proof. destruct l; discriminate. Qed.

(** White space after the text goes to the last fragment, which is a
    separator. *)
Lemma re_split_from_padded (ws : string) (x : string) :
  no_digit ws = true ->
  forall st, exists init last,
    re_split_from st x = (init ++ [last])%list
    /\ re_split_from st (x ++ ws) = (init ++ [(last ++ ws)%string])%list
    /\ no_digit last = true
    /\ (st <> InSep -> init <> []).
Proof.
  intros N. induction x as [|c x IH]; intros st.
  - destruct st.
    + exists [], "". split; [reflexivity|].
      split; [cbn [append app]; now apply re_split_sep|].
      split; [reflexivity|congruence].
    + exists [""], "". split; [reflexivity|].
      split; [cbn [append app]; apply re_split_after_number; congruence|].
      split; [reflexivity|congruence].
    + exists [""], "". split; [reflexivity|].
      split; [cbn [append app]; apply re_split_after_number; congruence|].
      split; [reflexivity|congruence].
  - cbn [append re_split_from]. rewrite starts_with_digit_app by exact N.
    assert (Extend : forall st',
      (st' = InSep -> is_digit c = false) ->
      exists init last,
        cons_head c (re_split_from st' x) = (init ++ [last])%list
        /\ cons_head c (re_split_from st' (x ++ ws)) = (init ++ [(last ++ ws)%string])%list
        /\ no_digit last = true
        /\ (st' <> InSep -> init <> [])).
    { intros st' Hc. destruct (IH st') as (init & last & E1 & E2 & L & I).
      rewrite E1, E2. destruct init as [|h t].
      - destruct st'; [|exfalso; now apply I..].
        exists [], (String c last). cbn [app cons_head append].
        repeat split; try congruence. simpl. now rewrite Hc.
      - exists (String c h :: t), last. cbn [app cons_head].
        repeat split; try assumption. discriminate. }
    assert (Fresh : forall st',
      (st' = InSep -> is_digit c = false) ->
      exists init last,
        "" :: cons_head c (re_split_from st' x) = (init ++ [last])%list
        /\ "" :: cons_head c (re_split_from st' (x ++ ws))
           = (init ++ [(last ++ ws)%string])%list
        /\ no_digit last = true
        /\ init <> []).
    { intros st' Hc. destruct (Extend st' Hc) as (init & last & E1 & E2 & L & _).
      exists ("" :: init), last. cbn [app]. rewrite E1, E2.
      repeat split; try assumption. discriminate. }
    destruct st.
    + destruct (is_digit c) eqn:D.
      * destruct (Fresh InInt) as (i & l & E1 & E2 & L & I); [congruence|].
        exists i, l. repeat split; assumption || congruence.
      * destruct (Extend InSep) as (i & l & E1 & E2 & L & I); [auto|].
        exists i, l. repeat split; assumption || congruence.
    + destruct (is_digit c) eqn:D.
      * destruct (Extend InInt) as (i & l & E1 & E2 & L & I); [congruence|].
        exists i, l. repeat split; try assumption; try (intros _; apply I; congruence).
      * destruct (Ascii.eqb c "." && starts_with_digit x).
        -- destruct (Extend InFrac) as (i & l & E1 & E2 & L & I); [congruence|].
           exists i, l. repeat split; try assumption; try (intros _; apply I; congruence).
        -- destruct (Fresh InSep) as (i & l & E1 & E2 & L & I); [auto|].
           exists i, l. repeat split; assumption || congruence.
    + destruct (is_digit c) eqn:D.
      * destruct (Extend InFrac) as (i & l & E1 & E2 & L & I); [congruence|].
        exists i, l. repeat split; try assumption; try (intros _; apply I; congruence).
      * destruct (Fresh InSep) as (i & l & E1 & E2 & L & I); [auto|].
        exists i, l. repeat split; assumption || congruence.
Qed.

Lemma tokenize_loop_app (l1 l2 : list string) :
  forall acc,
    tokenize_loop (l1 ++ l2) acc
    = (a <- tokenize_loop l1 acc ;; tokenize_loop l2 a).
Proof.
  induction l1 as [|f l1 IH]; intros acc; [reflexivity|].
  cbn [app tokenize_loop].
  destruct (re_match_float (strip f)).
  - destruct (float_of_str (strip f)); [apply IH|reflexivity].
  - destruct (isdigit (strip f)).
    + destruct (int_of_str (strip f)); [apply IH|reflexivity].
    + destruct (negb (is_empty (strip f))); apply IH.
Qed.

Lemma strip_space_after (s ws : string) :
  all_space ws = true -> strip (s ++ ws) = strip s.
Proof.
  intros H. pose proof (strip_around "" s ws eq_refl H) as E. exact E.
Qed.

Lemma tokenize_space_after (text ws : string) :
  all_space ws = true -> tokenize (text ++ ws) = tokenize text.
Proof.
  intros H. pose proof (all_space_no_digit ws H) as N.
  unfold tokenize, re_split.
  destruct (re_split_from_padded ws text N InSep)
    as (init & last & -> & -> & L & _).
  rewrite !tokenize_loop_app.
  destruct (tokenize_loop init []) as [a|e]; [|reflexivity]. cbn [bind].
  rewrite (tokenize_loop_sep last [] a L).
  rewrite (tokenize_loop_sep (last ++ ws) [] a)
    by (now rewrite no_digit_app, L, N).
  now rewrite strip_space_after.
Qed.

Lemma fragments_head (l : list string) :
  fragments_ok l -> exists h r, l = h :: r /\ no_digit h = true.
Proof. intros [sep H|sep num rest H _ _]; eauto. Qed.

Lemma tokenize_space_before (ws text : string) :
  all_space ws = true -> tokenize (ws ++ text) = tokenize text.
Proof.
  intros H. pose proof (all_space_no_digit ws H) as N.
  unfold tokenize. rewrite re_split_sep_then by exact N.
  destruct (fragments_head _ (re_split_ok text)) as (h & r & -> & L).
  rewrite (tokenize_loop_sep h r [] L).
  rewrite (tokenize_loop_sep (ws ++ h) r [])
    by (now rewrite no_digit_app, N, L).
  now rewrite strip_pad.
Qed.

(** X9: white space before and after a text does not change its tokens. *)
Theorem tokenize_ignores_padding (before text after : string) :
  all_space before = true -> all_space after = true ->
  tokenize (before ++ text ++ after) = tokenize text.
Proof.
  intros B A. rewrite tokenize_space_before by exact B.
  now apply tokenize_space_after.
Qed.

Lemma tokenize_ignores_padding_witness :
  tokenize (" " ++ "5 KB" ++ String LF "") = tokenize "5 KB".
Proof.
  apply (tokenize_ignores_padding " " "5 KB" (String LF "")); reflexivity.
Defined.

(** ** Sizes that [parse_size] reads back exactly *)

Lemma hundredths_quarters (x d m : Z) :
  0 < d -> 4 * x = m * d -> hundredths x d = 25 * m.
Proof.
  intros Hd E. unfold hundredths.
  assert (D0 : ~ (inject_Z d == 0)%Q).
  { intros H. unfold Qeq in H. simpl in H. lia. }
  assert (Q : (inject_Z x / inject_Z d * 100 == inject_Z (25 * m))%Q).
  { assert (E' : (4 * inject_Z x == inject_Z m * inject_Z d)%Q).
    { change 4%Q with (inject_Z 4). rewrite <- !inject_Z_mult. now rewrite E. }
    rewrite inject_Z_mult. change (inject_Z 25) with 25%Q.
    apply (Qmult_inj_r _ _ (inject_Z d) D0).
    assert (S : (inject_Z x / inject_Z d * 100 * inject_Z d
                 == 100 * inject_Z x)%Q) by (field; exact D0).
    rewrite S. lra. }
  rewrite (FloatFacts.round_half_even_comp _ _ Q).
  apply FloatFacts.round_half_even_Z.
Qed.

Lemma quarters_read_back (x j m : Z) :
  0 <= j <= 5 -> 0 <= x < 2 ^ 53 -> 4 * x = m * 2 ^ (10 * j) ->
  (v <- num_mul (numeral_number (25 * m)) (Int (2 ^ (10 * j))) ;;
   int_of_number v) = Ok x.
Proof.
  intros Hj Hx E. set (d := 2 ^ (10 * j)) in *.
  assert (Hd : 0 < d <= 2 ^ 50).
  { unfold d. split; [apply Z.pow_pos_nonneg; lia|].
    apply Z.pow_le_mono_r; lia. }
  assert (Hm : 0 <= m) by nia.
  unfold numeral_number.
  destruct (Z.eqb_spec (25 * m mod 100) 0) as [Z0|NZ].
  - cbn [num_mul bind int_of_number]. f_equal.
    apply Z.mod_divide in Z0; [|lia]. destruct Z0 as [t Ht].
    replace (25 * m) with (t * 100) by lia. rewrite Z.div_mul by lia. nia.
  - assert (J : 1 <= j).
    { destruct (Z.eq_dec j 0) as [->|]; [|lia]. exfalso. apply NZ.
      unfold d in E. change (2 ^ (10 * 0)) with 1 in E.
      replace (25 * m) with (x * 100) by lia. apply Z.mod_mul. lia. }
    assert (D1 : 1024 <= d).
    { unfold d. change 1024 with (2 ^ 10). apply Z.pow_le_mono_r; lia. }
    assert (Mb : m < 2 ^ 53) by nia.
    assert (Q : (inject_Z (25 * m) / 100 == inject_Z m * 2 ^ (-2))%Q).
    { rewrite inject_Z_mult. change (inject_Z 25) with 25%Q.
      change (2 ^ (-2))%Q with (1 # 4)%Q. field. }
    rewrite (FloatFacts.binary64_comp _ _ Q).
    rewrite FloatFacts.binary64_exact.
    + unfold num_mul. cbn [float_of_number bind].
      rewrite of_int_exact by lia. cbn [bind Float.mul].
      assert (P : (Qred (inject_Z m * 2 ^ (-2)) * inject_Z d == inject_Z x)%Q).
      { rewrite Qred_correct. change (2 ^ (-2))%Q with (1 # 4)%Q.
        assert (E' : (4 * inject_Z x == inject_Z m * inject_Z d)%Q).
        { change 4%Q with (inject_Z 4). rewrite <- !inject_Z_mult.
          now rewrite E. }
        lra. }
      rewrite (FloatFacts.binary64_comp _ _ P).
      rewrite FloatFacts.binary64_int by lia.
      cbn [int_of_number Float.to_int].
      rewrite truncate_nonneg
        by (change 0%Q with (inject_Z 0); rewrite <- Zle_Qle; lia).
      now rewrite Qfloor_Z.
    + lia.
    + lia.
    + rewrite Z.abs_eq by lia. change (2 ^ (-2))%Q with (1 # 4)%Q.
      assert (inject_Z m < 2 ^ 53)%Q.
      { rewrite <- (FloatFacts.pow2_Z 53) by lia. rewrite <- Zlt_Qlt. lia. }
      assert (0 <= inject_Z m)%Q
        by (change 0%Q with (inject_Z 0); rewrite <- Zle_Qle; lia).
      assert (2 ^ 53 < 2 ^ 1024)%Q by reflexivity. lra.
Qed.

Lemma exact_unit (x j : Z) (u : unit) :
  0 <= j <= 5 -> divider u = Int (2 ^ (10 * j)) ->
  name_ok u (singular u) -> name_ok u (plural u) ->
  2 ^ (10 * j) <= x < 2 ^ 53 ->
  (4 * x) mod 2 ^ (10 * j) = 0 ->
  largest_unit disk_size_units x u ->
  exists text, format_size x false = Ok text /\ parse_size text = Ok x.
Proof.
  intros Hj Ed Hs Hp Hx Q L.
  assert (Hd : 0 < 2 ^ (10 * j)) by (apply Z.pow_pos_nonneg; lia).
  apply Z.mod_divide in Q; [|lia]. destruct Q as [m Em].
  assert (Ep : is_empty (plural u) = false) by apply Hp.
  destruct (format_size_text x j u Hj Ed Ep Hx L) as [word [Hw F]].
  rewrite (hundredths_quarters x _ m Hd Em) in F.
  eexists. split; [exact F|].
  assert (N : name_ok u word) by (destruct Hw as [->| ->]; assumption).
  destruct N as [N1 [N2 [N3 N4]]].
  assert (K0 : 0 <= 25 * m) by nia.
  rewrite (parse_size_text _ _ word u K0 Ed N1 N2 N3 N4).
  apply quarters_read_back; [exact Hj|lia|exact Em].
Qed.

(** X18: a size below [2 ** 53] that is a whole number of quarters of the
    unit [format_size] selects for it (every size below 1024 bytes, every
    whole number of KB, MB, ..., and their halves and quarters) is read back
    exactly by [parse_size]. *)
Theorem size_round_trip_exact (x : Z) :
  0 <= x < 2 ^ 53 ->
  (4 * x) mod selected_divider x = 0 ->
  exists text, format_size x false = Ok text /\ parse_size text = Ok x.
Proof.
  intros Hx. unfold selected_divider.
  change (1024 ^ 5) with (2 ^ (10 * 5)). change (1024 ^ 4) with (2 ^ (10 * 4)).
  change (1024 ^ 3) with (2 ^ (10 * 3)). change (1024 ^ 2) with (2 ^ (10 * 2)).
  change (1024 ^ 1) with (2 ^ (10 * 1)).
  assert (P5 : 2 ^ (10 * 5) = 1125899906842624) by reflexivity.
  assert (P4 : 2 ^ (10 * 4) = 1099511627776) by reflexivity.
  assert (P3 : 2 ^ (10 * 3) = 1073741824) by reflexivity.
  assert (P2 : 2 ^ (10 * 2) = 1048576) by reflexivity.
  assert (P1 : 2 ^ (10 * 1) = 1024) by reflexivity.
  assert (P0 : 2 ^ (10 * 0) = 1) by reflexivity.
  destruct (Z.leb_spec (2 ^ (10 * 5)) x) as [L5|L5];
    [|destruct (Z.leb_spec (2 ^ (10 * 4)) x) as [L4|L4];
      [|destruct (Z.leb_spec (2 ^ (10 * 3)) x) as [L3|L3];
        [|destruct (Z.leb_spec (2 ^ (10 * 2)) x) as [L2|L2];
          [|destruct (Z.leb_spec (2 ^ (10 * 1)) x) as [L1|L1]]]]];
    intros Q.
  - apply (exact_unit x 5 (mk_unit (Some "p") (Int (1024 ^ 5)) "PB" "PB"));
      try lia; try exact Q; try (repeat split; reflexivity).
    apply (largest_unit_intro x (2 ^ (10 * 5)));
      [simpl; tauto|reflexivity|lia|table_maximum].
  - apply (exact_unit x 4 (mk_unit (Some "t") (Int (1024 ^ 4)) "TB" "TB"));
      try lia; try exact Q; try (repeat split; reflexivity).
    apply (largest_unit_intro x (2 ^ (10 * 4)));
      [simpl; tauto|reflexivity|lia|table_maximum].
  - apply (exact_unit x 3 (mk_unit (Some "g") (Int (1024 ^ 3)) "GB" "GB"));
      try lia; try exact Q; try (repeat split; reflexivity).
    apply (largest_unit_intro x (2 ^ (10 * 3)));
      [simpl; tauto|reflexivity|lia|table_maximum].
  - apply (exact_unit x 2 (mk_unit (Some "m") (Int (1024 ^ 2)) "MB" "MB"));
      try lia; try exact Q; try (repeat split; reflexivity).
    apply (largest_unit_intro x (2 ^ (10 * 2)));
      [simpl; tauto|reflexivity|lia|table_maximum].
  - apply (exact_unit x 1 (mk_unit (Some "k") (Int (1024 ^ 1)) "KB" "KB"));
      try lia; try exact Q; try (repeat split; reflexivity).
    apply (largest_unit_intro x (2 ^ (10 * 1)));
      [simpl; tauto|reflexivity|lia|table_maximum].
  - destruct (Z.eq_dec x 0) as [->|Hz].
    + exists "0 bytes". split; vm_compute; reflexivity.
    + apply (exact_unit x 0 (mk_unit (Some "b") (Int 1) "byte" "bytes"));
        try lia; try (repeat split; reflexivity).
      * change (2 ^ (10 * 0)) with 1. apply Z.mod_1_r.
      * apply (largest_unit_intro x (2 ^ (10 * 0)));
          [simpl; tauto|reflexivity|lia|table_maximum].
Qed.

Lemma size_round_trip_exact_witness :
  exists text, format_size 1536 false = Ok text /\ parse_size text = Ok 1536.
Proof.
  apply (size_round_trip_exact 1536).
  - split; [discriminate|reflexivity].
  - reflexivity.
Defined.

(** * Counts and timespans beyond the integers below [2 ^ 53] *)

(** ** The range of [float], and quotients of floats *)

Module FloatRange.

Import Float FloatFacts.
#[local] Open Scope Q_scope.



(** The grid of a float below [2 ^ 53]: [q] is [m / 2 ^ g] for an integer
    [m] of at most 53 bits. *)
Definition on_grid (q : Q) (m g : Z) : Prop :=
  q * inject_Z (2 ^ g) == inject_Z m /\ (0 <= g <= 1074)%Z /\ (0 <= m < 2 ^ 53)%Z.

Lemma grid_bounds (q : Q) (m g : Z) :
  on_grid q m g ->
  0 < inject_Z (2 ^ g) /\ 1 <= inject_Z (2 ^ g) /\ 0 <= q /\ q < 2 ^ 53.
Proof.
  intros [E [Hg Hm]].
  assert (G1 : 1 <= inject_Z (2 ^ g)).
  { change 1 with (inject_Z 1). rewrite <- Zle_Qle.
    pose proof (Z.pow_pos_nonneg 2 g ltac:(lia) ltac:(lia)). lia. }
  assert (M0 : 0 <= inject_Z m)
    by (change 0 with (inject_Z 0); rewrite <- Zle_Qle; lia).
  assert (M1 : inject_Z m < 2 ^ 53).
  { rewrite <- (pow2_Z 53) by lia. rewrite <- Zlt_Qlt. lia. }
  repeat split; try lra; nra.
Qed.

(** The integer part of a float on the grid, against an integer divisor. *)
Lemma grid_floor (q : Q) (m g d : Z) :
  on_grid q m g -> (0 < d)%Z ->
  let f := (Qfloor q / d)%Z in
  inject_Z f * inject_Z d <= q
  /\ q * inject_Z (2 ^ g) + 1 <= (inject_Z f + 1) * inject_Z d * inject_Z (2 ^ g).
Proof.
  intros G Hd f. destruct (grid_bounds q m g G) as [G0 [G1 [Q0 Q1]]].
  destruct G as [E [Hg Hm]].
  set (n := Qfloor q) in *.
  pose proof (Qfloor_le q) as Nl. pose proof (Qlt_floor q) as Nu.
  fold n in Nl, Nu.
  rewrite inject_Z_plus in Nu. change (inject_Z 1) with 1 in Nu.
  pose proof (Z.div_mod n d ltac:(lia)) as Dm.
  pose proof (Z.mod_pos_bound n d ltac:(lia)) as Rm. fold f in Dm.
  assert (A : inject_Z (f * d) <= inject_Z n) by (rewrite <- Zle_Qle; lia).
  rewrite inject_Z_mult in A.
  assert (B : inject_Z (n + 1) <= inject_Z ((f + 1) * d))
    by (rewrite <- Zle_Qle; lia).
  rewrite inject_Z_mult, !inject_Z_plus in B. change (inject_Z 1) with 1 in B.
  split; [lra|].
  assert (C : inject_Z (m + 1) <= inject_Z ((n + 1) * 2 ^ g)).
  { rewrite <- Zle_Qle.
    assert (C' : inject_Z m < inject_Z ((n + 1) * 2 ^ g)).
    { rewrite inject_Z_mult, inject_Z_plus. change (inject_Z 1) with 1.
      rewrite <- E. nra. }
    rewrite <- Zlt_Qlt in C'. lia. }
  rewrite inject_Z_mult, !inject_Z_plus in C. change (inject_Z 1) with 1 in C.
  rewrite E. nra.
Qed.

Lemma Qfloor_div_int (q : Q) (m g d : Z) :
  on_grid q m g -> (0 < d)%Z ->
  Qfloor (q / inject_Z d) = (Qfloor q / d)%Z.
Proof.
  intros G Hd. destruct (grid_floor q m g d G Hd) as [L U].
  destruct (grid_bounds q m g G) as [G0 [G1 _]].
  assert (D0 : 0 < inject_Z d)
    by (change 0 with (inject_Z 0); rewrite <- Zlt_Qlt; lia).
  set (t := q / inject_Z d).
  assert (Et : t * inject_Z d == q) by (unfold t; field; lra).
  set (F := inject_Z (Qfloor q / d)) in *.
  assert (Qu : q < (F + 1) * inject_Z d).
  { set (X := (F + 1) * inject_Z d) in *.
    destruct (Qlt_le_dec q X) as [H|H]; [exact H|].
    assert (X * inject_Z (2 ^ g) <= q * inject_Z (2 ^ g)) by nra. lra. }
  apply Qfloor_unique; fold F; clearbody t F.
  - apply (Qmult_le_r _ _ (inject_Z d) D0). lra.
  - apply (Qmult_lt_r _ _ (inject_Z d) D0). lra.
Qed.

(** The quotient of a float below [2 ^ 53] by an integer it reaches, once
    rounded, still has the integer part of the exact quotient. *)
Lemma float_div_floor (q : Q) (m g d : Z) :
  on_grid q m g -> (0 < d)%Z -> inject_Z d <= q ->
  exists w, binary64 (q / inject_Z d) = Fin w
            /\ 0 <= w /\ Qfloor w = (Qfloor q / d)%Z.
Proof.
  intros G Hd Dq. destruct (grid_floor q m g d G Hd) as [Fl Fu].
  destruct (grid_bounds q m g G) as [G0 [G1 [Q0 Q1]]].
  pose proof G as [E [Hg Hm]].
  set (f := (Qfloor q / d)%Z) in *.
  assert (D1 : 1 <= inject_Z d)
    by (change 1 with (inject_Z 1); rewrite <- Zle_Qle; lia).
  set (t := q / inject_Z d).
  assert (Et : t * inject_Z d == q) by (unfold t; field; lra).
  assert (T1 : 1 <= t) by nra.
  assert (T53 : t < 2 ^ 53) by nra.
  assert (Ht : 0 < t) by lra.
  rewrite (binary64_pos t Ht). cbv zeta. rewrite (ulp_exp_pos t Ht).
  destruct (ilog2_spec t Ht) as [IL IU]. set (e := ilog2 t) in *.
  assert (E0 : (0 <= e)%Z).
  { assert (A : 2 ^ 0 < 2 ^ (e + 1)) by (change (2 ^ 0) with 1; lra).
    apply pow2_lt_inv in A. lia. }
  assert (E52 : (e <= 52)%Z) by (apply ilog2_upper; assumption).
  rewrite Z.max_l by lia.
  set (u := (e - 52)%Z).
  pose proof (pow2_pos u) as Pu.
  assert (Eu : 2 ^ e == 2 ^ u * 2 ^ 52).
  { rewrite <- pow2_plus. unfold u.
    replace (e - 52 + 52)%Z with e by lia. reflexivity. }
  (* half a unit in the last place, times the divisor, is below the grid *)
  assert (M53 : inject_Z m < 2 ^ 53).
  { rewrite <- (pow2_Z 53) by lia. rewrite <- Zlt_Qlt. lia. }
  assert (Hdu : inject_Z d * 2 ^ u * inject_Z (2 ^ g) < 2).
  { assert (A : inject_Z d * 2 ^ e <= q) by nra.
    assert (B : inject_Z d * 2 ^ e * inject_Z (2 ^ g) <= inject_Z m)
      by (rewrite <- E; nra).
    assert (C : 2 ^ 53 == 2 * 2 ^ 52) by reflexivity.
    assert (P52 : 0 < 2 ^ 52) by reflexivity.
    nra. }
  set (s := (2 ^ (- u))%Z).
  assert (Es : inject_Z s * 2 ^ u == 1).
  { unfold s. rewrite pow2_Z by (unfold u; lia). rewrite <- pow2_plus.
    replace (- u + u)%Z with 0%Z by lia. reflexivity. }
  assert (Ps : 0 < inject_Z s) by nra.
  destruct (round_half_even_spec (t / 2 ^ u)) as [L U].
  set (r := round_half_even (t / 2 ^ u)) in *.
  assert (Ex : t / 2 ^ u == t * inject_Z s).
  { rewrite <- (Qmult_1_r (t / 2 ^ u)), <- Es. field. lra. }
  rewrite Ex in L, U.
  assert (F0 : 0 <= inject_Z f).
  { change 0 with (inject_Z 0). rewrite <- Zle_Qle. unfold f.
    apply Z.div_pos; [|lia].
    assert (A : inject_Z 0 <= inject_Z (Qfloor q)).
    { rewrite <- Zle_Qle. apply Qfloor_resp_le in Q0. exact Q0. }
    rewrite <- Zle_Qle in A. exact A. }
  assert (Ft : inject_Z f <= t) by nra.
  assert (Mf : inject_Z (f * s) <= inject_Z r).
  { rewrite <- Zle_Qle.
    assert (A : inject_Z (f * s - 1) < inject_Z r).
    { unfold Z.sub. rewrite inject_Z_plus, inject_Z_mult.
      change (inject_Z (- (1))) with (-1). nra. }
    rewrite <- Zlt_Qlt in A. lia. }
  rewrite inject_Z_mult in Mf.
  assert (Lo : inject_Z f <= inject_Z r * 2 ^ u) by nra.
  assert (Hi : inject_Z r * 2 ^ u < inject_Z f + 1).
  { assert (A : inject_Z r * 2 ^ u <= t + 2 ^ u * (1 # 2)) by nra.
    set (DG := inject_Z d * inject_Z (2 ^ g)).
    assert (P : 0 < DG) by (unfold DG; nra).
    assert (B : (t + 2 ^ u * (1 # 2)) * DG < (inject_Z f + 1) * DG).
    { unfold DG. nra. }
    nra. }
  assert (Fi : inject_Z r * 2 ^ u < 2 ^ 1024).
  { assert (inject_Z f <= 2 ^ 53) by lra.
    assert (2 ^ 53 + 1 < 2 ^ 1024) by reflexivity. lra. }
  rewrite (proj2 (Qle_bool_false _ _) Fi).
  eexists. split; [reflexivity|]. split.
  - rewrite Qred_correct. lra.
  - rewrite (Qfloor_comp _ _ (Qred_correct _)).
    apply Qfloor_unique; assumption.
Qed.

(** The remainder of a float below [2 ^ 53] by an integer is a float of the
    same grid: [%] is exact. *)
Lemma float_mod_exact (q : Q) (m g d : Z) :
  on_grid q m g -> (0 < d)%Z ->
  exists m',
    binary64 (q - inject_Z d * inject_Z (Qfloor (q / inject_Z d)))
    = Fin (Qred (inject_Z m' * 2 ^ (- g)))
    /\ on_grid (Qred (inject_Z m' * 2 ^ (- g))) m' g
    /\ Qfloor (Qred (inject_Z m' * 2 ^ (- g))) = (Qfloor q mod d)%Z.
Proof.
  intros G Hd. destruct (grid_floor q m g d G Hd) as [Fl Fu].
  destruct (grid_bounds q m g G) as [G0 [G1 [Q0 Q1]]].
  pose proof G as [E [Hg Hm]].
  rewrite (Qfloor_div_int q m g d G Hd).
  set (f := (Qfloor q / d)%Z) in *.
  assert (D0 : 0 < inject_Z d)
    by (change 0 with (inject_Z 0); rewrite <- Zlt_Qlt; lia).
  assert (Pg : inject_Z (2 ^ g) * 2 ^ (- g) == 1).
  { rewrite pow2_Z by lia. rewrite <- pow2_plus.
    replace (g + - g)%Z with 0%Z by lia. reflexivity. }
  pose proof (pow2_pos (- g)) as Png.
  assert (F0 : (0 <= f)%Z).
  { unfold f. apply Z.div_pos; [|lia].
    apply Qfloor_resp_le in Q0. exact Q0. }
  set (m' := (m - d * f * 2 ^ g)%Z).
  assert (V : inject_Z m' * 2 ^ (- g) == q - inject_Z d * inject_Z f).
  { unfold m'. unfold Z.sub. rewrite inject_Z_plus, inject_Z_opp, !inject_Z_mult.
    rewrite <- E.
    assert (X : (q * inject_Z (2 ^ g)
                 + - (inject_Z d * inject_Z f * inject_Z (2 ^ g))) * 2 ^ (- g)
                == (q - inject_Z d * inject_Z f) * (inject_Z (2 ^ g) * 2 ^ (- g)))
      by ring.
    rewrite X, Pg. ring. }
  assert (M0 : (0 <= m')%Z).
  { assert (A : inject_Z 0 <= inject_Z m').
    { change (inject_Z 0) with 0. nra. }
    rewrite <- Zle_Qle in A. exact A. }
  assert (M1 : (m' <= m)%Z).
  { unfold m'. pose proof (Z.pow_pos_nonneg 2 g ltac:(lia) ltac:(lia)). nia. }
  exists m'. split; [|split].
  - rewrite <- V. apply binary64_exact.
    + lia.
    + lia.
    + rewrite Z.abs_eq by lia. rewrite V.
      assert (0 <= inject_Z d * inject_Z f).
      { apply Qmult_le_0_compat; [lra|].
        change 0 with (inject_Z 0). rewrite <- Zle_Qle. exact F0. }
      assert (2 ^ 53 < 2 ^ 1024) by reflexivity. lra.
  - split; [|split; lia].
    rewrite Qred_correct.
    rewrite <- Qmult_assoc, (Qmult_comm (2 ^ (- g))), Pg. ring.
  - rewrite (Qfloor_comp _ _ (Qred_correct _)).
    rewrite (Qfloor_comp _ _ V).
    pose proof (Qfloor_le q) as Nl. pose proof (Qlt_floor q) as Nu.
    set (n := Qfloor q) in *.
    pose proof (Z.div_mod n d ltac:(lia)) as Dm. fold f in Dm.
    apply Qfloor_unique.
    + assert (A : inject_Z (n mod d) == inject_Z n - inject_Z d * inject_Z f).
      { rewrite <- inject_Z_mult. unfold Qminus. rewrite <- inject_Z_opp, <- inject_Z_plus.
        apply inject_Z_injective. lia. }
      rewrite A. lra.
    + assert (A : inject_Z (n mod d) == inject_Z n - inject_Z d * inject_Z f).
      { rewrite <- inject_Z_mult. unfold Qminus. rewrite <- inject_Z_opp, <- inject_Z_plus.
        apply inject_Z_injective. lia. }
      rewrite A. rewrite inject_Z_plus in Nu. change (inject_Z 1) with 1 in Nu.
      lra.
Qed.

(** The float read from a number of hundredths has the integer part 1
    exactly from 1.00 to 1.99. *)
Lemma floor_hundredths (k : Z) :
  (0 <= k)%Z -> inject_Z k / 100 < 2 ^ 1023 ->
  exists w, binary64 (inject_Z k / 100) = Fin w /\ 0 <= w
            /\ (Qfloor w =? 1)%Z = ((100 <=? k) && (k <? 200))%Z.
Proof.
  intros Hk Hb. set (q := inject_Z k / 100) in *.
  assert (Eq : q * 100 == inject_Z k) by (unfold q; field).
  destruct (Z.eq_dec k 0) as [K0|K0];
    [|destruct (Z.eq_dec k 100) as [K1|K1];
      [|destruct (Z.eq_dec k 200) as [K2|K2]]].
  - subst k. exists 0. split; [apply binary64_zero; reflexivity|].
    split; [lra|reflexivity].
  - subst k. exists (inject_Z 1). split; [|split; [discriminate|reflexivity]].
    assert (E1 : q == inject_Z 1) by reflexivity.
    rewrite E1. apply binary64_int. reflexivity.
  - subst k. exists (inject_Z 2). split; [|split; [discriminate|reflexivity]].
    assert (E2 : q == inject_Z 2) by reflexivity.
    rewrite E2. apply binary64_int. reflexivity.
  - assert (K : 1 <= inject_Z k)
      by (change 1 with (inject_Z 1); rewrite <- Zle_Qle; lia).
    assert (Hq : 0 < q) by lra.
    destruct (Z.leb_spec 100 k) as [L1|L1];
      [destruct (Z.ltb_spec k 200) as [L2|L2]|]; cbn [andb].
    + (* 1.01 to 1.99 *)
      assert (A : inject_Z 101 <= inject_Z k) by (rewrite <- Zle_Qle; lia).
      assert (B : inject_Z k <= inject_Z 199) by (rewrite <- Zle_Qle; lia).
      change (inject_Z 101) with 101 in A. change (inject_Z 199) with 199 in B.
      destruct (binary64_error q 0) as [w [E [W0 [Lo Hi]]]];
        [exact Hq|change (2 ^ (0 + 1)) with 2; lra|lia|].
      exists w. split; [exact E|]. split; [exact W0|].
      apply Z.eqb_eq.
      assert (P : 2 ^ (0 - 53) < 1 # 1000) by reflexivity.
      clearbody q.
      apply Qfloor_unique; change (inject_Z 1) with 1; lra.
    + (* from 2.01 on *)
      assert (A : inject_Z 201 <= inject_Z k) by (rewrite <- Zle_Qle; lia).
      change (inject_Z 201) with 201 in A.
      destruct (ilog2_spec q Hq) as [IL IU]. set (b := ilog2 q) in *.
      assert (B1 : (1 <= b)%Z).
      { assert (X : 2 ^ 1 < 2 ^ (b + 1)) by (change (2 ^ 1) with 2; lra).
        apply pow2_lt_inv in X. lia. }
      assert (B2 : (b <= 1022)%Z) by (apply ilog2_upper; assumption).
      destruct (binary64_error q b) as [w [E [W0 [Lo Hi]]]];
        [exact Hq|exact IU|lia|].
      exists w. split; [exact E|]. split; [exact W0|].
      assert (P : 2 ^ (b - 53) == 2 ^ b * 2 ^ (- 53)).
      { rewrite <- pow2_plus. reflexivity. }
      assert (P53 : 2 ^ (- 53) < 1 # 1000) by reflexivity.
      assert (P0 : 0 < 2 ^ (- 53)) by reflexivity.
      assert (W2 : 2 <= w) by (clearbody q; rewrite P in Lo; nra).
      apply Z.eqb_neq. apply Qfloor_resp_le in W2.
      change (Qfloor 2) with 2%Z in W2. lia.
    + (* 0.01 to 0.99 *)
      assert (B : inject_Z k <= inject_Z 99) by (rewrite <- Zle_Qle; lia).
      change (inject_Z 99) with 99 in B.
      destruct (binary64_error q (-1)) as [w [E [W0 [Lo Hi]]]];
        [exact Hq|change (2 ^ (-1 + 1)) with 1; lra|lia|].
      exists w. split; [exact E|]. split; [exact W0|].
      apply Z.eqb_neq.
      assert (P : 2 ^ (-1 - 53) < 1 # 1000) by reflexivity.
      assert (F : Qfloor w = 0%Z)
        by (clearbody q; apply Qfloor_unique; change (inject_Z 0) with 0; lra).
      rewrite F. discriminate.
Qed.

(** A binary64 number from 0 to [2 ^ 53] is on a grid. *)
Lemma grid_of_binary64 (q : Q) :
  is_binary64 q -> 0 <= q -> q < 2 ^ 53 -> exists m g, on_grid q m g.
Proof.
  intros (m & e & E & Hm & He) Q0 Q1.
  pose proof (pow2_pos e) as Pe.
  assert (M0 : (0 <= m)%Z).
  { assert (A : inject_Z (-1) < inject_Z m).
    { change (inject_Z (-1)) with (-1).
      destruct (Qlt_le_dec (-1) (inject_Z m)) as [H|H]; [exact H|].
      assert (inject_Z m * 2 ^ e < 0) by nra. lra. }
    rewrite <- Zlt_Qlt in A. lia. }
  destruct (Z.lt_ge_cases e 0) as [Neg|Pos].
  - exists m, (- e)%Z. split; [|split; lia].
    rewrite E, pow2_Z by lia. rewrite <- Qmult_assoc, <- pow2_plus.
    replace (e + - e)%Z with 0%Z by lia. change (2 ^ 0) with 1. ring.
  - exists (m * 2 ^ e)%Z, 0%Z. split; [|split; [lia|]].
    + rewrite E, inject_Z_mult, (pow2_Z e) by lia.
      change (inject_Z (2 ^ 0)) with 1. ring.
    + split; [apply Z.mul_nonneg_nonneg; [exact M0|apply Z.pow_nonneg; lia]|].
      assert (A : inject_Z (m * 2 ^ e) < inject_Z (2 ^ 53)).
      { rewrite inject_Z_mult, (pow2_Z e), (pow2_Z 53) by lia.
        rewrite <- E. exact Q1. }
      rewrite <- Zlt_Qlt in A. exact A.
Qed.

End FloatRange.

(** ** C9: [pluralize] on every count *)


Lemma Qfloor_nonpos (r : Q) : (r <= 0)%Q -> Qfloor r <= 0.
Proof.
  intros H. pose proof (Qfloor_le r) as L.
  assert (A : (inject_Z (Qfloor r) <= inject_Z 0)%Q)
    by (change (inject_Z 0) with 0%Q; lra).
  rewrite <- Zle_Qle in A. exact A.
Qed.



Lemma plural_given (singular p : string) :
  is_empty p = false -> plural_form singular (Some p) = p.
Proof. intros H. simpl. now rewrite H. Qed.

Lemma is_empty_snoc (s t : string) : is_empty t = false -> is_empty (s ++ t) = false.
Proof. intros H. destruct s; [exact H|reflexivity]. Qed.

Lemma pluralize_default (c : count) (singular : string) :
  pluralize c singular None = pluralize c singular (Some (singular ++ "s")).
Proof.
  unfold pluralize. now rewrite (is_empty_snoc singular "s" eq_refl).
Qed.





Lemma numeral_text_head (k : Z) :
  0 <= k -> exists c rest, numeral_text k = String c rest /\ is_digit c = true.
Proof.
  intros Hk.
  assert (I0 : 0 <= k / 100) by (apply Z.div_pos; lia).
  pose proof (str_of_int_isdigit _ I0) as D.
  destruct (str_of_int (k / 100)) as [|c r] eqn:S; [discriminate|].
  rewrite isdigit_cons in D. apply andb_prop in D. destruct D as [Dc _].
  destruct (numeral_text_cases k Hk) as [[_ E]|[_ [fp [_ [E _]]]]];
    rewrite E, S; simpl; eauto.
Qed.

Lemma pluralize_text (k : Z) (singular p : string) :
  is_empty p = false -> 0 <= k -> (inject_Z k / 100 < 2 ^ 1023)%Q ->
  pluralize (CStr (numeral_text k)) singular (Some p)
  = Ok (numeral_text k ++ " "
        ++ (if (100 <=? k) && (k <? 200) then singular else p)).
Proof.
  intros Hp Hk B.
  destruct (FloatRange.floor_hundredths k Hk B) as [w [E [_ F]]].
  rewrite (pluralize_floor (CStr (numeral_text k)) singular (Some p)
             (Fin w) (Qfloor w)).
  - rewrite F, (plural_given _ _ Hp). reflexivity.
  - cbn [float_of_count]. now rewrite (float_of_str_numeral_text k Hk), E.
  - reflexivity.
Qed.

Lemma float_of_str_minus (s : string) :
  float_of_str (String "-" s) = (x <- float_of_unsigned s ;; Ok (float_neg x)).
Proof. reflexivity. Qed.

Lemma pluralize_negative_text (k : Z) (singular p : string) :
  is_empty p = false -> 0 <= k -> (inject_Z k / 100 < 2 ^ 1023)%Q ->
  pluralize (CStr ("-" ++ numeral_text k)) singular (Some p)
  = Ok ("-" ++ numeral_text k ++ " " ++ p).
Proof.
  intros Hp Hk B.
  destruct (FloatRange.floor_hundredths k Hk B) as [w [E [W0 _]]].
  destruct (numeral_text_head k Hk) as [c [rest [N Dc]]].
  assert (U : float_of_unsigned (numeral_text k) = Ok (Fin w)).
  { rewrite <- E, <- (float_of_str_numeral_text k Hk), N.
    symmetry. now apply float_of_str_digit. }
  rewrite (pluralize_floor (CStr ("-" ++ numeral_text k)) singular (Some p)
             (float_neg (Fin w)) (Qfloor (Qred (- w)))).
  - rewrite (plural_given _ _ Hp).
    assert (F : (Qfloor (Qred (- w)) =? 1) = false).
    { apply Z.eqb_neq. rewrite (Qfloor_comp _ _ (Qred_correct _)).
      pose proof (Qfloor_nonpos (- w) ltac:(lra)). lia. }
    rewrite F. reflexivity.
  - cbn [float_of_count]. change ("-" ++ numeral_text k)
      with (String "-" (numeral_text k)).
    rewrite float_of_str_minus, U. reflexivity.
  - reflexivity.
Qed.




(** ** C5: [format_timespan] on integers and floats *)

(** *** The fast path *)

Lemma numeral_text_int (a : Z) : 0 <= a -> numeral_text (100 * a) = str_of_int a.
Proof.
  intros Ha. unfold numeral_text.
  assert (M10 : (100 * a) mod 10 = 0).
  { replace (100 * a) with (10 * a * 10) by lia. apply Z.mod_mul. lia. }
  assert (M100 : (100 * a) mod 100 = 0).
  { rewrite Z.mul_comm. apply Z.mod_mul. lia. }
  rewrite M10, M100. cbn [Z.eqb Z.div].
  change (0 / 10 =? 0) with true. cbv iota.
  rewrite Z.mul_comm, Z.div_mul by lia. reflexivity.
Qed.

Lemma format_timespan_negative_int (n : Z) :
  - 2 ^ 53 < n < 0 ->
  format_timespan (Int n) = Ok (str_of_int n ++ " seconds").
Proof.
  intros Hn. unfold format_timespan.
  rewrite num_lt_int, (proj2 (Z.ltb_lt n 60)) by lia.
  rewrite round_number_int by lia. cbn [bind].
  rewrite pluralize_default.
  assert (E : str_of_int n = "-" ++ numeral_text (100 * - n)).
  { rewrite numeral_text_int by lia. rewrite <- (str_of_int_sign n).
    rewrite (proj2 (Z.ltb_lt n 0)) by lia.
    now rewrite Z.abs_neq by lia. }
  rewrite E. rewrite pluralize_negative_text; [reflexivity|reflexivity|lia|].
  assert (Q : (inject_Z (100 * - n) / 100 == inject_Z (- n))%Q).
  { rewrite inject_Z_mult. change (inject_Z 100) with 100%Q. field. }
  rewrite Q.
  assert (A : (inject_Z (- n) < inject_Z (2 ^ 53))%Q) by (rewrite <- Zlt_Qlt; lia).
  assert (B : (inject_Z (2 ^ 53) < 2 ^ 1023)%Q) by reflexivity.
  lra.
Qed.

Lemma format_timespan_small_int (n : Z) :
  - 2 ^ 53 < n < 60 ->
  format_timespan (Int n)
  = Ok (str_of_int n ++ " " ++ (if n =? 1 then "second" else "seconds")).
Proof.
  intros Hn. destruct (Z.lt_ge_cases n 0) as [Neg|Pos].
  - rewrite format_timespan_negative_int by lia.
    now rewrite (proj2 (Z.eqb_neq n 1)) by lia.
  - apply format_timespan_seconds. lia.
Qed.

Lemma format_timespan_small_float (q : Q) :
  (0 < q)%Q -> (q < 60)%Q ->
  let k := Float.round_half_even (q * 100) in
  format_timespan (Float (Fin q))
  = Ok (numeral_text k ++ " "
        ++ (if (100 <=? k) && (k <? 200) then "second" else "seconds")).
Proof.
  intros Q0 Q1 k. unfold format_timespan.
  assert (L : num_lt (Float (Fin q)) (Int 60) = true).
  { unfold num_lt. cbn [exact Float.ltb]. apply FloatFacts.Qltb_lt.
    change (inject_Z 60) with 60%Q. exact Q1. }
  rewrite L, round_number_text by lra. cbn [bind]. fold k.
  rewrite pluralize_default.
  destruct (FloatFacts.round_half_even_spec (q * 100)) as [Lo Hi]. fold k in Lo, Hi.
  apply pluralize_text; [reflexivity| |].
  - apply FloatFacts.round_half_even_nonneg. nra.
  - assert (B : (6001 < 2 ^ 1023)%Q) by reflexivity.
    apply Qlt_shift_div_r; [reflexivity|]. nra.
Qed.

Lemma format_2f_negative (q : Q) :
  (q < 0)%Q -> format_2f (Fin q) = "-" ++ format_2f (Fin (- q)).
Proof.
  intros H. unfold format_2f.
  rewrite (proj2 (FloatFacts.Qltb_lt q 0) H).
  assert (N : Float.Qltb (- q) 0 = false) by (apply FloatFacts.Qltb_ge; lra).
  rewrite N.
  assert (E : (Qabs (- q) * 100 == Qabs q * 100)%Q) by (now rewrite Qabs_opp).
  rewrite (FloatFacts.round_half_even_comp _ _ E). reflexivity.
Qed.

Lemma round_number_negative (q : Q) :
  (q < 0)%Q ->
  round_number (Float (Fin q)) false
  = Ok ("-" ++ numeral_text (Float.round_half_even (- q * 100))).
Proof.
  intros H. unfold round_number. cbn [float_of_number bind].
  rewrite (format_2f_negative q H).
  change ("-" ++ format_2f (Fin (- q))) with (String "-" (format_2f (Fin (- q)))).
  cbn [strip_trailing_zeros]. change (Ascii.eqb "-" "0") with false.
  cbn [andb strip_trailing_dot]. change (Ascii.eqb "-" ".") with false.
  cbn [andb]. rewrite format_2f_text by lra. reflexivity.
Qed.

Lemma format_timespan_negative_float (q : Q) :
  (- 2 ^ 53 < q)%Q -> (q < 0)%Q ->
  format_timespan (Float (Fin q))
  = Ok ("-" ++ numeral_text (Float.round_half_even (- q * 100)) ++ " seconds").
Proof.
  intros Q0 Q1. unfold format_timespan.
  assert (L : num_lt (Float (Fin q)) (Int 60) = true).
  { unfold num_lt. cbn [exact Float.ltb]. apply FloatFacts.Qltb_lt.
    change (inject_Z 60) with 60%Q. lra. }
  rewrite L, round_number_negative by exact Q1. cbn [bind].
  rewrite pluralize_default.
  destruct (FloatFacts.round_half_even_spec (- q * 100)) as [Lo Hi].
  set (k := Float.round_half_even (- q * 100)) in *.
  apply pluralize_negative_text; [reflexivity| |].
  - apply FloatFacts.round_half_even_nonneg. nra.
  - assert (B : (2 ^ 53 + 1 < 2 ^ 1023)%Q) by reflexivity.
    apply Qlt_shift_div_r; [reflexivity|]. nra.
Qed.

(** *** The slow path on a float *)

Lemma num_ge_float (q : Q) (d : Z) :
  num_ge (Float (Fin q)) (Int d) = (d <=? Qfloor q).
Proof.
  unfold num_ge. cbn [exact Float.leb].
  pose proof (Qfloor_le q) as Fl. pose proof (Qlt_floor q) as Fu.
  rewrite inject_Z_plus in Fu. change (inject_Z 1) with 1%Q in Fu.
  destruct (Z.leb_spec d (Qfloor q)) as [Le|Lt].
  - apply Qle_bool_iff. rewrite Zle_Qle in Le. lra.
  - apply FloatFacts.Qle_bool_false.
    assert (A : (inject_Z (Qfloor q + 1) <= inject_Z d)%Q)
      by (rewrite <- Zle_Qle; lia).
    rewrite inject_Z_plus in A. change (inject_Z 1) with 1%Q in A. lra.
Qed.

Lemma format_timespan_loop_float (units : list unit) :
  Forall time_unit_ok units ->
  forall q m g acc,
    FloatRange.on_grid q m g ->
    format_timespan_loop units (Float (Fin q)) acc
    = Ok (acc ++ map render_term
                   (filter nonzero_count (greedy units (Qfloor q))))%list.
Proof.
  induction 1 as [|u units [d [Ed [Hd Hp]]] _ IH]; intros q m g acc G.
  - simpl. rewrite app_nil_r. reflexivity.
  - assert (Ei : int_divider u = d) by (unfold int_divider; rewrite Ed; reflexivity).
    destruct (FloatRange.grid_bounds q m g G) as [_ [_ [Q0 Q1]]].
    pose proof (Qfloor_le q) as Fl.
    assert (N0 : 0 <= Qfloor q).
    { apply Qfloor_resp_le in Q0. exact Q0. }
    assert (N1 : Qfloor q < 2 ^ 53).
    { assert (A : (inject_Z (Qfloor q) < inject_Z (2 ^ 53))%Q).
      { change (inject_Z (2 ^ 53)) with (2 ^ 53)%Q. lra. }
      rewrite <- Zlt_Qlt in A. exact A. }
    cbn [format_timespan_loop greedy filter]. rewrite Ei, Ed, num_ge_float.
    destruct (Z.leb_spec d (Qfloor q)) as [Le|Lt].
    + assert (Dq : (inject_Z d <= q)%Q) by (rewrite Zle_Qle in Le; lra).
      destruct (FloatRange.float_div_floor q m g d G ltac:(lia) Dq)
        as [w [Ew [W0 Fw]]].
      destruct (FloatRange.float_mod_exact q m g d G ltac:(lia))
        as [m' [Em [G' Fm]]].
      unfold num_div, num_mod. cbn [num_is_zero].
      rewrite (proj2 (Z.eqb_neq d 0)) by lia.
      cbn [float_of_number bind]. rewrite of_int_exact by lia.
      cbn [bind Float.div Float.mod_]. rewrite Ew, Em.
      cbn [bind int_of_number Float.to_int].
      rewrite (truncate_nonneg w W0), Fw.
      assert (Hc : 1 <= Qfloor q / d <= Qfloor q).
      { split.
        - apply Z.div_le_lower_bound; lia.
        - apply Z.div_le_upper_bound; nia. }
      rewrite pluralize_int by lia. cbn [bind plural_form]. rewrite Hp.
      rewrite (IH _ m' g _ G'), Fm.
      assert (Nz : nonzero_count (Qfloor q / d, u) = true).
      { unfold nonzero_count. cbn [fst].
        rewrite (proj2 (Z.eqb_neq (Qfloor q / d) 0)) by lia. reflexivity. }
      rewrite Nz. cbn [map]. rewrite <- app_assoc. reflexivity.
    + rewrite Z.div_small, Z.mod_small by lia.
      assert (Nz : nonzero_count (0, u) = false) by reflexivity.
      rewrite Nz. apply (IH q m g acc G).
Qed.

Lemma format_timespan_float (q : Q) :
  is_binary64 q -> (60 <= q)%Q -> (q < 2 ^ 53)%Q ->
  format_timespan (Float (Fin q))
  = Ok (concatenate (firstn 3 (timespan_terms (Qfloor q)))).
Proof.
  intros B Q0 Q1.
  destruct (FloatRange.grid_of_binary64 q B ltac:(lra) Q1) as [m [g G]].
  rewrite format_timespan_slow.
  - rewrite (format_timespan_loop_float _ time_units_ok q m g [] G).
    reflexivity.
  - unfold num_lt. cbn [exact Float.ltb]. apply FloatFacts.Qltb_ge.
    change (inject_Z 60) with 60%Q. exact Q0.
Qed.

(** From [2 ** 53] on the count [int(n / divider)] comes from a rounded
    quotient: 16884375465484799 seconds are 536870912 years, 51 weeks and
    6 days, and are printed as 536870913 years, 51 weeks and 6 days. *)
Lemma format_timespan_rounds_count : ~ timespan_is_greedy.
Proof.
  intros H. specialize (H 16884375465484799 ltac:(lia)).
  vm_compute in H. discriminate H.
Qed.
(** C5 (amended): below 60 seconds [format_timespan] renders one term in
    seconds from the rounded number: an [int] as it is, a positive [float]
    rounded to two decimals, a negative one after its minus sign.  From 60
    seconds on and below [2 ** 53] it decomposes the timespan greedily,
    largest divider first, each time taking the integer count and keeping
    the remainder (a [float] is decomposed like its integer part), keeps the
    first three terms with a count other than zero, renders each with
    [pluralize] and joins them with commas and a final ["and"] (one term
    alone is returned as it is); [format_timespan(80) ==
    "1 minute and 20 seconds"] and [format_timespan(0) == "0 seconds"].
    From [2 ** 53] on the count is read from a rounded quotient and can be
    one more than the integer count. *)
Theorem format_timespan_spec :
  (forall x,
      num_lt x (Int 60) = true -> float_zero x = false ->
      format_timespan x
      = (text <- round_number x false ;; pluralize (CStr text) "second" None))
  /\ (forall n,
         - 2 ^ 53 < n < 60 ->
         format_timespan (Int n)
         = Ok (str_of_int n ++ " " ++ (if n =? 1 then "second" else "seconds")))
  /\ (forall q,
         (0 < q)%Q -> (q < 60)%Q ->
         let k := Float.round_half_even (q * 100) in
         format_timespan (Float (Fin q))
         = Ok (numeral_text k ++ " "
               ++ (if (100 <=? k) && (k <? 200) then "second" else "seconds")))
  /\ (forall q,
         (- 2 ^ 53 < q)%Q -> (q < 0)%Q ->
         format_timespan (Float (Fin q))
         = Ok ("-" ++ numeral_text (Float.round_half_even (- q * 100))
               ++ " seconds"))
  /\ (forall n,
         60 <= n < 2 ^ 53 ->
         format_timespan (Int n)
         = Ok (concatenate (firstn 3 (timespan_terms n))))
  /\ (forall q,
         is_binary64 q -> (60 <= q)%Q -> (q < 2 ^ 53)%Q ->
         format_timespan (Float (Fin q))
         = Ok (concatenate (firstn 3 (timespan_terms (Qfloor q)))))
  /\ (forall a b c,
         concatenate [a] = a
         /\ concatenate [a; b] = a ++ " and " ++ b
         /\ concatenate [a; b; c] = (a ++ ", " ++ b) ++ " and " ++ c)
  /\ map int_divider (rev time_units) = [31449600; 604800; 86400; 3600; 60; 1]
  /\ format_timespan (Int 80) = Ok "1 minute and 20 seconds"
  /\ format_timespan (Int 0) = Ok "0 seconds"
  /\ format_timespan (Int 120) = Ok "2 minutes"
  /\ format_timespan (Int (31449600 + 604800 * 2 + 86400 * 3 + 3600 * 12))
     = Ok "1 year, 2 weeks and 3 days"
  /\ format_timespan (Float (Fin (54321 # 100000))) = Ok "0.54 seconds"
  /\ format_timespan (Float (Fin (181 # 2))) = Ok "1 minute and 30 seconds"
  /\ format_timespan (Float (Fin (-3 # 2))) = Ok "-1.5 seconds"
  /\ format_timespan (Int 16884375465484799)
     = Ok "536870913 years, 51 weeks and 6 days".
Proof.
  split; [|split; [|split; [|split; [|split; [|split; [|split]]]]]].
  - intros x H _. unfold format_timespan. rewrite H. reflexivity.
  - exact format_timespan_small_int.
  - exact format_timespan_small_float.
  - exact format_timespan_negative_float.
  - exact format_timespan_int.
  - exact format_timespan_float.
  - intros a b c. repeat split.
  - repeat split; vm_compute; reflexivity.
Qed.

Lemma format_timespan_spec_witness :
  format_timespan (Float NInf) = Raise OverflowError
  /\ format_timespan (Int (-120)) = Ok "-120 seconds"
  /\ format_timespan (Float (Fin (3 # 2))) = Ok "1.5 second"
  /\ format_timespan (Float (Fin (-1 # 4))) = Ok "-0.25 seconds"
  /\ format_timespan (Int 80) = Ok (concatenate (firstn 3 (timespan_terms 80)))
  /\ timespan_terms 80 = ["1 minute"; "20 seconds"]
  /\ format_timespan (Float (Fin (7323 # 2)))
     = Ok (concatenate (firstn 3 (timespan_terms 3661)))
  /\ timespan_terms 3661 = ["1 hour"; "1 minute"; "1 second"].
Proof.
  pose proof format_timespan_spec as (G & I & P & N & S & F & _).
  split; [|split; [|split; [|split; [|split; [|split; [|split]]]]]].
  - apply (G (Float NInf)); reflexivity.
  - apply (I (-120)). split; reflexivity.
  - apply (P (3 # 2)%Q); reflexivity.
  - apply (N (-1 # 4)%Q); reflexivity.
  - apply (S 80). split; [discriminate|reflexivity].
  - vm_compute. reflexivity.
  - apply (F (7323 # 2)%Q); [|discriminate|reflexivity].
    exists 7323, (-1). split; [reflexivity|]. split; [reflexivity|discriminate].
  - vm_compute. reflexivity.
Defined.
